(** * fuck-u-code: the console report generator ([pkg/report/report.go])

    A shallow embedding of the report package and the proofs of the
    properties stated about it.

    - Go's [int] is a 64-bit integer: [Z] with the wrap-around written out
      ([GoInt]).
    - Go's [float64] is IEEE 754 binary64: the Standard Library's
      [spec_float] at precision 53 and maximal exponent 1024 ([F64]).
      Every operation rounds as the hardware does (nearest, ties to even);
      passing fused multiply-add, which the Go specification allows a
      compiler to use, is not modelled (operations round one by one, as on
      amd64).
    - Go's [string] is a sequence of bytes: [string], one [ascii] a byte;
      literals are UTF-8.
    - Console output is a trace of print events, one per call of a
      [Printf] or [Println].
    - The [AnalysisResult] that [r.result] points to, and the backing
      arrays of the slices the report reads and sorts, live in an explicit
      store that every method threads. *)

From Stdlib Require Import ZArith String Ascii List Bool Lia.
From Stdlib Require Import Floats.SpecFloat DecimalString.
From stdpp Require Import base option gmap list strings sorting.

Local Open Scope string_scope.
Local Open Scope list_scope.
Local Open Scope Z_scope.

(** ** Go's [int] *)

Module GoInt.

Definition min_int : Z := - 2 ^ 63.
Definition max_int : Z := 2 ^ 63 - 1.

Definition in_range (z : Z) : Prop := min_int <= z <= max_int.

(** Two's-complement wrap-around of a mathematical integer into [int]. *)
Definition wrap (z : Z) : Z := (z + 2 ^ 63) mod 2 ^ 64 - 2 ^ 63.

Definition add (a b : Z) : Z := wrap (a + b).
Definition sub (a b : Z) : Z := wrap (a - b).
Definition mul (a b : Z) : Z := wrap (a * b).

(** [a / b] truncates towards zero and [a % b] has the sign of [a]; both
    panic when [b] is zero, which [divisor_ok] rules out. *)
Definition divisor_ok (b : Z) : bool := negb (b =? 0).
Definition quot (a b : Z) : Z := wrap (Z.quot a b).
Definition rem (a b : Z) : Z := Z.rem a b.

(** [len] of a slice or of a string. *)
Definition len {A} (l : list A) : Z := Z.of_nat (length l).

End GoInt.

(** ** Go's [float64] *)

Module F64.

Definition prec : Z := 53.
Definition emax : Z := 1024.

Abbreviation float64 := spec_float.

(** A value of type [float64]: a finite one has a canonical mantissa and
    exponent. *)
Definition valid (x : float64) : bool := valid_binary prec emax x.

Definition add : float64 -> float64 -> float64 := SFadd prec emax.
Definition mul : float64 -> float64 -> float64 := SFmul prec emax.
Definition div : float64 -> float64 -> float64 := SFdiv prec emax.

(** The comparisons; each is false when an operand is NaN. *)
Definition lt (x y : float64) : bool := SFltb x y.
Definition le (x y : float64) : bool := SFleb x y.
Definition gt (x y : float64) : bool := SFltb y x.
Definition ge (x y : float64) : bool := SFleb y x.

(** An integer constant or an [int] converted to [float64] (exact up to
    2^53, rounded to nearest beyond). *)
Definition of_int (n : Z) : float64 := binary_normalize prec emax n 0 false.

Definition zero : float64 := S754_zero false.

(** The decimal literals [0.7] and [0.3]: the nearest [float64], which is
    what the correctly rounded quotient of the exact 7 (3) and 10 is. *)
Definition lit_0_7 : float64 := div (of_int 7) (of_int 10).
Definition lit_0_3 : float64 := div (of_int 3) (of_int 10).

(** The integer part of a finite value, towards zero. *)
Definition trunc (x : float64) : Z :=
  match x with
  | S754_finite s m e =>
      let a := if 0 <=? e then Z.pos m * 2 ^ e else Z.pos m / 2 ^ (- e) in
      if s then - a else a
  | _ => 0
  end.

(** The greatest integer at most a finite value. *)
Definition floor (x : float64) : Z :=
  match x with
  | S754_finite s m e =>
      if 0 <=? e then (if s then - (Z.pos m * 2 ^ e) else Z.pos m * 2 ^ e)
      else (if s then Z.neg m else Z.pos m) / 2 ^ (- e)
  | _ => 0
  end.

Definition is_finite (x : float64) : bool :=
  match x with
  | S754_zero _ | S754_finite _ _ _ => true
  | _ => false
  end.

Definition is_nan (x : float64) : bool :=
  match x with
  | S754_nan => true
  | _ => false
  end.

(** The conversion [int(x)]: the fraction is discarded; when the value is
    not representable in [int] (NaN, an infinity, out of range) the result
    is implementation-specific, [unrepresentable x]. *)
Definition to_int (unrepresentable : float64 -> Z) (x : float64) : Z :=
  if is_finite x && (GoInt.min_int <=? trunc x) && (trunc x <=? GoInt.max_int)
  then trunc x
  else GoInt.wrap (unrepresentable x).

(** [math.Round]: the nearest integer, halves away from zero; zeros,
    infinities and NaN are returned as they are, and the sign is kept. *)
Definition Round (x : float64) : float64 :=
  match x with
  | S754_finite s m e =>
      if 0 <=? e then x
      else
        match (Z.pos m + 2 ^ (- e - 1)) / 2 ^ (- e) with
        | Z.pos q => binary_round prec emax s q 0
        | _ => S754_zero s
        end
  | _ => x
  end.

End F64.

Abbreviation float64 := spec_float.

(** ** Package [strings]

    The functions of Go's [strings] package that the report calls, on byte
    strings. [strings.ToLower] maps every Unicode upper-case letter to its
    lower case; its tables are not reproduced: the report is stated for an
    arbitrary lowering function, and [ascii_ToLower], which agrees with
    [strings.ToLower] on ASCII text, serves where a concrete one is run. *)

Module GoStrings.

(** [strings.Contains s substr]: [substr] occurs in [s]. *)
Fixpoint Contains (s substr : string) : bool :=
  if String.prefix substr s then true
  else
    match s with
    | EmptyString => false
    | String _ s' => Contains s' substr
    end.

(** [strings.Repeat s count] for a count that is not negative. *)
Fixpoint Repeat (s : string) (count : nat) : string :=
  match count with
  | O => EmptyString
  | S n => s +:+ Repeat s n
  end.

(** [strings.Split s sep] for a separator [sep] of one byte: the pieces of
    [s] between the separators, at least one. *)
Fixpoint Split (s : string) (sep : ascii) : list string :=
  match s with
  | EmptyString => [EmptyString]
  | String c s' =>
      if Ascii.eqb c sep then EmptyString :: Split s' sep
      else
        match Split s' sep with
        | piece :: pieces => String c piece :: pieces
        | [] => [String c EmptyString]
        end
  end.

(** [strings.Join elems sep]. *)
Fixpoint Join (elems : list string) (sep : string) : string :=
  match elems with
  | [] => EmptyString
  | [e] => e
  | e :: rest => e +:+ sep +:+ Join rest sep
  end.

(** [strings.SplitN s sep 2] for a separator of one byte: [s] cut at the
    first separator, or [s] alone when it has none. *)
Fixpoint SplitN2 (s : string) (sep : ascii) : list string :=
  match s with
  | EmptyString => [EmptyString]
  | String c s' =>
      if Ascii.eqb c sep then [EmptyString; s']
      else
        match SplitN2 s' sep with
        | [before; after] => [String c before; after]
        | _ => [s]
        end
  end.

Definition ascii_lower (c : ascii) : ascii :=
  let n := nat_of_ascii c in
  if ((65 <=? n) && (n <=? 90))%nat then ascii_of_nat (n + 32) else c.

Fixpoint ascii_ToLower (s : string) : string :=
  match s with
  | EmptyString => EmptyString
  | String c s' => String (ascii_lower c) (ascii_ToLower s')
  end.

End GoStrings.

(** ** Package [fmt]: [Sprintf] *)

(** An operand of a [Printf], a [Sprintf] or a [Translate]. *)
Inductive Value :=
| VString (s : string)
| VInt (n : Z)
| VFloat (f : float64).

Module GoFmt.

(** [%d] of an [int]. *)
Definition itoa (n : Z) : string := NilZero.string_of_int (Z.to_int n).

(** [num / den] rounded to the nearest integer, ties to even. *)
Definition div_nearest_even (num den : Z) : Z :=
  let q := num / den in
  match 2 * (num mod den) ?= den with
  | Lt => q
  | Gt => q + 1
  | Eq => if Z.even q then q else q + 1
  end.

(** The magnitude [m * 2^e] in hundredths, correctly rounded. *)
Definition hundredths (m : positive) (e : Z) : Z :=
  if 0 <=? e then Z.pos m * 2 ^ e * 100
  else div_nearest_even (Z.pos m * 100) (2 ^ (- e)).

Definition fixed2 (negative : bool) (h : Z) : string :=
  (if negative then "-" else EmptyString)
    +:+ itoa (h / 100) +:+ "."
    +:+ (if h mod 100 <? 10 then "0" else EmptyString) +:+ itoa (h mod 100).

(** [%.2f] of a [float64]. *)
Definition format_2f (x : float64) : string :=
  match x with
  | S754_zero s => fixed2 s 0
  | S754_infinity s => if s then "-Inf" else "+Inf"
  | S754_nan => "NaN"
  | S754_finite s m e => fixed2 s (hundredths m e)
  end.

(** [fmt.Sprintf] for the verbs this package formats strings with: [%%],
    [%d] of an [int], [%s] of a [string] and [%.2f] of a [float64]. Any
    other text is copied. A verb whose operand is missing or of another
    type, which no call of this package has, renders as the marker
    [%!verb(BADARG)] (Go prints the operand's type and value there). *)
Fixpoint Sprintf (format : string) (args : list Value) : string :=
  match format with
  | EmptyString => EmptyString
  | String "%" (String "%" rest) => String "%" (Sprintf rest args)
  | String "%" (String "d" rest) =>
      match args with
      | VInt n :: args' => itoa n +:+ Sprintf rest args'
      | _ => "%!d(BADARG)" +:+ Sprintf rest (tail args)
      end
  | String "%" (String "s" rest) =>
      match args with
      | VString s :: args' => s +:+ Sprintf rest args'
      | _ => "%!s(BADARG)" +:+ Sprintf rest (tail args)
      end
  | String "%" (String "." (String "2" (String "f" rest))) =>
      match args with
      | VFloat x :: args' => format_2f x +:+ Sprintf rest args'
      | _ => "%!f(BADARG)" +:+ Sprintf rest (tail args)
      end
  | String c rest => String c (Sprintf rest args)
  end.

End GoFmt.

Example Sprintf_examples :
  GoFmt.Sprintf "  %%s %%-%ds" [VInt 12] = "  %s %-12s"
  /\ GoFmt.Sprintf "score.comment.%d" [VInt 90] = "score.comment.90"
  /\ GoFmt.Sprintf "%s%d" [VString "x: "; VInt 0] = "x: 0"
  /\ GoFmt.Sprintf "%.2f%s" [VFloat (F64.div (F64.of_int 1) (F64.of_int 8)); VString "pt"] = "0.12pt"
  /\ GoFmt.Sprintf "%.2f" [VFloat (F64.div (F64.of_int (-2999)) (F64.of_int 1000))] = "-3.00"
  /\ GoFmt.Sprintf "%.2f" [VFloat (F64.of_int 27)] = "27.00".
Proof. vm_compute. repeat split. Qed.

Example strings_examples :
  GoStrings.Contains "cyclomatic complexity" "complexity" = true
  /\ GoStrings.Contains "abc" EmptyString = true
  /\ GoStrings.Contains "nam" "name" = false
  /\ GoStrings.Split "a/b//c" "/" = ["a"; "b"; EmptyString; "c"]
  /\ GoStrings.Split EmptyString "/" = [EmptyString]
  /\ GoStrings.Join ["x"; "y"; "z"] "/" = "x/y/z"
  /\ GoStrings.SplitN2 "a: b: c" ":" = ["a"; " b: c"]
  /\ GoStrings.SplitN2 "abc" ":" = ["abc"]
  /\ GoStrings.ascii_ToLower "Naming: BAD" = "naming: bad".
Proof. vm_compute. repeat split. Qed.

(** ** Colours, print events and the data the report reads *)

(** [nl] is the line feed that Go writes [\n]. *)
Definition nl : string := String (ascii_of_nat 10) EmptyString.

(** The attributes of [github.com/fatih/color] that the package uses. *)
Inductive Attribute :=
| Bold
| FgRed | FgGreen | FgYellow | FgBlue | FgMagenta | FgCyan
| FgHiRed | FgHiGreen | FgHiYellow | FgHiMagenta | FgHiCyan | FgHiWhite.

#[global] Instance Attribute_eq_dec : EqDecision Attribute.
Proof. solve_decision. Defined.

(** A [*color.Color] is known by the attributes it was made with. *)
Definition Color : Type := list Attribute.
Definition color_New (attrs : list Attribute) : Color := attrs.

Definition titleStyle : Color := color_New [FgHiYellow; Bold].
Definition scoreStyle : Color := color_New [FgHiCyan; Bold].
Definition goodStyle : Color := color_New [FgHiGreen].
Definition warningStyle : Color := color_New [FgHiYellow].
Definition dangerStyle : Color := color_New [FgHiRed].
Definition headerStyle : Color := color_New [FgMagenta; Bold].
Definition sectionStyle : Color := color_New [FgHiMagenta; Bold].
Definition infoStyle : Color := color_New [FgBlue].
Definition successStyle : Color := color_New [FgGreen; Bold].
Definition detailStyle : Color := color_New [FgCyan].
Definition metricStyle : Color := color_New [FgCyan].
Definition fileStyle : Color := color_New [FgMagenta].
Definition levelStyle : Color := color_New [FgCyan].
Definition numberStyle : Color := color_New [FgHiWhite].

(** One call that writes to the console: [c.Printf(format, args...)] or
    [c.Println(args...)] on a colour [c], or the plain [fmt.Printf] and
    [fmt.Println] ([None]). *)
Inductive Event :=
| EvPrintf (style : option Color) (format : string) (args : list Value)
| EvPrintln (style : option Color) (args : list Value).

(** Modelled from the spec: the types of package [analyzer], which the
    report imports and whose declarations are not among the sources
    (spec section 3: MetricResult, FileAnalysisResult, AnalysisResult).
    [Issues] is kept as the sequence of its strings, which no code of the
    report assigns to; [FilesAnalyzed] is a slice into the store. *)
Record MetricResult := {
  Name : string;
  Weight : float64;
  Score : float64;
  Description : string;
}.

Record FileAnalysisResult := {
  FilePath : string;
  FileScore : float64;
  Issues : list string;
}.

(** A slice value: its backing array ([None] for the nil slice), the
    index in it of the slice's first element, its length and capacity. *)
Record Slice := {
  s_array : option positive;
  s_off : nat;
  s_len : nat;
  s_cap : nat;
}.

Record AnalysisResult := {
  TotalFiles : Z;
  TotalLines : Z;
  Metrics : gmap string MetricResult;
  FilesAnalyzed : Slice;
  CodeQualityScore : float64;
}.

(** Modelled from the spec: the interface [i18n.Translator] of package
    [i18n], not among the sources; the report calls its two methods
    [Translate(key, args...)] and [GetLanguage()]. *)
Class Translator (Language : Type) := {
  Translate : string -> list Value -> string;
  GetLanguage : Language;
}.

(** ** [QualityLevels], [ReportOptions] *)

Record QualityLevel := {
  MinScore : float64;
  NameKey : string;
  LevelDescription : string;
  Emoji : string;
}.

(** [QualityLevels[0]] and the whole table, a package variable that no code
    of the package assigns. *)
Definition QualityLevels_0 : QualityLevel :=
  {| MinScore := F64.of_int 0; NameKey := "level.clean"; LevelDescription := "level.clean.description"; Emoji := "🌱" |}.

Definition QualityLevels : list QualityLevel :=
  QualityLevels_0 :: [
  {| MinScore := F64.of_int 10; NameKey := "level.mild"; LevelDescription := "level.mild.description"; Emoji := "🌸" |};
  {| MinScore := F64.of_int 20; NameKey := "level.moderate"; LevelDescription := "level.moderate.description"; Emoji := "😐" |};
  {| MinScore := F64.of_int 30; NameKey := "level.bad"; LevelDescription := "level.bad.description"; Emoji := "😷" |};
  {| MinScore := F64.of_int 40; NameKey := "level.terrible"; LevelDescription := "level.terrible.description"; Emoji := "💩" |};
  {| MinScore := F64.of_int 50; NameKey := "level.disaster"; LevelDescription := "level.disaster.description"; Emoji := "🤕" |};
  {| MinScore := F64.of_int 60; NameKey := "level.disaster.severe"; LevelDescription := "level.disaster.severe.description"; Emoji := "☣️" |};
  {| MinScore := F64.of_int 70; NameKey := "level.disaster.very_bad"; LevelDescription := "level.disaster.very_bad.description"; Emoji := "🧟" |};
  {| MinScore := F64.of_int 80; NameKey := "level.disaster.extreme"; LevelDescription := "level.disaster.extreme.description"; Emoji := "☢️" |};
  {| MinScore := F64.of_int 90; NameKey := "level.disaster.worst"; LevelDescription := "level.disaster.worst.description"; Emoji := "🪦" |};
  {| MinScore := F64.of_int 100; NameKey := "level.disaster.ultimate"; LevelDescription := "level.disaster.ultimate.description"; Emoji := "👑💩" |}
].

Record ReportOptions := {
  Verbose : bool;
  TopFiles : Z;
  MaxIssues : Z;
  SummaryOnly : bool;
}.

Definition DefaultReportOptions : ReportOptions :=
  {| Verbose := false; TopFiles := 3; MaxIssues := 3; SummaryOnly := false |}.

(** ** The functions of the report that read no store *)

(** [min] of two [int]s. *)
Definition min (a b : Z) : Z := if a <? b then a else b.

(** [getQualityLevel]: the loop [for i := len(QualityLevels) - 1; i >= 0; i--]
    with [n] the number of indices still to visit, from [n - 1] down (every
    index read is below [len(QualityLevels)]). *)
Fixpoint getQualityLevel_loop (score : float64) (n : nat) (level : QualityLevel) : QualityLevel :=
  match n with
  | O => level
  | S i =>
      match QualityLevels !! i with
      | Some q => if F64.ge score (MinScore q) then q else getQualityLevel_loop score i level
      | None => level
      end
  end.

Definition getQualityLevel (score : float64) : QualityLevel :=
  let level := QualityLevels_0 in
  getQualityLevel_loop score (length QualityLevels) level.

(** [getScoreColor]. *)
Definition getScoreColor (score : float64) : Color :=
  if F64.gt score F64.lit_0_7 then dangerStyle
  else if F64.gt score F64.lit_0_3 then warningStyle
  else goodStyle.

(** [shortenPath]. *)
Definition shortenPath (path : string) : string :=
  let parts := GoStrings.Split path "/" in
  if GoInt.len parts <=? 4 then path
  else "./" +:+ GoStrings.Join (drop (Z.to_nat (GoInt.len parts - 3)) parts) "/".

(** The map literal [categoryInfo], written out identically in
    [printTopIssues] and in [printAllFiles], and [categoryOrder]. *)
Record CategoryInfo := {
  InfoColor : Color;
  Icon : string;
}.

Definition categoryInfo : gmap string CategoryInfo :=
  list_to_map [
    ("complexity", {| InfoColor := color_New [FgMagenta]; Icon := "🔄 " |});
    ("comment", {| InfoColor := color_New [FgBlue]; Icon := "📝 " |});
    ("naming", {| InfoColor := color_New [FgCyan]; Icon := "🏷️  " |});
    ("structure", {| InfoColor := color_New [FgYellow]; Icon := "🏗️  " |});
    ("duplication", {| InfoColor := color_New [FgRed]; Icon := "📋 " |});
    ("error", {| InfoColor := color_New [FgHiRed]; Icon := "❌ " |});
    ("other", {| InfoColor := color_New [FgHiYellow]; Icon := "⚠️  " |})
  ].

Definition categoryOrder : list string :=
  ["complexity"; "comment"; "naming"; "structure"; "duplication"; "error"; "other"].

(** ** What the language leaves to the runtime and the libraries

    - [strings.ToLower] (see [GoStrings]);
    - the result of [int(x)] for an [x] that [int] cannot represent;
    - [sort.Slice]: "The sort is not guaranteed to be stable"; it permutes
      the slice, and it sorts it when [less] is a strict weak ordering of
      its elements (which [<] on [float64] is not once a NaN is among
      them);
    - the order in which a [range] visits a map, which may differ from one
      loop to the next: [map_range n] is the order of the [n]-th [range]
      over a map that the program runs. *)

Definition strict_weak_order_on {A} (less : A -> A -> bool) (l : list A) : Prop :=
  (forall x, x ∈ l -> less x x = false)
  /\ (forall x y z, x ∈ l -> y ∈ l -> z ∈ l ->
        less x y = true -> less y z = true -> less x z = true)
  /\ (forall x y z, x ∈ l -> y ∈ l -> z ∈ l ->
        less x y = false -> less y x = false ->
        less y z = false -> less z y = false ->
        less x z = false /\ less z x = false).

Class GoEnv := {
  ToLower : string -> string;
  int_unrepresentable : float64 -> Z;
  sort_Slice : forall A : Type, (A -> A -> bool) -> list A -> list A;
  sort_Slice_perm : forall A less l, sort_Slice A less l ≡ₚ l;
  sort_Slice_sorted : forall A less l,
    strict_weak_order_on less l ->
    Sorted (fun a b => less b a = false) (sort_Slice A less l);
  map_range : nat -> forall V : Type, gmap string V -> list (string * V);
  map_range_perm : forall n V m, map_range n V m ≡ₚ map_to_list m;
}.

Arguments sort_Slice {_ _} less l.
Arguments map_range {_} n {_} m.

(** *** A runtime to run the model with

    The insertion sort that [sort.Slice] itself uses for slices of at most
    twelve elements: each element in turn is swapped leftwards while it is
    less than its left neighbour. *)

Section InsertionSort.
Context {A : Type} (less : A -> A -> bool).

(** [before] is the part already sorted, its last element first. *)
Fixpoint sift (x : A) (before : list A) : list A :=
  match before with
  | y :: before' => if less x y then y :: sift x before' else x :: before
  | [] => [x]
  end.

Definition insertion_sort (l : list A) : list A :=
  reverse (foldl (fun before x => sift x before) [] l).

Lemma sift_perm x before : sift x before ≡ₚ x :: before.
Proof.
  induction before as [|y before IH]; simpl; [done|].
  destruct (less x y); [|done].
  rewrite IH. apply Permutation_swap.
Qed.

Lemma sift_elem_of x before z : z ∈ sift x before <-> z = x \/ z ∈ before.
Proof. rewrite sift_perm. apply elem_of_cons. Qed.

Lemma insertion_sort_perm l : insertion_sort l ≡ₚ l.
Proof.
  unfold insertion_sort. rewrite reverse_Permutation.
  assert (G : forall acc, foldl (fun before x => sift x before) acc l ≡ₚ l ++ acc).
  { induction l as [|x l IH]; intros acc; simpl; [done|].
    rewrite IH, sift_perm. by rewrite Permutation_middle. }
  rewrite G. by rewrite app_nil_r.
Qed.

Lemma sift_sorted x before :
  (forall y, y ∈ before -> less x y = true -> less y x = false) ->
  Sorted (fun a b => less a b = false) before ->
  Sorted (fun a b => less a b = false) (sift x before).
Proof.
  intros Hasym Hs. induction Hs as [|y before Hs IH Hd]; simpl.
  - repeat constructor.
  - destruct (less x y) eqn:Hxy.
    + constructor.
      * apply IH. intros z Hz. apply Hasym. by right.
      * destruct Hd as [|y' before' Hd]; simpl.
        -- constructor. apply Hasym; [by left | done].
        -- destruct (less x y'); constructor; [done|].
           apply Hasym; [by left | done].
    + constructor; [by constructor | by constructor].
Qed.

Lemma insertion_sort_sorted l :
  strict_weak_order_on less l ->
  Sorted (fun a b => less b a = false) (insertion_sort l).
Proof.
  intros (Hirr & Htr & _). unfold insertion_sort.
  assert (Hasym : forall x y, x ∈ l -> y ∈ l -> less x y = true -> less y x = false).
  { intros x y Hx Hy Hxy. destruct (less y x) eqn:Hyx; [|done].
    rewrite <- (Hirr x Hx). symmetry. by apply (Htr x y x). }
  assert (G : forall acc,
    (forall z, z ∈ acc -> z ∈ l) ->
    Sorted (fun a b => less a b = false) acc ->
    forall l', (forall z, z ∈ l' -> z ∈ l) ->
    Sorted (fun a b => less a b = false) (foldl (fun before x => sift x before) acc l')).
  { intros acc Hacc Hs l'. revert acc Hacc Hs.
    induction l' as [|x l' IH]; intros acc Hacc Hs Hl'; simpl; [done|].
    apply IH.
    - intros z Hz. apply sift_elem_of in Hz as [->|Hz]; [apply Hl'; by left | by apply Hacc].
    - apply sift_sorted; [|done].
      intros y Hy. apply Hasym; [apply Hl'; by left | by apply Hacc].
    - intros z Hz. apply Hl'. by right. }
  specialize (G [] (fun z Hz => False_rect _ (not_elem_of_nil z Hz)) (Sorted_nil _) l (fun z Hz => Hz)).
  apply (Sorted_reverse _ _ G).
Qed.

End InsertionSort.

(** The reference runtime: ASCII lowering, the least [int] for a value that
    [int] cannot hold (as amd64 gives), insertion sort, and every map
    visited in the order of its keys. *)
Definition reference_env : GoEnv := {|
  ToLower := GoStrings.ascii_ToLower;
  int_unrepresentable := fun _ => GoInt.min_int;
  sort_Slice := @insertion_sort;
  sort_Slice_perm := @insertion_sort_perm;
  sort_Slice_sorted := @insertion_sort_sorted;
  map_range := fun _ V m => map_to_list m;
  map_range_perm := fun _ V m => reflexivity (map_to_list m);
|}.

(** ** The methods of [Report] that read no store *)

Section Pure.
Context `{env : GoEnv}.
Context {Language : Type} `{!EqDecision Language} (EnUS : Language).
Context `{translator : !Translator Language}.

(** [getScoreComment]. *)
Definition getScoreComment (score : float64) : string :=
  let score := F64.mul score (F64.of_int 100) in
  let scoreRange := GoInt.mul (GoInt.quot (F64.to_int int_unrepresentable score) 10) 10 in
  let scoreRange := if scoreRange >? 90 then 90 else scoreRange in
  let commentKey := GoFmt.Sprintf "score.comment.%d" [VInt scoreRange] in
  Translate commentKey [].

(** [getMetricComment]. *)
Definition getMetricComment (metricName : string) (score : float64) : string :=
  let level :=
    if F64.lt score (F64.of_int 30) then "good"
    else if F64.lt score (F64.of_int 70) then "medium"
    else "bad" in
  let nameKey := ToLower metricName in
  if decide (GetLanguage = EnUS) then
    if GoStrings.Contains nameKey "complexity" then
      Translate ("metric.complexity." +:+ level) []
    else if GoStrings.Contains nameKey "function" || GoStrings.Contains nameKey "length" then
      Translate ("metric.length." +:+ level) []
    else if GoStrings.Contains nameKey "comment" then
      Translate ("metric.comment." +:+ level) []
    else if GoStrings.Contains nameKey "error" then
      Translate ("metric.error." +:+ level) []
    else if GoStrings.Contains nameKey "naming" then
      Translate ("metric.naming." +:+ level) []
    else if GoStrings.Contains nameKey "duplication" then
      Translate ("metric.duplication." +:+ level) []
    else if GoStrings.Contains nameKey "structure" then
      Translate ("metric.structure." +:+ level) []
    else if F64.lt score (F64.of_int 30) then "Like a spring breeze, code kissed by angels"
    else if F64.lt score (F64.of_int 70) then "Not bad, not great, perfectly balanced"
    else "Needs serious improvement, like yesterday"
  else
    if GoStrings.Contains nameKey "复杂度" then
      Translate ("metric.complexity." +:+ level) []
    else if GoStrings.Contains nameKey "长度" then
      Translate ("metric.length." +:+ level) []
    else if GoStrings.Contains nameKey "注释" then
      Translate ("metric.comment." +:+ level) []
    else if GoStrings.Contains nameKey "错误" then
      Translate ("metric.error." +:+ level) []
    else if GoStrings.Contains nameKey "命名" then
      Translate ("metric.naming." +:+ level) []
    else if GoStrings.Contains nameKey "重复" then
      Translate ("metric.duplication." +:+ level) []
    else if GoStrings.Contains nameKey "结构" then
      Translate ("metric.structure." +:+ level) []
    else if F64.lt score (F64.of_int 30) then "如沐春风，代码仿佛被天使亲吻过"
    else if F64.lt score (F64.of_int 70) then "不咸不淡，刚刚好，就像人生的平凡日子"
    else "惨不忍睹，建议重写，或者假装没看见".

(** [categories[category]++] on a [map[string]int]: a key that is absent
    reads as zero. *)
Definition increment (category : string) (categories : gmap string Z) : gmap string Z :=
  <[category := GoInt.add (default 0 (categories !! category)) 1]> categories.

(** [categorizeIssues]. The closing loop deletes, while it ranges over the
    map, every entry whose count is zero: whatever the order of the visit,
    what is left is the entries with another count. *)
Definition categorizeIssues (issues : list string) : gmap string Z :=
  let categories : gmap string Z :=
    list_to_map [
      ("complexity", 0); ("comment", 0); ("naming", 0); ("structure", 0);
      ("duplication", 0); ("error", 0); ("other", 0)
    ] in
  let categories :=
    foldl (fun categories issue =>
      let lowerIssue := ToLower issue in
      if GoStrings.Contains lowerIssue "复杂度" || GoStrings.Contains lowerIssue "complexity" then
        increment "complexity" categories
      else if GoStrings.Contains lowerIssue "注释" || GoStrings.Contains lowerIssue "comment" then
        increment "comment" categories
      else if GoStrings.Contains lowerIssue "命名" || GoStrings.Contains lowerIssue "name"
              || GoStrings.Contains lowerIssue "naming" then
        increment "naming" categories
      else if GoStrings.Contains lowerIssue "结构" || GoStrings.Contains lowerIssue "嵌套"
              || GoStrings.Contains lowerIssue "structure" || GoStrings.Contains lowerIssue "nest" then
        increment "structure" categories
      else if GoStrings.Contains lowerIssue "重复" || GoStrings.Contains lowerIssue "duplication" then
        increment "duplication" categories
      else if GoStrings.Contains lowerIssue "错误" || GoStrings.Contains lowerIssue "error" then
        increment "error" categories
      else
        increment "other" categories)
    categories issues in
  filter (fun entry => entry.2 <> 0) categories.

(** [getIssueIconAndColor]. *)
Definition getIssueIconAndColor (issue : string) : string * Color :=
  let lowerIssue := ToLower issue in
  if GoStrings.Contains lowerIssue "复杂度" || GoStrings.Contains lowerIssue "complexity" then
    ("🔄 ", color_New [FgMagenta])
  else if GoStrings.Contains lowerIssue "注释" || GoStrings.Contains lowerIssue "comment" then
    ("📝 ", color_New [FgBlue])
  else if GoStrings.Contains lowerIssue "命名" || GoStrings.Contains lowerIssue "name"
          || GoStrings.Contains lowerIssue "naming" then
    ("🏷️  ", color_New [FgCyan])
  else if GoStrings.Contains lowerIssue "结构" || GoStrings.Contains lowerIssue "嵌套"
          || GoStrings.Contains lowerIssue "structure" || GoStrings.Contains lowerIssue "nest" then
    ("🏗️  ", color_New [FgYellow])
  else if GoStrings.Contains lowerIssue "重复" || GoStrings.Contains lowerIssue "duplication" then
    ("📋 ", color_New [FgRed])
  else if GoStrings.Contains lowerIssue "错误" || GoStrings.Contains lowerIssue "error" then
    ("❌ ", color_New [FgHiRed])
  else
    ("⚠️  ", color_New [FgHiYellow]).

End Pure.

(** ** The store

    Backing arrays are kept by address. A slice reads and writes the part
    of its array that it covers, so two slices over one array see each
    other's writes, and a fresh array shares with none. *)

Section Heap.
Context {A : Type}.

Definition slice_elems (h : gmap positive (list A)) (s : Slice) : option (list A) :=
  match s_array s with
  | None => if (s_len s =? 0)%nat then Some [] else None
  | Some l =>
      a ← h !! l;
      if (s_off s + s_len s <=? length a)%nat
      then Some (take (s_len s) (drop (s_off s) a))
      else None
  end.

(** The elements of the slice overwritten, in place, by [xs] (as many). *)
Definition slice_store (h : gmap positive (list A)) (s : Slice) (xs : list A)
  : option (gmap positive (list A)) :=
  match s_array s with
  | None => if (s_len s =? 0)%nat then Some h else None
  | Some l =>
      a ← h !! l;
      if (s_off s + s_len s <=? length a)%nat
      then Some (<[l := take (s_off s) a ++ xs ++ drop (s_off s + s_len s) a]> h)
      else None
  end.

(** A composite literal [[]T{x1, ..., xn}]: a new array. *)
Definition slice_literal (h : gmap positive (list A)) (xs : list A)
  : Slice * gmap positive (list A) :=
  let l := fresh (dom h) in
  ({| s_array := Some l; s_off := 0; s_len := length xs; s_cap := length xs |},
   <[l := xs]> h).

(** The nil slice, the zero value of a slice variable. *)
Definition nil_slice : Slice :=
  {| s_array := None; s_off := 0; s_len := 0; s_cap := 0 |}.

(** [append(dst, xs...)]: when the capacity of [dst] has room for [xs]
    they are written into its array, behind its elements; otherwise a new
    array receives the elements of [dst] and [xs]. (How much spare capacity
    a new array gets is the runtime's choice and nothing here depends on
    it: it gets none.) *)
Definition slice_append (h : gmap positive (list A)) (dst : Slice) (xs : list A)
  : option (Slice * gmap positive (list A)) :=
  let n := (s_len dst + length xs)%nat in
  if (n <=? s_cap dst)%nat then
    match s_array dst with
    | Some l =>
        a ← h !! l;
        if (s_off dst + n <=? length a)%nat
        then Some ({| s_array := Some l; s_off := s_off dst; s_len := n; s_cap := s_cap dst |},
                   <[l := take (s_off dst + s_len dst) a ++ xs ++ drop (s_off dst + n) a]> h)
        else None
    | None => Some (dst, h)
    end
  else
    old ← slice_elems h dst;
    let l := fresh (dom h) in
    Some ({| s_array := Some l; s_off := 0; s_len := n; s_cap := n |},
          <[l := old ++ xs]> h).

End Heap.

(** The state of a run: the [AnalysisResult] behind [r.result], the arrays
    of [[]analyzer.FileAnalysisResult] and of [[]analyzer.MetricResult],
    what has been printed, and how many [range] loops over maps have
    started. *)
Record State := {
  st_result : AnalysisResult;
  st_files : gmap positive (list FileAnalysisResult);
  st_metrics : gmap positive (list MetricResult);
  st_out : list Event;
  st_ranges : nat;
}.

Definition set_files (h : gmap positive (list FileAnalysisResult)) (st : State) : State :=
  {| st_result := st_result st; st_files := h; st_metrics := st_metrics st;
     st_out := st_out st; st_ranges := st_ranges st |}.

Definition set_metrics (h : gmap positive (list MetricResult)) (st : State) : State :=
  {| st_result := st_result st; st_files := st_files st; st_metrics := h;
     st_out := st_out st; st_ranges := st_ranges st |}.

Definition add_out (e : Event) (st : State) : State :=
  {| st_result := st_result st; st_files := st_files st; st_metrics := st_metrics st;
     st_out := st_out st ++ [e]; st_ranges := st_ranges st |}.

Definition tick_range (st : State) : State :=
  {| st_result := st_result st; st_files := st_files st; st_metrics := st_metrics st;
     st_out := st_out st; st_ranges := S (st_ranges st) |}.

(** A computation on the state that returns a value or panics ([None]). *)
Definition M (B : Type) : Type := State -> option (B * State).

#[global] Instance M_ret : MRet M := fun B (b : B) st => Some (b, st).
#[global] Instance M_bind : MBind M := fun B C (k : B -> M C) (m : M B) st =>
  match m st with
  | Some (b, st') => k b st'
  | None => None
  end.

Definition panic {B} : M B := fun _ => None.

Definition get_result : M AnalysisResult := fun st => Some (st_result st, st).

Definition of_option {B} (o : option B) : M B :=
  match o with
  | Some b => mret b
  | None => panic
  end.

(** Reading memory. *)
Definition files_of (s : Slice) : M (list FileAnalysisResult) :=
  fun st => b ← slice_elems (st_files st) s; Some (b, st).
Definition metrics_of (s : Slice) : M (list MetricResult) :=
  fun st => b ← slice_elems (st_metrics st) s; Some (b, st).

(** [l[i]]; an index out of range panics. *)
Definition index {B} (l : list B) (i : Z) : M B :=
  if (0 <=? i) && (i <? GoInt.len l) then of_option (l !! Z.to_nat i) else panic.

(** Writing to the console. *)
Definition Printf (style : option Color) (format : string) (args : list Value) : M unit :=
  fun st => Some (tt, add_out (EvPrintf style format args) st).
Definition Println (style : option Color) (args : list Value) : M unit :=
  fun st => Some (tt, add_out (EvPrintln style args) st).

(** [for _, x := range l { body }], [for i, x := range l { body }] and
    [for i := 0; i < n; i++ { body }]. *)
Fixpoint for_each {B} (l : list B) (body : B -> M unit) : M unit :=
  match l with
  | [] => mret tt
  | x :: l' => body x ;; for_each l' body
  end.

Definition for_each_indexed {B} (l : list B) (body : Z -> B -> M unit) : M unit :=
  for_each (zip (seqZ 0 (GoInt.len l)) l) (fun ix => body ix.1 ix.2).

Definition for_upto (n : Z) (body : Z -> M unit) : M unit :=
  for_each (seqZ 0 n) body.

Definition Len {B} (l : list B) : Z := GoInt.len l.
Definition StrLen (s : string) : Z := Z.of_nat (String.length s).
Definition SliceLen (s : Slice) : Z := Z.of_nat (s_len s).
Definition MapLen {V} (m : gmap string V) : Z := Z.of_nat (size m).

(** A [range] over a map: the runtime's order for this loop. *)
Definition range_map `{env : GoEnv} {V} (m : gmap string V) : M (list (string * V)) :=
  fun st => Some (map_range (st_ranges st) m, tick_range st).

(** A [range] whose body may [break]: the body returns whether it did. *)
Fixpoint for_each_break {B} (l : list B) (body : B -> M bool) : M unit :=
  match l with
  | [] => mret tt
  | x :: l' => stop ← body x; if stop : bool then mret tt else for_each_break l' body
  end.

(** [append], [sort.Slice] and the slice expression [s[:n]] on the two
    kinds of arrays. *)
Definition append_metrics (dst : Slice) (xs : list MetricResult) : M Slice :=
  fun st => r ← slice_append (st_metrics st) dst xs; Some (r.1, set_metrics r.2 st).

Definition append_files (dst : Slice) (xs : list FileAnalysisResult) : M Slice :=
  fun st => r ← slice_append (st_files st) dst xs; Some (r.1, set_files r.2 st).

Definition files_literal (xs : list FileAnalysisResult) : M Slice :=
  fun st => let r := slice_literal (st_files st) xs in Some (r.1, set_files r.2 st).

Definition sort_metrics `{env : GoEnv} (s : Slice) (less : MetricResult -> MetricResult -> bool) : M unit :=
  fun st =>
    xs ← slice_elems (st_metrics st) s;
    h ← slice_store (st_metrics st) s (sort_Slice less xs);
    Some (tt, set_metrics h st).

Definition sort_files `{env : GoEnv} (s : Slice) (less : FileAnalysisResult -> FileAnalysisResult -> bool) : M unit :=
  fun st =>
    xs ← slice_elems (st_files st) s;
    h ← slice_store (st_files st) s (sort_Slice less xs);
    Some (tt, set_files h st).

Definition slice_to (s : Slice) (n : Z) : M Slice :=
  if (0 <=? n) && (n <=? Z.of_nat (s_cap s))
  then mret {| s_array := s_array s; s_off := s_off s; s_len := Z.to_nat n; s_cap := s_cap s |}
  else panic.

(** The expression [math.Round(x*10000) / 100] that the report prints
    scores with. *)
Definition percentage (x : float64) : float64 :=
  F64.div (F64.Round (F64.mul x (F64.of_int 10000))) (F64.of_int 100).

(** ** The methods of [Report] that read the store or print *)

Section Report.
Context `{env : GoEnv}.
Context {Language : Type} `{!EqDecision Language} (EnUS : Language).
Context `{translator : !Translator Language}.

(** [printDivider]. *)
Definition printDivider : M unit :=
  Printf None (nl +:+ "%s" +:+ nl) [VString (GoStrings.Repeat "─" 80)].

(** [getSortedMetrics]. *)
Definition getSortedMetrics : M Slice :=
  result ← get_result;
  entries ← range_map (Metrics result);
  metrics ← foldl (fun acc entry => metrics ← acc; append_metrics metrics [entry.2])
                  (mret nil_slice) entries;
  sort_metrics metrics (fun mi mj => F64.lt (Score mi) (Score mj));;
  mret metrics.

(** [getSortedFiles]. *)
Definition getSortedFiles : M Slice :=
  result ← get_result;
  empty ← files_literal [];
  analyzed ← files_of (FilesAnalyzed result);
  worstFiles ← append_files empty analyzed;
  sort_files worstFiles (fun fi fj => F64.gt (FileScore fi) (FileScore fj));;
  mret worstFiles.

(** [getTotalIssues]. *)
Definition getTotalIssues : M Z :=
  result ← get_result;
  analyzed ← files_of (FilesAnalyzed result);
  mret (foldl (fun total file => GoInt.add total (Len (Issues file))) 0 analyzed).

(** [printScoreComment]. *)
Definition printScoreComment (score : float64) : M unit :=
  let comment := getScoreComment score in
  if F64.lt score (F64.of_int 30) then Printf (Some goodStyle) "%s" [VString comment]
  else if F64.lt score (F64.of_int 70) then Printf (Some warningStyle) "%s" [VString comment]
  else Printf (Some dangerStyle) "%s" [VString comment].

(** [printMetricItems]. *)
Definition printMetricItems : M unit :=
  Printf (Some sectionStyle) (nl +:+ "◆ %s" +:+ nl +:+ nl) [VString (Translate "report.metrics_details" [])];;
  metrics ← getSortedMetrics;
  ms ← metrics_of metrics;
  let maxNameLen :=
    foldl (fun maxNameLen m => if StrLen (Name m) >? maxNameLen then StrLen (Name m) else maxNameLen)
          0 ms in
  let nameFormat := GoFmt.Sprintf "  %%s %%-%ds" [VInt (GoInt.add maxNameLen 2)] in
  let scoreFormat := "%-8s" in
  let totals :=
    foldl (fun totals m =>
             (F64.add totals.1 (Weight m), F64.add totals.2 (F64.mul (Score m) (Weight m))))
          (F64.zero, F64.zero) ms in
  let totalWeight := totals.1 in
  let weightedScore := totals.2 in
  for_each ms (fun m =>
    let scorePercentage := percentage (Score m) in
    let status :=
      if F64.lt scorePercentage (F64.of_int 30) then ("✓", goodStyle)
      else if F64.lt scorePercentage (F64.of_int 70) then ("!", warningStyle)
      else ("✗", dangerStyle) in
    let statusEmoji := status.1 in
    let statusColor := status.2 in
    let scoreStr :=
      GoFmt.Sprintf "%.2f%s" [VFloat scorePercentage; VString (Translate "metric.score.suffix" [])] in
    Printf (Some statusColor) nameFormat [VString statusEmoji; VString (Name m)];;
    Printf (Some metricStyle) scoreFormat [VString scoreStr];;
    Printf (Some detailStyle) ("  %s" +:+ nl) [VString (getMetricComment EnUS (Name m) scorePercentage)]);;
  Println None [];;
  if F64.gt totalWeight (F64.of_int 0) then
    Printf (Some infoStyle) "  %s" [VString (Translate "report.score_calc" [])];;
    Printf (Some infoStyle) "(" [];;
    for_each_indexed ms (fun i m =>
      (if 0 <? i then Printf (Some infoStyle) " + " [] else mret tt);;
      let scorePercentage := percentage (Score m) in
      Printf (Some infoStyle) "%.2f×%.2f" [VFloat scorePercentage; VFloat (Weight m)]);;
    let overallScore := percentage (F64.div weightedScore totalWeight) in
    Printf (Some infoStyle) (") ÷ %.2f = %.2f" +:+ nl +:+ nl) [VFloat totalWeight; VFloat overallScore]
  else mret tt.

(** The block that [printTopIssues] and [printAllFiles] both contain, word
    for word: the line of counts per category. *)
Definition printCategoryStats (issuesByCategory : gmap string Z) : M unit :=
  if MapLen issuesByCategory >? 0 then
    let categories :=
      foldl (fun categories category =>
               match issuesByCategory !! category with
               | Some count =>
                   let info := default {| InfoColor := []; Icon := EmptyString |}
                                       (categoryInfo !! category) in
                   let categoryStr :=
                     Icon info +:+ Translate ("issue.category." +:+ category) [] +:+ ": " in
                   categories ++ [GoFmt.Sprintf "%s%d" [VString categoryStr; VInt count]]
               | None => categories
               end)
            [] categoryOrder in
    let categoriesPerLine := if Len categories <=? 2 then Len categories else 3 in
    let indent := "     " in
    for_each_indexed categories (fun i category =>
      (if 0 <? i then
         if GoInt.divisor_ok categoriesPerLine then
           if GoInt.rem i categoriesPerLine =? 0 then Printf None (nl +:+ "%s") [VString indent]
           else Printf None "   " []
         else panic
       else Printf None "%s" [VString indent]);;
      let parts := GoStrings.SplitN2 category ":" in
      if Len parts =? 2 then
        infos ← range_map categoryInfo;
        for_each_break infos (fun entry =>
          let catName := entry.1 in
          let info := entry.2 in
          let catKey := "issue.category." +:+ catName in
          let catTrans := Translate catKey [] in
          parts0 ← index parts 0;
          if GoStrings.Contains parts0 catTrans then
            Printf (Some (InfoColor info)) "%s:" [VString parts0];;
            parts1 ← index parts 1;
            Printf (Some numberStyle) "%s" [VString parts1];;
            mret true
          else mret false)
      else Printf None "%s" [VString category]);;
    Println None []
  else mret tt.

(** [printTopIssues]. *)
Definition printTopIssues (options : ReportOptions) : M unit :=
  Printf (Some sectionStyle) (nl +:+ "◆ %s" +:+ nl +:+ nl) [VString (Translate "report.worst_files" [])];;
  allFiles ← getSortedFiles;
  if SliceLen allFiles =? 0 then
    Println (Some successStyle) [VString ("  🎉 " +:+ Translate "report.no_issues" [])]
  else
    files ← files_of allFiles;
    let maxPathLen :=
      foldl (fun maxPathLen file =>
               let pathLen := StrLen (shortenPath (FilePath file)) in
               if pathLen >? maxPathLen then pathLen else maxPathLen)
            0 files in
    let maxPathLen := min maxPathLen 60 in
    let maxFiles := min (TopFiles options) (SliceLen allFiles) in
    for_upto maxFiles (fun i =>
      elems ← files_of allFiles;
      f ← index elems i;
      let fileScoreColor := getScoreColor (FileScore f) in
      Printf None "  " [];;
      Printf (Some numberStyle) "%d. " [VInt (GoInt.add i 1)];;
      Printf (Some fileStyle) "%-*s" [VInt (GoInt.add maxPathLen 2); VString (shortenPath (FilePath f))];;
      Printf (Some fileScoreColor) ("(%s)" +:+ nl)
             [VString (Translate "report.file_score" [VFloat (percentage (FileScore f))])];;
      let issuesByCategory := categorizeIssues (Issues f) in
      printCategoryStats issuesByCategory;;
      Println None [];;
      let indent := "     " in
      (if Len (Issues f) =? 0 then
         Printf (Some successStyle) ("%s✓ %s" +:+ nl)
                [VString indent; VString (Translate "verbose.file_good_quality" [])]
       else
         let maxIssues := min (MaxIssues options) (Len (Issues f)) in
         for_upto maxIssues (fun j =>
           issue ← index (Issues f) j;
           let iconAndColor := getIssueIconAndColor issue in
           let issueIcon := iconAndColor.1 in
           let issueColor := iconAndColor.2 in
           Printf None "%s" [VString indent];;
           Printf (Some issueColor) ("%s%s" +:+ nl) [VString issueIcon; VString issue]);;
         if negb (Verbose options) && (Len (Issues f) >? maxIssues) then
           Printf (Some warningStyle) ("%s🔍 %s" +:+ nl)
                  [VString indent;
                   VString (Translate "report.more_issues"
                                      [VInt (GoInt.sub (Len (Issues f)) maxIssues)])]
         else mret tt);;
      if i <? GoInt.sub maxFiles 1 then Println None [] else mret tt).

(** [printAllFiles]. *)
Definition printAllFiles (options : ReportOptions) : M unit :=
  Printf (Some sectionStyle) (nl +:+ "◆ %s" +:+ nl +:+ nl) [VString (Translate "verbose.all_files" [])];;
  files ← getSortedFiles;
  if SliceLen files =? 0 then
    Println (Some successStyle) [VString ("  " +:+ Translate "verbose.no_files_found" [])]
  else
    elems ← files_of files;
    let maxPathLen :=
      foldl (fun maxPathLen file =>
               let pathLen := StrLen (shortenPath (FilePath file)) in
               if pathLen >? maxPathLen then pathLen else maxPathLen)
            0 elems in
    let maxPathLen := min maxPathLen 60 in
    let maxFilesToShow := SliceLen files in
    let maxFilesToShow :=
      if negb (Verbose options) && (TopFiles options >? 0) && (TopFiles options <? maxFilesToShow)
      then TopFiles options else maxFilesToShow in
    shown ← slice_to files maxFilesToShow;
    shownElems ← files_of shown;
    for_each_indexed shownElems (fun i f =>
      let fileScoreColor := getScoreColor (FileScore f) in
      Printf None "  " [];;
      Printf (Some numberStyle) "%d. " [VInt (GoInt.add i 1)];;
      Printf (Some fileStyle) "%-*s" [VInt (GoInt.add maxPathLen 2); VString (shortenPath (FilePath f))];;
      Printf (Some fileScoreColor) ("(%s)" +:+ nl)
             [VString (Translate "report.file_score" [VFloat (percentage (FileScore f))])];;
      let issuesByCategory := categorizeIssues (Issues f) in
      printCategoryStats issuesByCategory;;
      Println None [];;
      let indent := "     " in
      (if Len (Issues f) =? 0 then
         Printf (Some successStyle) ("%s✓ %s" +:+ nl)
                [VString indent; VString (Translate "verbose.file_good_quality" [])]
       else
         let maxIssues := Len (Issues f) in
         let maxIssues := if negb (Verbose options) then min (MaxIssues options) maxIssues else maxIssues in
         for_upto maxIssues (fun j =>
           issue ← index (Issues f) j;
           let iconAndColor := getIssueIconAndColor issue in
           let issueIcon := iconAndColor.1 in
           let issueColor := iconAndColor.2 in
           Printf None "%s" [VString indent];;
           Printf (Some issueColor) ("%s%s" +:+ nl) [VString issueIcon; VString issue]);;
         if negb (Verbose options) && (Len (Issues f) >? maxIssues) then
           Printf (Some warningStyle) ("%s🔍 %s" +:+ nl)
                  [VString indent;
                   VString (Translate "report.more_issues"
                                      [VInt (GoInt.sub (Len (Issues f)) maxIssues)])]
         else mret tt);;
      if i <? GoInt.sub maxFilesToShow 1 then Println None [] else mret tt).

(** [printSummary]. *)
Definition printSummary (level : QualityLevel) : M unit :=
  Printf (Some sectionStyle) (nl +:+ "◆ %s" +:+ nl +:+ nl) [VString (Translate "report.conclusion" [])];;
  Printf None "  %s " [VString (Emoji level)];;
  Printf (Some levelStyle) "%s" [VString (Translate (NameKey level) [])];;
  Printf (Some detailStyle) (" - %s" +:+ nl +:+ nl) [VString (Translate (LevelDescription level) [])];;
  (if F64.lt (MinScore level) (F64.of_int 30) then
     Println (Some successStyle) [VString ("  " +:+ Translate "advice.good" [])]
   else if F64.lt (MinScore level) (F64.of_int 60) then
     Println (Some warningStyle) [VString ("  " +:+ Translate "advice.moderate" [])]
   else
     Println (Some dangerStyle) [VString ("  " +:+ Translate "advice.bad" [])]);;
  Println None [].

(** [printVerboseInfo]. *)
Definition printVerboseInfo : M unit :=
  Printf (Some sectionStyle) (nl +:+ "◆ %s" +:+ nl +:+ nl) [VString (Translate "verbose.basic_statistics" [])];;
  Println (Some headerStyle) [VString ("  📊 " +:+ Translate "verbose.basic_statistics" [])];;
  result ← get_result;
  Printf (Some detailStyle) ("    %-15s %d" +:+ nl) [VString (Translate "verbose.total_files" []); VInt (TotalFiles result)];;
  Printf (Some detailStyle) ("    %-15s %d" +:+ nl) [VString (Translate "verbose.total_lines" []); VInt (TotalLines result)];;
  totalIssues ← getTotalIssues;
  Printf (Some detailStyle) ("    %-15s %d" +:+ nl) [VString (Translate "verbose.total_issues" []); VInt totalIssues];;
  Println (Some headerStyle) [VString ((nl +:+ "  🔍 ") +:+ Translate "verbose.metric_details" [])];;
  metrics ← getSortedMetrics;
  ms ← metrics_of metrics;
  let maxNameLen :=
    foldl (fun maxNameLen metric =>
             if StrLen (Name metric) >? maxNameLen then StrLen (Name metric) else maxNameLen)
          0 ms in
  let nameFormat := GoFmt.Sprintf (nl +:+ "    【%%-%ds】") [VInt maxNameLen] in
  for_each ms (fun metric =>
    let scoreColor := getScoreColor (Score metric) in
    Printf (Some metricStyle) nameFormat [VString (Name metric)];;
    Printf (Some infoStyle) ("(%s %.2f)" +:+ nl) [VString (Translate "verbose.weight" []); VFloat (Weight metric)];;
    Printf (Some detailStyle) ("      %s %s" +:+ nl) [VString (Translate "verbose.description" []); VString (Description metric)];;
    Printf None "      %s " [VString (Translate "verbose.score" [])];;
    Printf (Some scoreColor) ("%.2f/100" +:+ nl) [VFloat (percentage (Score metric))]).

(** [GenerateConsoleReport]; [options] is [None] for a nil pointer. *)
Definition GenerateConsoleReport (options : option ReportOptions) : M unit :=
  let options := default DefaultReportOptions options in
  result ← get_result;
  let score := CodeQualityScore result in
  let level := getQualityLevel score in
  printDivider;;
  Printf (Some titleStyle) (nl +:+ "  %s %s %s" +:+ nl)
         [VString (Emoji level); VString (Translate "report.title" []); VString (Emoji level)];;
  printDivider;;
  Printf None nl [];;
  Printf (Some scoreStyle) "  %s" [VString (Translate "report.overall_score" [VFloat (percentage score)])];;
  Printf None " - " [];;
  printScoreComment score;;
  Printf None nl [];;
  Printf (Some detailStyle) "  %s" [VString (Translate "report.level" [VString (Translate (NameKey level) [])])];;
  Printf (Some detailStyle) (" - %s" +:+ nl +:+ nl) [VString (Translate (LevelDescription level) [])];;
  (if negb (SummaryOnly options) then
     printMetricItems;;
     if Verbose options then printAllFiles options else printTopIssues options
   else mret tt);;
  printSummary level;;
  (if Verbose options then printVerboseInfo else mret tt);;
  printDivider;;
  Println None [].

End Report.

(** * Properties *)

(** ** The order of [float64]

    [SFcompare] orders the values that are not NaN as the triples
    [(class, exponent, mantissa)] compare lexicographically, the triples of
    negative values mirrored. The comparisons of the report are read off
    that order. *)

Module F64Order.

Definition key (x : float64) : Z * Z * Z :=
  match x with
  | S754_zero _ => (0, 0, 0)
  | S754_infinity s => (if s then -2 else 2, 0, 0)
  | S754_nan => (0, 0, 0)
  | S754_finite s m e => if s then (-1, - e, Z.neg m) else (1, e, Z.pos m)
  end.

Definition key_compare (a b : Z * Z * Z) : comparison :=
  match a.1.1 ?= b.1.1 with
  | Eq => match a.1.2 ?= b.1.2 with
          | Eq => a.2 ?= b.2
          | c => c
          end
  | c => c
  end.

Definition key_lt (a b : Z * Z * Z) : Prop :=
  a.1.1 < b.1.1 \/ (a.1.1 = b.1.1 /\ (a.1.2 < b.1.2 \/ (a.1.2 = b.1.2 /\ a.2 < b.2))).

Definition key_le (a b : Z * Z * Z) : Prop :=
  a.1.1 < b.1.1 \/ (a.1.1 = b.1.1 /\ (a.1.2 < b.1.2 \/ (a.1.2 = b.1.2 /\ a.2 <= b.2))).

Lemma SFcompare_key x y :
  F64.is_nan x = false -> F64.is_nan y = false ->
  SFcompare x y = Some (key_compare (key x) (key y)).
Proof.
  destruct x as [sx|sx| |sx mx ex], y as [sy|sy| |sy my ey]; try discriminate;
    intros _ _; try (destruct sx; try destruct sy; reflexivity).
  destruct sx, sy; unfold SFcompare, key, key_compare; cbn [fst snd]; try reflexivity.
  rewrite Z.compare_opp. change (Z.neg mx ?= Z.neg my) with (CompOpp (mx ?= my)%positive).
  rewrite (Z.compare_antisym ex ey). unfold Pos.compare.
  destruct (ex ?= ey); reflexivity.
Qed.

Lemma key_compare_Lt a b : key_compare a b = Lt <-> key_lt a b.
Proof.
  unfold key_compare, key_lt.
  destruct (Z.compare_spec a.1.1 b.1.1), (Z.compare_spec a.1.2 b.1.2), (Z.compare_spec a.2 b.2);
    split; intros; try discriminate; try reflexivity; lia.
Qed.

Lemma key_compare_Le a b : key_compare a b <> Gt <-> key_le a b.
Proof.
  unfold key_compare, key_le.
  destruct (Z.compare_spec a.1.1 b.1.1), (Z.compare_spec a.1.2 b.1.2), (Z.compare_spec a.2 b.2);
    split; intros; try discriminate; try congruence; lia.
Qed.

Lemma lt_key x y :
  F64.is_nan x = false -> F64.is_nan y = false ->
  F64.lt x y = true <-> key_lt (key x) (key y).
Proof.
  intros Hx Hy. unfold F64.lt, SFltb. rewrite (SFcompare_key x y Hx Hy).
  rewrite <- key_compare_Lt. destruct (key_compare (key x) (key y)); split; congruence.
Qed.

Lemma le_key x y :
  F64.is_nan x = false -> F64.is_nan y = false ->
  F64.le x y = true <-> key_le (key x) (key y).
Proof.
  intros Hx Hy. unfold F64.le, SFleb. rewrite (SFcompare_key x y Hx Hy).
  rewrite <- key_compare_Le. destruct (key_compare (key x) (key y)); split; congruence.
Qed.

(** A comparison that holds has no NaN operand. *)
Lemma le_not_nan x y : F64.le x y = true -> F64.is_nan x = false /\ F64.is_nan y = false.
Proof. destruct x as [| | |], y as [| | |]; (discriminate || by split). Qed.

Lemma lt_not_nan x y : F64.lt x y = true -> F64.is_nan x = false /\ F64.is_nan y = false.
Proof. destruct x as [| | |], y as [| | |]; (discriminate || by split). Qed.

Lemma le_trans x y z : F64.le x y = true -> F64.le y z = true -> F64.le x z = true.
Proof.
  intros Hxy Hyz.
  destruct (le_not_nan _ _ Hxy) as [Hx Hy], (le_not_nan _ _ Hyz) as [_ Hz].
  rewrite le_key in * by done. unfold key_le in *. lia.
Qed.

Lemma le_lt_trans x y z : F64.le x y = true -> F64.lt y z = true -> F64.lt x z = true.
Proof.
  intros Hxy Hyz.
  destruct (le_not_nan _ _ Hxy) as [Hx Hy], (lt_not_nan _ _ Hyz) as [_ Hz].
  rewrite le_key in Hxy by done. rewrite lt_key in * by done.
  unfold key_le, key_lt in *. lia.
Qed.

Lemma lt_trans x y z : F64.lt x y = true -> F64.lt y z = true -> F64.lt x z = true.
Proof.
  intros Hxy Hyz.
  destruct (lt_not_nan _ _ Hxy) as [Hx Hy], (lt_not_nan _ _ Hyz) as [_ Hz].
  rewrite lt_key in * by done. unfold key_lt in *. lia.
Qed.

Lemma lt_irrefl x : F64.lt x x = false.
Proof.
  destruct (F64.lt x x) eqn:H; [|done].
  destruct (lt_not_nan _ _ H) as [Hx _].
  rewrite lt_key in H by done. unfold key_lt in H. lia.
Qed.

(** Without NaN the order is total: [y < x] fails exactly when [x <= y]. *)
Lemma lt_false_le x y :
  F64.is_nan x = false -> F64.is_nan y = false ->
  F64.lt y x = false <-> F64.le x y = true.
Proof.
  intros Hx Hy. rewrite le_key by done.
  destruct (F64.lt y x) eqn:H.
  - rewrite lt_key in H by done. unfold key_lt, key_le in *. split; [done | lia].
  - split; [intros _ | done].
    assert (Hn : ~ key_lt (key y) (key x)) by (rewrite <- lt_key by done; congruence).
    unfold key_lt, key_le in *. lia.
Qed.

Lemma lt_le_false x y : F64.lt x y = true -> F64.le y x = false.
Proof.
  intros H. destruct (lt_not_nan _ _ H) as [Hx Hy].
  destruct (F64.le y x) eqn:Hle; [|done].
  rewrite lt_key in H by done. rewrite le_key in Hle by done.
  unfold key_lt, key_le in *. lia.
Qed.

End F64Order.

(** ** Scores of the data model

    "every Score ∈ [0,1]": what Go writes [0 <= s && s <= 1]. *)

Definition in_unit_interval (s : float64) : bool :=
  F64.le (F64.of_int 0) s && F64.le s (F64.of_int 1).

Lemma in_unit_interval_le s :
  in_unit_interval s = true ->
  F64.le (F64.of_int 0) s = true /\ F64.le s (F64.of_int 1) = true.
Proof. unfold in_unit_interval. by rewrite andb_true_iff. Qed.

(** A score of the data model is below every constant above 1. *)
Lemma unit_lt_const s k :
  in_unit_interval s = true -> F64.lt (F64.of_int 1) k = true -> F64.lt s k = true.
Proof.
  intros Hs Hk. apply in_unit_interval_le in Hs as [_ Hs].
  by apply (F64Order.le_lt_trans s (F64.of_int 1) k).
Qed.

Lemma unit_ge_const s k :
  in_unit_interval s = true -> F64.lt (F64.of_int 1) k = true -> F64.ge s k = false.
Proof.
  intros Hs Hk. unfold F64.ge. change (F64.le k s = false).
  apply F64Order.lt_le_false. by apply unit_lt_const.
Qed.

(** ** [getQualityLevel] *)

(** Every entry of the table but the first has a [MinScore] above 1. *)
Lemma QualityLevels_tail_above_one :
  Forall (fun q => F64.lt (F64.of_int 1) (MinScore q) = true) (tail QualityLevels).
Proof. repeat constructor. Qed.

Lemma getQualityLevel_loop_unit s n level :
  in_unit_interval s = true ->
  (n <= length QualityLevels)%nat ->
  getQualityLevel_loop s n level = match n with O => level | S _ => QualityLevels_0 end.
Proof.
  intros Hs. induction n as [|i IH]; intros Hn; [done|].
  cbn [getQualityLevel_loop].
  destruct (QualityLevels !! i) as [q|] eqn:Hq.
  2:{ apply lookup_ge_None in Hq. lia. }
  destruct i as [|i].
  - injection Hq as <-.
    apply in_unit_interval_le in Hs as [Hs _].
    change (F64.ge s (MinScore QualityLevels_0)) with (F64.le (F64.of_int 0) s).
    by rewrite Hs.
  - assert (Hq' : tail QualityLevels !! i = Some q) by exact Hq.
    pose proof (Forall_lookup_1 _ _ _ _ QualityLevels_tail_above_one Hq') as Hk.
    cbv beta in Hk. rewrite (unit_ge_const s _ Hs Hk).
    rewrite IH by lia. reflexivity.
Qed.

(** For a score of the data model [getQualityLevel] returns the first entry
    of the table, whatever the score: it compares the score itself, which
    is at most 1, with bounds that count in points out of 100. *)
Lemma getQualityLevel_unit s :
  in_unit_interval s = true -> getQualityLevel s = QualityLevels_0.
Proof.
  intros Hs. unfold getQualityLevel.
  by rewrite (getQualityLevel_loop_unit s _ _ Hs).
Qed.

(** The entry of the table whose band contains a percentage [p], in the
    words of the specification: the entry with the greatest [MinScore]
    among those whose [MinScore] is at most [p]. *)
Definition band_of_percentage (p : float64) : option QualityLevel :=
  foldl (fun best q =>
           if F64.le (MinScore q) p then
             match best with
             | Some b => if F64.lt (MinScore b) (MinScore q) then Some q else best
             | None => Some q
             end
           else best)
        None QualityLevels.

(** The score one half, which the report displays as 50.00. *)
Definition score_half : float64 := F64.div (F64.of_int 1) (F64.of_int 2).

(** C1 (the code departs from the claim). At the score 0.5, a valid score of
    the data model displayed as 50 points, the band that contains the
    displayed percentage is [level.disaster] (MinScore 50), and
    [getQualityLevel], which compares the raw 0.5 with the bounds, returns
    [level.clean] (MinScore 0). *)
Theorem getQualityLevel_half_is_clean :
  F64.valid score_half = true
  /\ in_unit_interval score_half = true
  /\ percentage score_half = F64.of_int 50
  /\ NameKey <$> band_of_percentage (F64.mul score_half (F64.of_int 100)) = Some "level.disaster"
  /\ NameKey (getQualityLevel score_half) = "level.clean".
Proof. vm_compute. repeat split. Qed.

Section ScoreComment.
Context `{env : GoEnv}.
Context {Language : Type} `{translator : !Translator Language}.

(** ** [printScoreComment] *)

(** C2. For every score of the data model, [printScoreComment] compares
    the score as it is with 30 and 70, so the first branch is taken: the
    comment is printed in [goodStyle], and in no other style, however bad
    the score. *)
Theorem printScoreComment_unit_is_good (score : float64) (st : State) :
  in_unit_interval score = true ->
  F64.lt score (F64.of_int 30) = true
  /\ printScoreComment score st
     = Some (tt, add_out (EvPrintf (Some goodStyle) "%s" [VString (getScoreComment score)]) st)
  /\ goodStyle <> warningStyle /\ goodStyle <> dangerStyle.
Proof.
  intros Hs.
  assert (Hlt : F64.lt score (F64.of_int 30) = true) by (by apply unit_lt_const).
  split; [done|]. split; [|by split].
  unfold printScoreComment. by rewrite Hlt.
Qed.

End ScoreComment.

(** ** Rounding: the product of a score and 100

    [getScoreComment] converts the rounded product [score * 100] to [int].
    The facts about [SFmul]'s rounding that this needs are proved from the
    definition of [binary_round_aux]: shifting the mantissa right divides
    it, rounding adds at most one unit, and the exponent stays small. *)

Module F64Round.

Lemma digits2_pos_bounds (m : positive) :
  2 ^ (Z.pos (digits2_pos m) - 1) <= Z.pos m < 2 ^ Z.pos (digits2_pos m).
Proof.
  induction m as [m IH|m IH|]; cbn [digits2_pos].
  - rewrite Pos2Z.inj_succ. replace (Z.succ (Z.pos (digits2_pos m)) - 1) with (Z.succ (Z.pos (digits2_pos m) - 1)) by lia.
    rewrite !Z.pow_succ_r by lia. lia.
  - rewrite Pos2Z.inj_succ. replace (Z.succ (Z.pos (digits2_pos m)) - 1) with (Z.succ (Z.pos (digits2_pos m) - 1)) by lia.
    rewrite !Z.pow_succ_r by lia. lia.
  - simpl. lia.
Qed.

Lemma Zdigits2_le (m k : Z) : 0 <= m < 2 ^ k -> 0 <= k -> 0 <= Zdigits2 m <= k.
Proof.
  intros [Hm Hlt] Hk. destruct m as [|p|p]; [simpl; lia| |lia].
  cbn [Zdigits2]. pose proof (digits2_pos_bounds p) as [Hlo _].
  split; [lia|].
  destruct (Z_lt_le_dec k (Z.pos (digits2_pos p))) as [Hgt|]; [|lia].
  assert (2 ^ k <= 2 ^ (Z.pos (digits2_pos p) - 1)) by (apply Z.pow_le_mono_r; lia).
  lia.
Qed.

Lemma shr_1_m r : 0 <= shr_m r -> shr_m (shr_1 r) = shr_m r / 2.
Proof.
  destruct r as [m rr ss]. cbn [shr_m]. intros Hm.
  destruct m as [|[p|p|]|p]; cbn [shr_1 shr_m]; try reflexivity; try lia.
  - apply Z.div_unique with 1; lia.
  - apply Z.div_unique with 0; lia.
Qed.

Lemma iter_shr_1_m p : forall r, 0 <= shr_m r ->
  shr_m (SpecFloat.iter_pos shr_1 p r) = shr_m r / 2 ^ Z.pos p.
Proof.
  assert (Hnn : forall r, 0 <= shr_m r -> 0 <= shr_m (shr_1 r)).
  { intros r Hr. rewrite shr_1_m by done. apply Z.div_pos; lia. }
  induction p as [p IH|p IH|]; intros r Hr; cbn [SpecFloat.iter_pos].
  - assert (H1 : 0 <= shr_m (SpecFloat.iter_pos shr_1 p (shr_1 r))).
    { rewrite IH by auto. apply Z.div_pos; [auto | lia]. }
    rewrite IH by done. rewrite IH by auto. rewrite shr_1_m by done.
    rewrite !Z.div_div by lia. f_equal.
    replace (Z.pos p~1) with (1 + Z.pos p + Z.pos p) by lia.
    rewrite !Z.pow_add_r by lia. change (2 ^ 1) with 2. ring.
  - assert (H1 : 0 <= shr_m (SpecFloat.iter_pos shr_1 p r)).
    { rewrite IH by auto. apply Z.div_pos; [auto | lia]. }
    rewrite IH by done. rewrite IH by auto.
    rewrite !Z.div_div by lia. f_equal.
    replace (Z.pos p~0) with (Z.pos p + Z.pos p) by lia.
    rewrite !Z.pow_add_r by lia. ring.
  - rewrite shr_1_m by done. reflexivity.
Qed.

Lemma shr_fexp_spec m e l :
  0 <= m ->
  let k := Z.max 0 (fexp F64.prec F64.emax (Zdigits2 m + e) - e) in
  shr_m (shr_fexp F64.prec F64.emax m e l).1 = m / 2 ^ k
  /\ (shr_fexp F64.prec F64.emax m e l).2 = e + k.
Proof.
  intros Hm k. unfold shr_fexp, shr. fold (Z.add (Zdigits2 m) e).
  assert (Hr : shr_m (shr_record_of_loc m l) = m) by (destruct l as [|[]]; reflexivity).
  subst k. destruct (fexp F64.prec F64.emax (Zdigits2 m + e) - e) as [|p|p] eqn:Hn; cbn [fst snd].
  - rewrite Hr. change (Z.max 0 0) with 0. rewrite Z.div_1_r. lia.
  - rewrite iter_shr_1_m by lia. rewrite Hr. replace (Z.max 0 (Z.pos p)) with (Z.pos p) by lia. done.
  - rewrite Hr. replace (Z.max 0 (Z.neg p)) with 0 by lia. rewrite Z.div_1_r. lia.
Qed.

Lemma round_nearest_even_bounds m l :
  m <= round_nearest_even m l <= m + 1.
Proof. unfold round_nearest_even. destruct l as [|[]]; try destruct (Z.even m); lia. Qed.

Lemma fexp_eq x : fexp F64.prec F64.emax x = Z.max (x - 53) (-1074).
Proof. reflexivity. Qed.

Lemma pow2_split a b : 0 <= a -> 0 <= b -> 2 ^ (a + b) = 2 ^ a * 2 ^ b.
Proof. intros. by rewrite Z.pow_add_r. Qed.

(** What [binary_round_aux] returns for a magnitude [M * 2^E] of at most
    [B], a small bound: zero or a finite value whose integer part is at
    most [B]. *)
Lemma binary_round_aux_small sx M E l B :
  0 <= M -> E <= -60 -> 1 <= B < 127 -> M <= B * 2 ^ (- E) ->
  let r := binary_round_aux F64.prec F64.emax sx M E l in
  r = S754_zero sx
  \/ exists m e, r = S754_finite sx m e /\ e < 0 /\ Z.pos m / 2 ^ (- e) <= B.
Proof.
  intros HM HE HB Hle r. subst r. unfold binary_round_aux.
  pose proof (shr_fexp_spec M E l HM) as [Hm1 He1]. cbv zeta in Hm1, He1.
  destruct (shr_fexp F64.prec F64.emax M E l) as [r1 e1]. cbn [fst snd] in Hm1, He1.
  set (k1 := Z.max 0 (fexp F64.prec F64.emax (Zdigits2 M + E) - E)) in *.
  assert (Hpow : 0 < 2 ^ (- E)) by (apply Z.pow_pos_nonneg; lia).
  assert (HdM : 0 <= Zdigits2 M <= 7 - E).
  { apply Zdigits2_le; [|lia]. split; [done|].
    replace (7 - E) with (7 + - E) by lia.
    rewrite (pow2_split 7 (- E)) by lia. change (2 ^ 7) with 128. nia. }
  assert (Hk1 : 0 <= k1) by (subst k1; lia).
  assert (He1b : -1074 <= e1 <= -46).
  { subst e1 k1. rewrite fexp_eq. lia. }
  assert (Hp1 : 0 < 2 ^ (- e1)) by (apply Z.pow_pos_nonneg; lia).
  assert (Hpk1 : 0 < 2 ^ k1) by (apply Z.pow_pos_nonneg; lia).
  assert (Hm1b : 0 <= shr_m r1 <= B * 2 ^ (- e1)).
  { rewrite Hm1. split; [apply Z.div_pos; lia|].
    apply Z.div_le_upper_bound; [lia|].
    replace (2 ^ k1 * (B * 2 ^ (- e1))) with (B * 2 ^ (- E)); [done|].
    replace (- E) with (k1 + - e1) by lia. rewrite pow2_split by lia. ring. }
  set (m1' := round_nearest_even (shr_m r1) (loc_of_shr_record r1)).
  pose proof (round_nearest_even_bounds (shr_m r1) (loc_of_shr_record r1)) as Hr. fold m1' in Hr.
  assert (Hm1' : 0 <= m1') by lia.
  pose proof (shr_fexp_spec m1' e1 loc_Exact Hm1') as [Hm2 He2]. cbv zeta in Hm2, He2.
  destruct (shr_fexp F64.prec F64.emax m1' e1 loc_Exact) as [r2 e2]. cbn [fst snd] in Hm2, He2.
  set (k2 := Z.max 0 (fexp F64.prec F64.emax (Zdigits2 m1' + e1) - e1)) in *.
  assert (Hp46 : 2 ^ 46 <= 2 ^ (- e1)) by (apply Z.pow_le_mono_r; lia).
  assert (Hd1 : 0 <= Zdigits2 m1' <= 7 - e1).
  { apply Zdigits2_le; [|lia]. split; [done|].
    replace (7 - e1) with (7 + - e1) by lia.
    rewrite (pow2_split 7 (- e1)) by lia. change (2 ^ 7) with 128.
    change (2 ^ 46) with 70368744177664 in Hp46. nia. }
  assert (Hk2 : 0 <= k2) by (subst k2; lia).
  assert (He2b : e2 <= -46).
  { subst e2 k2. rewrite fexp_eq. lia. }
  assert (Hpk2 : 0 < 2 ^ k2) by (apply Z.pow_pos_nonneg; lia).
  assert (Hm2nn : 0 <= shr_m r2) by (rewrite Hm2; apply Z.div_pos; lia).
  destruct (shr_m r2) as [|m|m] eqn:Hr2; [by left | | lia].
  right. exists m, e2.
  assert (Hle2 : (e2 <=? F64.emax - F64.prec) = true) by (apply Z.leb_le; unfold F64.emax, F64.prec; lia).
  rewrite Hle2. split; [done|]. split; [lia|].
  rewrite Hm2. rewrite Z.div_div by (try apply Z.pow_pos_nonneg; lia).
  replace (2 ^ k2 * 2 ^ (- e2)) with (2 ^ (- e1)).
  2:{ replace (- e1) with (k2 + - e2) by lia. by rewrite pow2_split by lia. }
  apply Z.lt_succ_r. apply Z.div_lt_upper_bound; [lia|].
  change (2 ^ 46) with 70368744177664 in Hp46. nia.
Qed.

Lemma wrap_small z : GoInt.min_int <= z <= GoInt.max_int -> GoInt.wrap z = z.
Proof.
  unfold GoInt.wrap, GoInt.min_int, GoInt.max_int. intros H.
  rewrite Z.mod_small by lia. lia.
Qed.

(** The mantissa of a valid finite value has at most 53 bits. *)
Lemma valid_mantissa sx m e :
  F64.valid (S754_finite sx m e) = true -> Z.pos m < 2 ^ 53.
Proof.
  unfold F64.valid, valid_binary, bounded, canonical_mantissa.
  rewrite andb_true_iff, Z.eqb_eq, fexp_eq. intros [Hc _].
  pose proof (digits2_pos_bounds m) as [Hlo Hhi].
  assert (Hd : Z.pos (digits2_pos m) <= 53) by lia.
  assert (2 ^ Z.pos (digits2_pos m) <= 2 ^ 53) by (apply Z.pow_le_mono_r; lia).
  lia.
Qed.

(** A valid finite value that is at most 1: its magnitude [m * 2^e] has
    [e <= -52] and [m <= 2^(-e)]. *)
Lemma le_one_finite m e :
  F64.valid (S754_finite false m e) = true ->
  F64.le (S754_finite false m e) (F64.of_int 1) = true ->
  e <= -52 /\ Z.pos m <= 2 ^ (- e).
Proof.
  intros Hv H1. assert (Hm53 := valid_mantissa _ _ _ Hv).
  assert (Hone : F64.of_int 1 = S754_finite false 4503599627370496 (-52))
    by (vm_compute; reflexivity).
  rewrite Hone in H1. apply F64Order.le_key in H1; [|done|done].
  unfold F64Order.key_le, F64Order.key in H1. cbn [fst snd] in H1.
  assert (He : e < -52 \/ (e = -52 /\ Z.pos m <= 4503599627370496)) by lia.
  clear H1. destruct He as [He|[-> Hm]].
  - split; [lia|].
    assert (2 ^ 53 <= 2 ^ (- e)) by (apply Z.pow_le_mono_r; lia). lia.
  - split; [lia|]. exact Hm.
Qed.

Lemma mul_100_finite m e :
  e <= -52 -> Z.pos m <= 2 ^ (- e) ->
  let p := F64.mul (S754_finite false m e) (F64.of_int 100) in
  F64.is_finite p = true /\ 0 <= F64.trunc p <= 100 /\ F64.floor p = F64.trunc p.
Proof.
  intros He Hm p. subst p.
  assert (Hcent : F64.of_int 100 = S754_finite false 7036874417766400 (-46))
    by (vm_compute; reflexivity).
  rewrite Hcent. unfold F64.mul, SFmul. cbn [xorb].
  assert (Hp : 0 < 2 ^ (- e)) by (apply Z.pow_pos_nonneg; lia).
  assert (HM : Z.pos (m * 7036874417766400) <= 100 * 2 ^ (- (e + -46))).
  { replace (- (e + -46)) with (- e + 46) by lia. rewrite pow2_split by lia.
    change (2 ^ 46) with 70368744177664. rewrite Pos2Z.inj_mul. nia. }
  destruct (binary_round_aux_small false (Z.pos (m * 7036874417766400)) (e + -46)
              loc_Exact 100 ltac:(lia) ltac:(lia) ltac:(lia) HM)
    as [Hr|(m' & e' & Hr & He' & Hb)].
  - cbv zeta in Hr. rewrite Hr. vm_compute. repeat split; congruence.
  - cbv zeta in Hr. rewrite Hr. split; [done|].
    assert (Hneg : (0 <=? e') = false) by (apply Z.leb_gt; lia).
    unfold F64.trunc, F64.floor. rewrite Hneg. split; [|done].
    split; [|done]. apply Z.div_pos; [lia | apply Z.pow_pos_nonneg; lia].
Qed.

(** A valid score of the data model times 100, as [float64] computes it:
    a finite value whose integer part lies between 0 and 100. *)
Lemma mul_100_unit s :
  F64.valid s = true ->
  in_unit_interval s = true ->
  let p := F64.mul s (F64.of_int 100) in
  F64.is_finite p = true /\ 0 <= F64.trunc p <= 100 /\ F64.floor p = F64.trunc p.
Proof.
  intros Hv Hs.
  apply in_unit_interval_le in Hs as [H0 H1].
  destruct s as [sx|sx| |sx m e].
  - destruct sx; vm_compute; repeat split; congruence.
  - destruct sx; discriminate.
  - discriminate.
  - destruct sx; [discriminate|].
    destruct (le_one_finite m e Hv H1) as [He Hm].
    by apply mul_100_finite.
Qed.

End F64Round.

(** ** Fixtures: a translator, a language and a store to run the model on *)

Inductive DemoLanguage := DemoZhCN | DemoEnUS.

#[global] Instance DemoLanguage_eq_dec : EqDecision DemoLanguage.
Proof. solve_decision. Defined.

(** The translator that answers every key with the key itself. *)
Definition key_translator : Translator DemoLanguage :=
  {| Translate := fun key _ => key; GetLanguage := DemoEnUS |}.

Definition demo_float (n d : Z) : float64 := F64.div (F64.of_int n) (F64.of_int d).

Definition demo_metrics : gmap string MetricResult :=
  <["complexity" := {| Name := "Cyclomatic Complexity"; Weight := demo_float 3 10;
                       Score := demo_float 57 100; Description := "branching" |}]>
  (<["comment" := {| Name := "Comment Ratio"; Weight := demo_float 2 10;
                     Score := demo_float 12 100; Description := "comments" |}]> ∅).

Definition demo_file_a : FileAnalysisResult :=
  {| FilePath := "pkg/report/internal/deep/a.go"; FileScore := demo_float 1 4;
     Issues := ["Function run has complexity 12"; "bad naming: x"; "odd"] |}.

Definition demo_file_b : FileAnalysisResult :=
  {| FilePath := "b.go"; FileScore := demo_float 3 4; Issues := [] |}.

(** [FilesAnalyzed] covers the two middle elements of a four-element
    array. *)
Definition demo_state : State :=
  {| st_result :=
       {| TotalFiles := 2; TotalLines := 100; Metrics := demo_metrics;
          FilesAnalyzed := {| s_array := Some 1%positive; s_off := 1; s_len := 2; s_cap := 3 |};
          CodeQualityScore := score_half |};
     st_files := {[ 1%positive := [demo_file_b; demo_file_a; demo_file_b; demo_file_b] ]};
     st_metrics := ∅;
     st_out := [];
     st_ranges := 0 |}.

(** ** [getScoreComment] *)

Lemma append_empty_r (s : string) : s +:+ EmptyString = s.
Proof.
  induction s as [|c s IH]; [done|].
  change (String c (s +:+ EmptyString) = String c s). by rewrite IH.
Qed.

Lemma Sprintf_score_comment (n : Z) :
  GoFmt.Sprintf "score.comment.%d" [VInt n] = "score.comment." +:+ GoFmt.itoa n.
Proof.
  change (GoFmt.Sprintf "score.comment.%d" [VInt n])
    with ("score.comment." +:+ (GoFmt.itoa n +:+ EmptyString)).
  by rewrite append_empty_r.
Qed.

Section ScoreCommentKey.
Context `{env : GoEnv}.
Context {Language : Type} `{translator : !Translator Language}.

(** C10. For every valid score of the data model, [getScoreComment]
    multiplies the score by 100 (in [float64]) and returns the translation
    of the key [score.comment.R], where [R] is the least of 90 and the
    integer part of the product divided by ten, times ten; [R] is one of
    0, 10, ..., 90. *)
Theorem getScoreComment_key (score : float64) :
  F64.valid score = true ->
  in_unit_interval score = true ->
  let R := Z.min 90 (F64.floor (F64.mul score (F64.of_int 100)) / 10 * 10) in
  getScoreComment score = Translate ("score.comment." +:+ GoFmt.itoa R) []
  /\ R ∈ [0; 10; 20; 30; 40; 50; 60; 70; 80; 90].
Proof.
  intros Hv Hs R.
  destruct (F64Round.mul_100_unit score Hv Hs) as (Hfin & Hn & Hfloor).
  cbv zeta in Hfin, Hn, Hfloor.
  subst R. rewrite Hfloor.
  set (n := F64.trunc (F64.mul score (F64.of_int 100))) in *.
  assert (Hto : F64.to_int int_unrepresentable (F64.mul score (F64.of_int 100)) = n).
  { unfold F64.to_int. fold n. rewrite Hfin.
    assert (H1 : (GoInt.min_int <=? n) = true) by (apply Z.leb_le; unfold GoInt.min_int; lia).
    assert (H2 : (n <=? GoInt.max_int) = true) by (apply Z.leb_le; unfold GoInt.max_int; lia).
    by rewrite H1, H2. }
  assert (Hdiv : 0 <= n / 10 <= 10) by (Z.div_mod_to_equations; lia).
  assert (Hq : GoInt.mul (GoInt.quot n 10) 10 = n / 10 * 10).
  { unfold GoInt.mul, GoInt.quot. rewrite Z.quot_div_nonneg by lia.
    rewrite (F64Round.wrap_small (n / 10)) by (unfold GoInt.min_int, GoInt.max_int; lia).
    apply F64Round.wrap_small. unfold GoInt.min_int, GoInt.max_int. lia. }
  split.
  - unfold getScoreComment. rewrite Hto, Hq.
    assert (Hcap : (if n / 10 * 10 >? 90 then 90 else n / 10 * 10) = Z.min 90 (n / 10 * 10)).
    { destruct (Z.gtb_spec (n / 10 * 10) 90); lia. }
    rewrite Hcap. by rewrite Sprintf_score_comment.
  - clear Hq Hto. revert Hdiv. generalize (n / 10). intros q Hq.
    rewrite !elem_of_cons, elem_of_nil. lia.
Qed.

End ScoreCommentKey.

(** The score 0.29 (the nearest [float64]) falls in the range 20, and the
    score 0.3, whose product with 100 rounds to 30 exactly, in the range
    30. *)
Lemma getScoreComment_key_witness :
  F64.valid (demo_float 29 100) = true
  /\ in_unit_interval (demo_float 29 100) = true
  /\ @getScoreComment reference_env DemoLanguage key_translator (demo_float 29 100)
     = "score.comment.20".
Proof.
  split; [vm_compute; reflexivity|]. split; [vm_compute; reflexivity|].
  destruct (@getScoreComment_key reference_env DemoLanguage key_translator (demo_float 29 100))
    as [Hkey _]; [vm_compute; reflexivity | vm_compute; reflexivity |].
  rewrite Hkey. vm_compute. reflexivity.
Defined.

Lemma printScoreComment_unit_is_good_witness :
  in_unit_interval score_half = true
  /\ @printScoreComment reference_env DemoLanguage key_translator score_half demo_state
     = Some (tt, add_out (EvPrintf (Some goodStyle) "%s" [VString "score.comment.50"]) demo_state).
Proof.
  split; [vm_compute; reflexivity|].
  destruct (@printScoreComment_unit_is_good reference_env DemoLanguage key_translator
              score_half demo_state) as (_ & Hprint & _); [vm_compute; reflexivity|].
  rewrite Hprint. vm_compute. reflexivity.
Defined.

(** ** The two classifiers of issues *)

Section Classification.
Context `{env : GoEnv}.

(** The keywords of the classifiers, and the issues that contain none once
    lowered. *)
Definition keywords : list string :=
  ["复杂度"; "complexity"; "注释"; "comment"; "命名"; "name"; "naming";
   "结构"; "嵌套"; "structure"; "nest"; "重复"; "duplication"; "错误"; "error"].

Definition keyword_free (issue : string) : bool :=
  forallb (fun keyword => negb (GoStrings.Contains (ToLower issue) keyword)) keywords.

(** The category that the [switch] of [categorizeIssues] counts a lowered
    issue in. *)
Definition category_of (lowerIssue : string) : string :=
  if GoStrings.Contains lowerIssue "复杂度" || GoStrings.Contains lowerIssue "complexity" then
    "complexity"
  else if GoStrings.Contains lowerIssue "注释" || GoStrings.Contains lowerIssue "comment" then
    "comment"
  else if GoStrings.Contains lowerIssue "命名" || GoStrings.Contains lowerIssue "name"
          || GoStrings.Contains lowerIssue "naming" then
    "naming"
  else if GoStrings.Contains lowerIssue "结构" || GoStrings.Contains lowerIssue "嵌套"
          || GoStrings.Contains lowerIssue "structure" || GoStrings.Contains lowerIssue "nest" then
    "structure"
  else if GoStrings.Contains lowerIssue "重复" || GoStrings.Contains lowerIssue "duplication" then
    "duplication"
  else if GoStrings.Contains lowerIssue "错误" || GoStrings.Contains lowerIssue "error" then
    "error"
  else
    "other".

Definition classify (issue : string) : string := category_of (ToLower issue).

(** How many of [issues] fall in [category]. *)
Definition tally (category : string) (issues : list string) : Z :=
  Z.of_nat (length (List.filter (fun issue => String.eqb (classify issue) category) issues)).

(** The sum of the counts of a map. *)
Definition map_sum (m : gmap string Z) : Z := map_fold (fun _ count acc => count + acc) 0 m.

Definition no_categories : gmap string Z :=
  list_to_map [
    ("complexity", 0); ("comment", 0); ("naming", 0); ("structure", 0);
    ("duplication", 0); ("error", 0); ("other", 0)
  ].

Ltac case_conditions :=
  repeat match goal with
         | |- context [if ?c then _ else _] => destruct c eqn:?
         end.

Lemma category_of_in lowerIssue : category_of lowerIssue ∈ categoryOrder.
Proof. unfold category_of, categoryOrder. case_conditions; set_solver. Qed.

Lemma categorizeIssues_fold issues :
  categorizeIssues issues
  = filter (fun entry => entry.2 <> 0)
           (foldl (fun categories issue => increment (classify issue) categories)
                  no_categories issues).
Proof.
  unfold categorizeIssues. f_equal. fold no_categories.
  generalize no_categories. induction issues as [|issue issues IH]; intros m; [done|].
  cbn [foldl]. rewrite <- IH. f_equal.
  unfold classify, category_of. case_conditions; reflexivity.
Qed.

Lemma getIssueIconAndColor_info issue :
  exists info, categoryInfo !! classify issue = Some info
               /\ getIssueIconAndColor issue = (Icon info, InfoColor info).
Proof.
  unfold getIssueIconAndColor, classify, category_of.
  case_conditions; eexists; (split; [reflexivity | reflexivity]).
Qed.


Lemma increment_one category :
  category ∈ categoryOrder ->
  filter (fun entry : string * Z => entry.2 <> 0) (increment category no_categories)
  = {[category := 1]}.
Proof.
  unfold categoryOrder. rewrite !elem_of_cons, elem_of_nil.
  intros [->|[->|[->|[->|[->|[->|[->|[]]]]]]]]; vm_compute; reflexivity.
Qed.

Lemma categorizeIssues_single issue :
  categorizeIssues [issue] = {[classify issue := 1]}.
Proof.
  rewrite categorizeIssues_fold. cbn [foldl].
  apply increment_one, category_of_in.
Qed.

Lemma no_categories_lookup category : default 0 (no_categories !! category) = 0.
Proof.
  destruct (no_categories !! category) as [count|] eqn:H; [|done].
  apply elem_of_list_to_map_2 in H.
  rewrite !elem_of_cons, elem_of_nil in H.
  destruct H as [H|[H|[H|[H|[H|[H|[H|[]]]]]]]]; by simplify_eq.
Qed.

Lemma no_categories_dom : dom no_categories = list_to_set categoryOrder.
Proof. unfold no_categories. rewrite dom_list_to_map_L. reflexivity. Qed.

Lemma tally_cons category issue issues :
  tally category (issue :: issues)
  = (if String.eqb (classify issue) category then 1 else 0) + tally category issues.
Proof.
  unfold tally. cbn [List.filter].
  destruct (String.eqb (classify issue) category); cbn [length]; lia.
Qed.

Lemma tally_bounds category issues : 0 <= tally category issues <= Z.of_nat (length issues).
Proof.
  unfold tally. pose proof (List.filter_length_le
    (fun issue => String.eqb (classify issue) category) issues). lia.
Qed.

(** The count of a category after the loop, as long as the counts stay
    within [int]. *)
Lemma counts_lookup issues : forall (m : gmap string Z) category,
  0 <= default 0 (m !! category) ->
  default 0 (m !! category) + Z.of_nat (length issues) <= GoInt.max_int ->
  default 0 (foldl (fun categories issue => increment (classify issue) categories) m issues
             !! category)
  = default 0 (m !! category) + tally category issues.
Proof.
  induction issues as [|issue issues IH]; intros m category H0 Hmax.
  { cbn [foldl]. unfold tally. cbn. lia. }
  cbn [foldl]. rewrite tally_cons. cbn [length] in Hmax.
  assert (Hstep : default 0 (increment (classify issue) m !! category)
                  = default 0 (m !! category)
                    + (if String.eqb (classify issue) category then 1 else 0)).
  { unfold increment. destruct (String.eqb_spec (classify issue) category) as [->|Hne].
    - rewrite lookup_insert_eq. simpl. unfold GoInt.add.
      apply F64Round.wrap_small. unfold GoInt.min_int, GoInt.max_int in *. lia.
    - rewrite lookup_insert_ne by done. lia. }
  rewrite IH; rewrite Hstep; destruct (String.eqb (classify issue) category); lia.
Qed.

Lemma counts_dom issues : forall m : gmap string Z,
  list_to_set categoryOrder ⊆ dom m ->
  dom (foldl (fun categories issue => increment (classify issue) categories) m issues) = dom m.
Proof.
  induction issues as [|issue issues IH]; intros m Hm; [done|].
  cbn [foldl].
  assert (Hd : dom (increment (classify issue) m) = dom m).
  { unfold increment. rewrite dom_insert_L.
    pose proof (category_of_in (ToLower issue)) as Hin. fold (classify issue) in Hin.
    assert (classify issue ∈ dom m) by (apply Hm; by apply elem_of_list_to_set).
    apply subseteq_union_1_L. by apply singleton_subseteq_l. }
  rewrite IH by (by rewrite Hd). exact Hd.
Qed.

(** After the loop every category holds its tally. *)
Lemma counts_final issues category :
  Z.of_nat (length issues) <= GoInt.max_int ->
  category ∈ categoryOrder ->
  foldl (fun categories issue => increment (classify issue) categories) no_categories issues
    !! category = Some (tally category issues).
Proof.
  intros Hlen Hin.
  pose proof (counts_lookup issues no_categories category) as H.
  rewrite no_categories_lookup in H. specialize (H ltac:(lia) ltac:(lia)).
  pose proof (counts_dom issues no_categories) as Hd.
  rewrite no_categories_dom in Hd. specialize (Hd ltac:(done)).
  assert (Hsome : is_Some (foldl (fun categories issue => increment (classify issue) categories)
                                 no_categories issues !! category)).
  { apply elem_of_dom. rewrite Hd. by apply elem_of_list_to_set. }
  destruct Hsome as [count Hcount]. rewrite Hcount in H |- *. simpl in H.
  f_equal. lia.
Qed.

Lemma categorizeIssues_lookup issues category count :
  Z.of_nat (length issues) <= GoInt.max_int ->
  categorizeIssues issues !! category = Some count <->
  category ∈ categoryOrder /\ count = tally category issues /\ count <> 0.
Proof.
  intros Hlen. rewrite categorizeIssues_fold, map_lookup_filter_Some. cbn [snd].
  split.
  - intros [Hl Hnz].
    assert (Hin : category ∈ categoryOrder).
    { apply (elem_of_list_to_set (C := gset string)). rewrite <- no_categories_dom.
      rewrite <- (counts_dom issues no_categories) by (by rewrite no_categories_dom).
      apply elem_of_dom. by eexists. }
    split; [done|]. rewrite (counts_final issues category Hlen Hin) in Hl.
    split; [congruence | done].
  - intros (Hin & -> & Hnz). split; [by apply counts_final | done].
Qed.


Lemma map_sum_insert (m : gmap string Z) category count :
  m !! category = None -> map_sum (<[category := count]> m) = count + map_sum m.
Proof.
  intros Hnone. unfold map_sum. rewrite map_fold_insert_L; [done| |done].
  intros. lia.
Qed.

(** Deleting the entries that count zero leaves the sum as it was. *)
Lemma map_sum_filter_nonzero (m : gmap string Z) :
  map_sum (filter (fun entry => entry.2 <> 0) m) = map_sum m.
Proof.
  induction m as [|category count m Hnone IH] using map_ind.
  { by rewrite map_filter_empty. }
  rewrite map_filter_insert. cbn [snd]. rewrite (map_sum_insert m) by done.
  destruct (decide (count <> 0)) as [Hnz|Hz].
  - rewrite map_sum_insert by (by apply map_lookup_filter_None_2; left). by rewrite IH.
  - rewrite delete_id by done. rewrite IH. lia.
Qed.

Lemma tally_total issues :
  tally "complexity" issues + tally "comment" issues + tally "naming" issues
  + tally "structure" issues + tally "duplication" issues + tally "error" issues
  + tally "other" issues = Z.of_nat (length issues).
Proof.
  induction issues as [|issue issues IH]; [reflexivity|].
  rewrite !tally_cons. cbn [length].
  pose proof (category_of_in (ToLower issue)) as Hin. fold (classify issue) in Hin.
  unfold categoryOrder in Hin. rewrite !elem_of_cons, elem_of_nil in Hin.
  destruct Hin as [H|[H|[H|[H|[H|[H|[H|[]]]]]]]]; rewrite H; cbn [String.eqb Ascii.eqb Bool.eqb]; lia.
Qed.

(** The counts after the loop, one entry per category. *)
Lemma counts_final_map issues :
  Z.of_nat (length issues) <= GoInt.max_int ->
  foldl (fun categories issue => increment (classify issue) categories) no_categories issues
  = list_to_map ((fun category => (category, tally category issues)) <$> categoryOrder).
Proof.
  intros Hlen. apply map_eq. intros category.
  destruct (decide (category ∈ categoryOrder)) as [Hin|Hout].
  - rewrite (counts_final issues category Hlen Hin). symmetry.
    apply elem_of_list_to_map_1.
    + rewrite <- list_fmap_compose. apply (bool_decide_unpack _). by vm_compute.
    + apply list_elem_of_fmap. by exists category.
  - transitivity (@None Z).
    + apply not_elem_of_dom.
      rewrite (counts_dom issues no_categories) by (by rewrite no_categories_dom).
      rewrite no_categories_dom. by rewrite elem_of_list_to_set.
    + symmetry. apply not_elem_of_list_to_map_1.
      rewrite <- list_fmap_compose. by rewrite list_fmap_id.
Qed.

Lemma map_sum_counts issues :
  Z.of_nat (length issues) <= GoInt.max_int ->
  map_sum (categorizeIssues issues) = Z.of_nat (length issues).
Proof.
  intros Hlen. rewrite categorizeIssues_fold, map_sum_filter_nonzero.
  rewrite (counts_final_map issues Hlen). rewrite <- (tally_total issues).
  unfold categoryOrder. cbn [fmap list_fmap list_to_map foldr uncurry].
  rewrite !map_sum_insert.
  - unfold map_sum. rewrite map_fold_empty. cbn [snd]. lia.
  - apply lookup_empty.
  - by rewrite !lookup_insert_ne.
  - by rewrite !lookup_insert_ne.
  - by rewrite !lookup_insert_ne.
  - by rewrite !lookup_insert_ne.
  - by rewrite !lookup_insert_ne.
  - by rewrite !lookup_insert_ne.
Qed.


Lemma classify_other issue : keyword_free issue = true <-> classify issue = "other".
Proof.
  unfold keyword_free, keywords, classify, category_of. cbn [forallb].
  set (lowerIssue := ToLower issue).
  split.
  - rewrite !andb_true_iff, !negb_true_iff. intros H. destruct_and!.
    repeat match goal with
           | H : GoStrings.Contains _ _ = false |- _ => rewrite H; clear H
           end.
    reflexivity.
  - intros H.
    repeat match goal with
           | |- context [GoStrings.Contains lowerIssue ?keyword] =>
               destruct (GoStrings.Contains lowerIssue keyword) eqn:?;
               cbn [orb] in H; try discriminate H
           end.
    reflexivity.
Qed.

Lemma tally_other issues :
  tally "other" issues = Z.of_nat (length (List.filter keyword_free issues)).
Proof.
  unfold tally. do 2 f_equal. apply List.filter_ext. intros issue.
  destruct (keyword_free issue) eqn:Hfree.
  - apply classify_other in Hfree. rewrite Hfree. reflexivity.
  - apply String.eqb_neq. intros Hother. apply classify_other in Hother. congruence.
Qed.

(** C3. The two classifiers agree on every issue: the category that
    [categorizeIssues] counts the issue in is the category whose icon and
    colour, as [categoryInfo] lists them, [getIssueIconAndColor] returns
    for it. *)
Theorem classifiers_agree (issue : string) :
  exists category info,
    categorizeIssues [issue] = {[category := 1]}
    /\ categoryInfo !! category = Some info
    /\ getIssueIconAndColor issue = (Icon info, InfoColor info).
Proof.
  destruct (getIssueIconAndColor_info issue) as (info & Hinfo & Hicon).
  exists (classify issue), info. split; [apply categorizeIssues_single | by split].
Qed.

(** C7. The bucket [other] counts exactly the issues that contain no
    keyword once lowered; an issue without keyword alone gives the map
    with [other] at 1; and every issue is counted in exactly one of the
    seven categories. *)
Theorem other_bucket_counts_keyword_free (issues : list string) :
  Z.of_nat (length issues) <= GoInt.max_int ->
  default 0 (categorizeIssues issues !! "other")
  = Z.of_nat (length (List.filter keyword_free issues))
  /\ (forall issue, keyword_free issue = true -> categorizeIssues [issue] = {["other" := 1]})
  /\ (forall issue, exists category,
        category ∈ categoryOrder
        /\ categorizeIssues [issue] = {[category := 1]}
        /\ forall category', categorizeIssues [issue] = {[category' := 1]} -> category' = category).
Proof.
  intros Hlen. split; [|split].
  - rewrite <- tally_other.
    destruct (categorizeIssues issues !! "other") as [count|] eqn:Hl.
    + apply (categorizeIssues_lookup issues "other" count Hlen) in Hl as (_ & -> & _).
      reflexivity.
    + simpl. destruct (decide (tally "other" issues = 0)) as [Hz|Hnz]; [by rewrite Hz|].
      assert (Hsome : categorizeIssues issues !! "other" = Some (tally "other" issues)).
      { apply (categorizeIssues_lookup issues "other" _ Hlen).
        split; [|by split]. unfold categoryOrder. rewrite !elem_of_cons. tauto. }
      congruence.
  - intros issue Hfree. rewrite categorizeIssues_single.
    apply classify_other in Hfree. by rewrite Hfree.
  - intros issue. exists (classify issue). split; [apply category_of_in|].
    split; [apply categorizeIssues_single|].
    intros category' H'. rewrite categorizeIssues_single in H'.
    assert (Hl : ({[category' := 1]} : gmap string Z) !! classify issue = Some 1).
    { rewrite <- H'. apply lookup_singleton_eq. }
    apply lookup_singleton_Some in Hl as [Heq _]. exact Heq.
Qed.

(** C9. The map that [categorizeIssues] returns has its keys among the
    seven categories, every count in it is at least 1, and the counts add
    up to the number of issues. *)
Theorem categorizeIssues_counts (issues : list string) :
  Z.of_nat (length issues) <= GoInt.max_int ->
  (forall category count,
      categorizeIssues issues !! category = Some count ->
      category ∈ categoryOrder /\ 1 <= count)
  /\ map_sum (categorizeIssues issues) = Z.of_nat (length issues).
Proof.
  intros Hlen. split; [|by apply map_sum_counts].
  intros category count Hl.
  apply (categorizeIssues_lookup issues category count Hlen) in Hl as (Hin & -> & Hnz).
  split; [done|]. pose proof (tally_bounds category issues). lia.
Qed.

End Classification.

Definition demo_issues : list string :=
  ["Function run has Complexity 12"; "bad naming: x"; "odd"; "NESTING too deep"; "strange"].

Lemma other_bucket_counts_keyword_free_witness :
  Z.of_nat (length demo_issues) <= GoInt.max_int
  /\ default 0 (@categorizeIssues reference_env demo_issues !! "other") = 2.
Proof.
  assert (Hlen : Z.of_nat (length demo_issues) <= GoInt.max_int) by (vm_compute; congruence).
  split; [exact Hlen|].
  destruct (@other_bucket_counts_keyword_free reference_env demo_issues Hlen) as [Hother _].
  rewrite Hother. vm_compute. reflexivity.
Defined.

Lemma categorizeIssues_counts_witness :
  Z.of_nat (length demo_issues) <= GoInt.max_int
  /\ @map_sum (@categorizeIssues reference_env demo_issues) = 5.
Proof.
  assert (Hlen : Z.of_nat (length demo_issues) <= GoInt.max_int) by (vm_compute; congruence).
  split; [exact Hlen|].
  destruct (@categorizeIssues_counts reference_env demo_issues Hlen) as [_ Hsum].
  rewrite Hsum. reflexivity.
Defined.

Example categorizeIssues_demo :
  map_to_list (@categorizeIssues reference_env demo_issues)
  = [("other", 2); ("structure", 1); ("complexity", 1); ("naming", 1)].
Proof. vm_compute. reflexivity. Qed.

(** ** Reasoning about computations on the store

    [wp m st Q]: run from [st], [m] does not panic, and its result and
    final state satisfy [Q]. *)

Definition wp {B} (m : M B) (st : State) (Q : B -> State -> Prop) : Prop :=
  exists b st', m st = Some (b, st') /\ Q b st'.

Lemma wp_ret {B} (b : B) st (Q : B -> State -> Prop) : Q b st -> wp (mret b) st Q.
Proof. intros HQ. by exists b, st. Qed.

Lemma wp_bind {B C} (m : M B) (k : B -> M C) st (Q : C -> State -> Prop) :
  wp m st (fun b st' => wp (k b) st' Q) -> wp (m ≫= k) st Q.
Proof.
  intros (b & st' & Hm & c & st'' & Hk & HQ). exists c, st''. split; [|done].
  unfold mbind, M_bind. by rewrite Hm.
Qed.

Lemma wp_mono {B} (m : M B) st (Q Q' : B -> State -> Prop) :
  wp m st Q -> (forall b st', Q b st' -> Q' b st') -> wp m st Q'.
Proof. intros (b & st' & Hm & HQ) Himp. exists b, st'. auto. Qed.

Lemma wp_Printf style format args st (Q : unit -> State -> Prop) :
  Q tt (add_out (EvPrintf style format args) st) -> wp (Printf style format args) st Q.
Proof. intros HQ. by eexists _, _. Qed.

Lemma wp_Println style args st (Q : unit -> State -> Prop) :
  Q tt (add_out (EvPrintln style args) st) -> wp (Println style args) st Q.
Proof. intros HQ. by eexists _, _. Qed.

Lemma wp_get_result st (Q : AnalysisResult -> State -> Prop) :
  Q (st_result st) st -> wp get_result st Q.
Proof. intros HQ. by eexists _, _. Qed.

Lemma wp_index {B} (l : list B) (i : Z) st (Q : B -> State -> Prop) :
  0 <= i < Len l -> (forall x, l !! Z.to_nat i = Some x -> Q x st) -> wp (index l i) st Q.
Proof.
  intros Hi HQ. unfold index. unfold Len in Hi.
  assert (H1 : (0 <=? i) = true) by (apply Z.leb_le; lia).
  assert (H2 : (i <? GoInt.len l) = true) by (apply Z.ltb_lt; lia).
  rewrite H1, H2. cbn [andb].
  destruct (l !! Z.to_nat i) as [x|] eqn:Hx.
  - exists x, st. split; [done | by apply HQ].
  - apply lookup_ge_None in Hx. unfold GoInt.len in Hi. lia.
Qed.

(** A loop keeps what each round keeps. *)
Lemma wp_for_each {B} (l : list B) (body : B -> M unit) (I : State -> Prop) st :
  I st ->
  (forall x st1, x ∈ l -> I st1 -> wp (body x) st1 (fun _ st2 => I st2)) ->
  wp (for_each l body) st (fun _ st' => I st').
Proof.
  revert st. induction l as [|x l IH]; intros st HI Hbody; cbn [for_each].
  - by apply wp_ret.
  - apply wp_bind. eapply wp_mono; [apply Hbody; [by left | done]|].
    intros u st1 HI1. apply IH; [done|].
    intros y st2 Hy. apply Hbody. by right.
Qed.

Lemma wp_for_each_break {B} (l : list B) (body : B -> M bool) (I : State -> Prop) st :
  I st ->
  (forall x st1, x ∈ l -> I st1 -> wp (body x) st1 (fun _ st2 => I st2)) ->
  wp (for_each_break l body) st (fun _ st' => I st').
Proof.
  revert st. induction l as [|x l IH]; intros st HI Hbody; cbn [for_each_break].
  - by apply wp_ret.
  - apply wp_bind. eapply wp_mono; [apply Hbody; [by left | done]|].
    intros stop st1 HI1. destruct stop; [by apply wp_ret|]. apply IH; [done|].
    intros y st2 Hy. apply Hbody. by right.
Qed.

(** ** Arrays and slices *)

Section HeapFacts.
Context {A : Type}.
Implicit Types (h : gmap positive (list A)) (s : Slice) (xs : list A).

Lemma slice_elems_length h s xs : slice_elems h s = Some xs -> length xs = s_len s.
Proof.
  unfold slice_elems. destruct (s_array s) as [l|].
  - destruct (h !! l) as [a|]; [|done]. simpl.
    destruct (Nat.leb_spec (s_off s + s_len s) (length a)); [|done].
    intros [= <-]. rewrite length_take, length_drop. lia.
  - destruct (Nat.eqb_spec (s_len s) 0) as [->|]; [|done]. by intros [= <-].
Qed.

Lemma slice_elems_mono h h' s xs :
  h ⊆ h' -> slice_elems h s = Some xs -> slice_elems h' s = Some xs.
Proof.
  intros Hsub. unfold slice_elems. destruct (s_array s) as [l|]; [|done].
  destruct (h !! l) as [a|] eqn:Ha; [|done].
  by rewrite (lookup_weaken _ _ _ _ Ha Hsub).
Qed.

(** A slice that covers a whole array. *)
Definition whole (l : positive) (n c : nat) : Slice :=
  {| s_array := Some l; s_off := 0; s_len := n; s_cap := c |}.

Lemma slice_elems_whole h l a c :
  h !! l = Some a -> slice_elems h (whole l (length a) c) = Some a.
Proof.
  intros Ha. unfold slice_elems, whole. cbn [s_array s_off s_len]. rewrite Ha. simpl.
  rewrite Nat.leb_refl. by rewrite drop_0, firstn_all.
Qed.

Lemma slice_store_whole h l a c xs :
  h !! l = Some a ->
  slice_store h (whole l (length a) c) xs = Some (<[l := xs]> h).
Proof.
  intros Ha. unfold slice_store, whole. cbn [s_array s_off s_len]. rewrite Ha. simpl.
  rewrite Nat.leb_refl. rewrite drop_all. by rewrite app_nil_r.
Qed.

Lemma fresh_subseteq h a : h ⊆ <[fresh (dom h) := a]> h.
Proof. apply insert_subseteq. apply not_elem_of_dom. apply is_fresh. Qed.

(** [append] to a slice that is full: a new array. *)
Lemma slice_append_grow h s old xs :
  (s_cap s < s_len s + length xs)%nat ->
  slice_elems h s = Some old ->
  slice_append h s xs
  = Some (whole (fresh (dom h)) (length (old ++ xs)) (length (old ++ xs)),
          <[fresh (dom h) := old ++ xs]> h).
Proof.
  intros Hfull Hold. unfold slice_append.
  destruct (Nat.leb_spec (s_len s + length xs) (s_cap s)) as [|_]; [lia|].
  rewrite Hold. simpl. rewrite length_app, (slice_elems_length _ _ _ Hold). reflexivity.
Qed.

End HeapFacts.

(** ** [sort.Slice] on scores *)

Section ScoreOrder.
Context {A : Type} (score : A -> float64).

Definition no_nan (l : list A) : Prop := Forall (fun x => F64.is_nan (score x) = false) l.

Lemma lt_strict_weak_order l :
  no_nan l -> strict_weak_order_on (fun a b => F64.lt (score a) (score b)) l.
Proof.
  intros Hl. unfold no_nan in Hl. rewrite Forall_forall in Hl.
  split; [|split].
  - intros x _. apply F64Order.lt_irrefl.
  - intros x y z _ _ _. apply F64Order.lt_trans.
  - intros x y z Hx Hy Hz Hxy Hyx Hyz Hzy.
    apply F64Order.lt_false_le in Hxy, Hyx, Hyz, Hzy; auto.
    split; apply F64Order.lt_false_le; auto.
    + by apply (F64Order.le_trans _ (score y)).
    + by apply (F64Order.le_trans _ (score y)).
Qed.

Lemma gt_strict_weak_order l :
  no_nan l -> strict_weak_order_on (fun a b => F64.gt (score a) (score b)) l.
Proof.
  intros Hl. destruct (lt_strict_weak_order l Hl) as (Hirr & Htr & Heq).
  unfold F64.gt. split; [exact Hirr|]. split.
  - intros x y z Hx Hy Hz Hxy Hyz. by apply (Htr z y x).
  - intros x y z Hx Hy Hz Hxy Hyx Hyz Hzy.
    exact (Heq z y x Hz Hy Hx Hyz Hzy Hxy Hyx).
Qed.

Lemma Sorted_no_nan (R1 R2 : A -> A -> Prop) l :
  (forall a b, F64.is_nan (score a) = false -> F64.is_nan (score b) = false -> R1 a b -> R2 a b) ->
  no_nan l -> Sorted R1 l -> Sorted R2 l.
Proof.
  intros Himp Hl Hs. induction Hs as [|x l Hs IH Hd]; [constructor|].
  apply Forall_cons in Hl as [Hx Hl]. constructor; [by apply IH|].
  destruct Hd as [|y l Hxy]; constructor.
  apply Forall_cons in Hl as [Hy _]. by apply Himp.
Qed.

(** What [sort.Slice] leaves when [less] compares scores with [<]:
    scores that never decrease. *)
Lemma sorted_ascending l :
  no_nan l ->
  Sorted (fun a b => F64.lt (score b) (score a) = false) l ->
  StronglySorted (fun a b => F64.le (score a) (score b) = true) l.
Proof.
  intros Hl Hs. apply Sorted_StronglySorted.
  - intros a b c. apply F64Order.le_trans.
  - revert Hs. apply Sorted_no_nan; [|done].
    intros a b Ha Hb. by apply F64Order.lt_false_le.
Qed.

(** And with [>]: scores that never increase. *)
Lemma sorted_descending l :
  no_nan l ->
  Sorted (fun a b => F64.gt (score b) (score a) = false) l ->
  StronglySorted (fun a b => F64.le (score b) (score a) = true) l.
Proof.
  intros Hl Hs. apply Sorted_StronglySorted.
  - intros a b c Hab Hbc. by apply (F64Order.le_trans _ (score b)).
  - revert Hs. apply Sorted_no_nan; [|done].
    intros a b Ha Hb. unfold F64.gt. by apply F64Order.lt_false_le.
Qed.

End ScoreOrder.

(** ** [getSortedMetrics] and [getSortedFiles] *)

Section SortedSlices.
Context `{env : GoEnv}.

(** The values of [Metrics] in the order of the [range] that
    [getSortedMetrics] runs from the state [st], and sorted. *)
Definition ranged_metrics (st : State) : list MetricResult :=
  (map_range (st_ranges st) (Metrics (st_result st))).*2.

Definition sorted_metrics (st : State) : list MetricResult :=
  sort_Slice (fun mi mj => F64.lt (Score mi) (Score mj)) (ranged_metrics st).

(** A slice built by [append] from nil holds [xs] in an array that the
    state [st0] did not have; nothing else differs from [st0]. *)
Definition built_metrics (st0 : State) (xs : list MetricResult) (s : Slice) (st : State) : Prop :=
  st_result st = st_result st0 /\ st_files st = st_files st0 /\ st_out st = st_out st0
  /\ st_ranges st = st_ranges st0 /\ st_metrics st0 ⊆ st_metrics st
  /\ ((s = nil_slice /\ xs = [])
      \/ exists l, s = whole l (length xs) (length xs)
                   /\ st_metrics st !! l = Some xs /\ st_metrics st0 !! l = None).

Lemma built_metrics_elems st0 xs s st :
  built_metrics st0 xs s st ->
  slice_elems (st_metrics st) s = Some xs /\ s_cap s = s_len s.
Proof.
  intros (_ & _ & _ & _ & _ & [[-> ->]|(l & -> & Hl & _)]); [done|].
  split; [by apply slice_elems_whole | done].
Qed.

Lemma append_metrics_built st0 xs s st x :
  built_metrics st0 xs s st ->
  wp (append_metrics s [x]) st (built_metrics st0 (xs ++ [x])).
Proof.
  intros Hb. destruct (built_metrics_elems _ _ _ _ Hb) as [Helems Hcap].
  destruct Hb as (Hres & Hfiles & Hout & Hranges & Hsub & _).
  unfold wp, append_metrics.
  rewrite (slice_append_grow _ s xs [x]) by (done || (cbn [length]; lia)).
  eexists _, _. split; [reflexivity|].
  cbn [fst snd]. unfold built_metrics, set_metrics.
  cbn [st_result st_files st_out st_ranges st_metrics].
  repeat (split; [done|]). split.
  - etrans; [exact Hsub | apply fresh_subseteq].
  - right. eexists. split; [reflexivity|]. split; [apply lookup_insert_eq|].
    eapply lookup_weaken_None; [|exact Hsub].
    apply not_elem_of_dom, is_fresh.
Qed.

Lemma append_metrics_loop (entries : list (string * MetricResult)) :
  forall (acc : M Slice) st0 st xs,
    wp acc st (built_metrics st0 xs) ->
    wp (foldl (fun acc entry => metrics ← acc; append_metrics metrics [entry.2]) acc entries)
       st (built_metrics st0 (xs ++ entries.*2)).
Proof.
  induction entries as [|entry entries IH]; intros acc st0 st xs Hacc; cbn [foldl fmap list_fmap].
  - by rewrite app_nil_r.
  - replace (xs ++ entry.2 :: entries.*2) with ((xs ++ [entry.2]) ++ entries.*2)
      by (by rewrite <- app_assoc).
    apply IH. apply wp_bind. eapply wp_mono; [exact Hacc|].
    intros s st1 Hb. by apply append_metrics_built.
Qed.

Lemma sort_metrics_built st0 xs s st less :
  built_metrics st0 xs s st ->
  wp (sort_metrics s less) st (fun _ st' =>
    st_result st' = st_result st0 /\ st_files st' = st_files st0 /\ st_out st' = st_out st0
    /\ st_ranges st' = st_ranges st0 /\ st_metrics st0 ⊆ st_metrics st'
    /\ slice_elems (st_metrics st') s = Some (sort_Slice less xs)).
Proof.
  intros (Hres & Hfiles & Hout & Hranges & Hsub & [[-> ->]|(l & -> & Hl & Hnew)]).
  - assert (Hnil : sort_Slice less (@nil MetricResult) = []).
    { apply Permutation_nil_r, sort_Slice_perm. }
    rewrite Hnil. by eexists _, _.
  - unfold wp, sort_metrics.
    rewrite (slice_elems_whole _ _ _ _ Hl). simpl.
    rewrite (slice_store_whole _ _ _ _ _ Hl). simpl.
    eexists _, _. split; [reflexivity|].
    unfold set_metrics. cbn [st_result st_files st_out st_ranges st_metrics].
    repeat (split; [done|]). split.
    + by apply insert_subseteq_r.
    + rewrite <- (Permutation_length (sort_Slice_perm _ less xs)).
      apply slice_elems_whole. apply lookup_insert_eq.
Qed.

Lemma getSortedMetrics_spec st :
  wp getSortedMetrics st (fun s st' =>
    st_result st' = st_result st /\ st_files st' = st_files st /\ st_out st' = st_out st
    /\ st_ranges st' = S (st_ranges st) /\ st_metrics st ⊆ st_metrics st'
    /\ slice_elems (st_metrics st') s = Some (sorted_metrics st)).
Proof.
  unfold getSortedMetrics. apply wp_bind, wp_get_result.
  apply wp_bind. eexists _, _. split; [reflexivity|].
  apply wp_bind.
  eapply wp_mono.
  { apply (append_metrics_loop _ _ (tick_range st) (tick_range st) []).
    apply wp_ret. unfold built_metrics. repeat (split; [done|]). by left. }
  intros s st1 Hb. cbn [app] in Hb.
  apply wp_bind. eapply wp_mono; [by apply sort_metrics_built|].
  intros u st2 H. apply wp_ret. exact H.
Qed.

(** The same for [getSortedFiles], whose slice starts as an empty literal
    and receives the elements of [FilesAnalyzed] in one [append]. *)
Definition built_files (st0 : State) (xs : list FileAnalysisResult) (s : Slice) (st : State) : Prop :=
  st_result st = st_result st0 /\ st_metrics st = st_metrics st0 /\ st_out st = st_out st0
  /\ st_ranges st = st_ranges st0 /\ st_files st0 ⊆ st_files st
  /\ exists l, s = whole l (length xs) (length xs)
               /\ st_files st !! l = Some xs /\ st_files st0 !! l = None.

Lemma files_literal_built st :
  wp (files_literal []) st (built_files st []).
Proof.
  unfold wp, files_literal. eexists _, _. split; [reflexivity|].
  cbn [slice_literal fst snd]. unfold built_files, set_files.
  cbn [st_result st_files st_metrics st_out st_ranges].
  repeat (split; [done|]). split; [apply fresh_subseteq|].
  exists (fresh (dom (st_files st))). split; [reflexivity|].
  split; [apply lookup_insert_eq | apply not_elem_of_dom, is_fresh].
Qed.

Lemma append_files_built st0 s st xs :
  built_files st0 [] s st ->
  wp (append_files s xs) st (built_files st0 xs).
Proof.
  intros (Hres & Hmet & Hout & Hranges & Hsub & l & -> & Hl & Hnew).
  unfold wp, append_files. destruct xs as [|x xs].
  - (* nothing to append: the capacity 0 has room, the literal is the result *)
    unfold slice_append, whole. cbn [s_len s_cap s_array s_off length Nat.add Nat.leb].
    rewrite Hl. simpl. eexists _, _. split; [reflexivity|].
    unfold built_files, set_files. cbn [fst snd st_result st_files st_metrics st_out st_ranges].
    repeat (split; [done|]). split; [by apply insert_subseteq_r|].
    exists l. split; [reflexivity|]. split; [apply lookup_insert_eq | done].
  - assert (Hlit : slice_elems (st_files st) (whole l (length (@nil FileAnalysisResult)) 0) = Some [])
      by (by apply slice_elems_whole).
    cbn [length] in Hlit |- *.
    rewrite (slice_append_grow _ (whole l 0 0) [] (x :: xs)) by (exact Hlit || (cbn; lia)).
    eexists _, _. split; [reflexivity|].
    unfold built_files, set_files. cbn [fst snd app st_result st_files st_metrics st_out st_ranges].
    repeat (split; [done|]). split; [etrans; [exact Hsub | apply fresh_subseteq]|].
    eexists. split; [reflexivity|]. split; [apply lookup_insert_eq|].
    eapply lookup_weaken_None; [|exact Hsub]. apply not_elem_of_dom, is_fresh.
Qed.

Lemma sort_files_built st0 xs s st less :
  built_files st0 xs s st ->
  wp (sort_files s less) st (fun _ st' =>
    st_result st' = st_result st0 /\ st_metrics st' = st_metrics st0 /\ st_out st' = st_out st0
    /\ st_ranges st' = st_ranges st0 /\ st_files st0 ⊆ st_files st'
    /\ s_len s = length xs /\ s_cap s = length xs
    /\ slice_elems (st_files st') s = Some (sort_Slice less xs)).
Proof.
  intros (Hres & Hmet & Hout & Hranges & Hsub & l & -> & Hl & Hnew).
  unfold wp, sort_files.
  rewrite (slice_elems_whole _ _ _ _ Hl). simpl.
  rewrite (slice_store_whole _ _ _ _ _ Hl). simpl.
  eexists _, _. split; [reflexivity|].
  unfold set_files. cbn [st_result st_files st_metrics st_out st_ranges].
  repeat (split; [done|]). split; [by apply insert_subseteq_r|]. split; [done|]. split; [done|].
  rewrite <- (Permutation_length (sort_Slice_perm _ less xs)).
  apply slice_elems_whole. apply lookup_insert_eq.
Qed.

Lemma wp_files_of s st xs (Q : list FileAnalysisResult -> State -> Prop) :
  slice_elems (st_files st) s = Some xs -> Q xs st -> wp (files_of s) st Q.
Proof. intros Hs HQ. exists xs, st. split; [|done]. unfold files_of. by rewrite Hs. Qed.

Lemma wp_metrics_of s st xs (Q : list MetricResult -> State -> Prop) :
  slice_elems (st_metrics st) s = Some xs -> Q xs st -> wp (metrics_of s) st Q.
Proof. intros Hs HQ. exists xs, st. split; [|done]. unfold metrics_of. by rewrite Hs. Qed.

Lemma getSortedFiles_spec st analyzed :
  slice_elems (st_files st) (FilesAnalyzed (st_result st)) = Some analyzed ->
  wp getSortedFiles st (fun s st' =>
    st_result st' = st_result st /\ st_metrics st' = st_metrics st /\ st_out st' = st_out st
    /\ st_ranges st' = st_ranges st /\ st_files st ⊆ st_files st'
    /\ s_len s = length analyzed /\ s_cap s = length analyzed
    /\ slice_elems (st_files st') s
       = Some (sort_Slice (fun fi fj => F64.gt (FileScore fi) (FileScore fj)) analyzed)).
Proof.
  intros Han. unfold getSortedFiles. apply wp_bind, wp_get_result.
  apply wp_bind. eapply wp_mono; [apply files_literal_built|].
  intros empty st1 Hb. apply wp_bind.
  assert (Hb' := Hb). destruct Hb' as (Hres & _ & _ & _ & Hsub & _).
  apply (wp_files_of _ _ analyzed); [by apply (slice_elems_mono _ _ _ _ Hsub)|].
  apply wp_bind. eapply wp_mono; [by apply append_files_built|].
  intros worstFiles st2 Hb2. apply wp_bind.
  eapply wp_mono; [by apply sort_files_built|].
  intros u st3 H. apply wp_ret. exact H.
Qed.

End SortedSlices.

Section PresentationOrder.
Context `{env : GoEnv}.

Lemma ranged_metrics_perm st :
  ranged_metrics st ≡ₚ (map_to_list (Metrics (st_result st))).*2.
Proof. unfold ranged_metrics. by rewrite map_range_perm. Qed.

Lemma sorted_metrics_perm st :
  sorted_metrics st ≡ₚ (map_to_list (Metrics (st_result st))).*2.
Proof. unfold sorted_metrics. by rewrite sort_Slice_perm, ranged_metrics_perm. Qed.

(** C8. [getSortedMetrics] returns a slice that holds exactly the values
    of [Metrics], with scores that never decrease, and [getSortedFiles] a
    slice that holds a permutation of [FilesAnalyzed], with scores that
    never increase (scores are of the data model: none is NaN). *)
Theorem sorted_presentation_order (st : State) (analyzed : list FileAnalysisResult) :
  no_nan Score (map_to_list (Metrics (st_result st))).*2 ->
  slice_elems (st_files st) (FilesAnalyzed (st_result st)) = Some analyzed ->
  no_nan FileScore analyzed ->
  wp getSortedMetrics st (fun s st' =>
    exists ms, slice_elems (st_metrics st') s = Some ms
               /\ ms ≡ₚ (map_to_list (Metrics (st_result st))).*2
               /\ StronglySorted (fun a b => F64.le (Score a) (Score b) = true) ms)
  /\ wp getSortedFiles st (fun s st' =>
    exists ws, slice_elems (st_files st') s = Some ws
               /\ ws ≡ₚ analyzed
               /\ StronglySorted (fun a b => F64.le (FileScore b) (FileScore a) = true) ws).
Proof.
  intros Hmetrics Hanalyzed Hfiles. split.
  - eapply wp_mono; [apply getSortedMetrics_spec|].
    intros s st' (_ & _ & _ & _ & _ & Hs). cbv beta.
    exists (sorted_metrics st). split; [done|]. split; [apply sorted_metrics_perm|].
    assert (Hr : no_nan Score (ranged_metrics st)).
    { unfold no_nan. by rewrite ranged_metrics_perm. }
    apply sorted_ascending.
    + unfold no_nan, sorted_metrics. by rewrite sort_Slice_perm.
    + apply sort_Slice_sorted. by apply (lt_strict_weak_order Score).
  - eapply wp_mono; [by apply getSortedFiles_spec|].
    intros s st' (_ & _ & _ & _ & _ & _ & _ & Hs). cbv beta.
    eexists. split; [exact Hs|]. split; [apply sort_Slice_perm|].
    apply sorted_descending.
    + unfold no_nan. by rewrite sort_Slice_perm.
    + apply (sort_Slice_sorted _ (fun fi fj => F64.gt (FileScore fi) (FileScore fj))).
      by apply (gt_strict_weak_order FileScore).
Qed.

End PresentationOrder.

Lemma sorted_presentation_order_witness :
  no_nan Score (map_to_list (Metrics (st_result demo_state))).*2
  /\ slice_elems (st_files demo_state) (FilesAnalyzed (st_result demo_state))
     = Some [demo_file_a; demo_file_b]
  /\ no_nan FileScore [demo_file_a; demo_file_b]
  /\ wp (@getSortedFiles reference_env) demo_state (fun s st' =>
       exists ws, slice_elems (st_files st') s = Some ws
                  /\ ws ≡ₚ [demo_file_a; demo_file_b]
                  /\ StronglySorted (fun a b => F64.le (FileScore b) (FileScore a) = true) ws).
Proof.
  assert (H1 : no_nan Score (map_to_list (Metrics (st_result demo_state))).*2).
  { unfold no_nan. vm_compute. repeat constructor. }
  assert (H2 : slice_elems (st_files demo_state) (FilesAnalyzed (st_result demo_state))
               = Some [demo_file_a; demo_file_b]) by (vm_compute; reflexivity).
  assert (H3 : no_nan FileScore [demo_file_a; demo_file_b]).
  { unfold no_nan. repeat constructor. }
  split; [exact H1|]. split; [exact H2|]. split; [exact H3|].
  exact (proj2 (@sorted_presentation_order reference_env demo_state _ H1 H2 H3)).
Defined.

(** On the fixture: the sorted copy puts [b.go] (0.75) first, and the
    array behind [FilesAnalyzed] still reads in its first order. *)
Example getSortedFiles_demo :
  match @getSortedFiles reference_env demo_state with
  | Some (s, st') =>
      (FilePath <$> default [] (slice_elems (st_files st') s),
       FilePath <$> default [] (slice_elems (st_files st') (FilesAnalyzed (st_result st'))))
  | None => ([], [])
  end
  = (["b.go"; "pkg/report/internal/deep/a.go"], ["pkg/report/internal/deep/a.go"; "b.go"]).
Proof. vm_compute. reflexivity. Qed.

(** ** Computations that only print *)

Definition event_style (e : Event) : option Color :=
  match e with
  | EvPrintf style _ _ | EvPrintln style _ => style
  end.

(** From [st0] to [st] nothing happened but prints, each satisfying [P]. *)
Definition prints (P : Event -> Prop) (st0 st : State) : Prop :=
  st_result st = st_result st0 /\ st_files st = st_files st0
  /\ st_metrics st = st_metrics st0 /\ st_ranges st = st_ranges st0
  /\ exists new, st_out st = st_out st0 ++ new /\ Forall P new.

Lemma prints_refl P st : prints P st st.
Proof. repeat (split; [done|]). exists []. by rewrite app_nil_r. Qed.

Lemma prints_trans P st0 st1 st2 : prints P st0 st1 -> prints P st1 st2 -> prints P st0 st2.
Proof.
  intros (Hr1 & Hf1 & Hm1 & Hn1 & new1 & Ho1 & HP1) (Hr2 & Hf2 & Hm2 & Hn2 & new2 & Ho2 & HP2).
  unfold prints. rewrite Hr2, Hf2, Hm2, Hn2, Ho2, Ho1. repeat (split; [done|]).
  exists (new1 ++ new2). split; [by rewrite app_assoc | by apply Forall_app].
Qed.

Lemma prints_add_out P st0 st e : prints P st0 st -> P e -> prints P st0 (add_out e st).
Proof.
  intros (Hr & Hf & Hm & Hn & new & Ho & HP) He. unfold prints, add_out.
  cbn [st_result st_files st_metrics st_ranges st_out]. repeat (split; [done|]).
  exists (new ++ [e]). split; [by rewrite Ho, app_assoc|].
  apply Forall_app. split; [done | by constructor].
Qed.

Lemma prints_impl (P P' : Event -> Prop) st0 st :
  (forall e, P e -> P' e) -> prints P st0 st -> prints P' st0 st.
Proof.
  intros Himp (Hr & Hf & Hm & Hn & new & Ho & HP). repeat (split; [done|]).
  exists new. split; [done|]. by apply (Forall_impl _ _ _ HP).
Qed.

Lemma wp_Printf_prints P st0 st style format args :
  prints P st0 st -> P (EvPrintf style format args) ->
  wp (Printf style format args) st (fun _ st' => prints P st0 st').
Proof. intros Hp He. apply wp_Printf. by apply prints_add_out. Qed.

Lemma wp_Println_prints P st0 st style args :
  prints P st0 st -> P (EvPrintln style args) ->
  wp (Println style args) st (fun _ st' => prints P st0 st').
Proof. intros Hp He. apply wp_Println. by apply prints_add_out. Qed.

Lemma wp_Printf_then P st0 st style format args (Q : unit -> State -> Prop) :
  prints P st0 st -> P (EvPrintf style format args) ->
  (forall st', prints P st0 st' -> Q tt st') ->
  wp (Printf style format args) st Q.
Proof. intros Hp He HQ. apply wp_Printf, HQ. by apply prints_add_out. Qed.

Lemma wp_Println_then P st0 st style args (Q : unit -> State -> Prop) :
  prints P st0 st -> P (EvPrintln style args) ->
  (forall st', prints P st0 st' -> Q tt st') ->
  wp (Println style args) st Q.
Proof. intros Hp He HQ. apply wp_Println, HQ. by apply prints_add_out. Qed.

(** A loop whose rounds only print only prints, and an empty one does
    nothing. *)
Lemma wp_for_each_prints {B} (l : list B) (body : B -> M unit) (P : Event -> Prop) st :
  (forall x st1, x ∈ l -> wp (body x) st1 (fun _ st2 => prints P st1 st2)) ->
  wp (for_each l body) st (fun _ st' => prints P st st' /\ (l = [] -> st' = st)).
Proof.
  intros Hbody.
  assert (Hloop : wp (for_each l body) st (fun _ st' => prints P st st')).
  { apply (wp_for_each l body (prints P st)); [apply prints_refl|].
    intros x st1 Hx H1. eapply wp_mono; [by apply Hbody|].
    intros u st2 H2. by apply (prints_trans P st st1 st2). }
  destruct l as [|x0 l0].
  - apply wp_ret. split; [apply prints_refl | done].
  - eapply wp_mono; [exact Hloop|]. intros u st' H. split; [done | discriminate].
Qed.

(** ** [printMetricItems] *)

(** The weighted aggregate of the specification, Σ(score×weight)/Σ(weight),
    the sums taken from left to right in [float64]. *)
Definition total_weight (ms : list MetricResult) : float64 :=
  foldl (fun total m => F64.add total (Weight m)) F64.zero ms.

Definition weighted_sum (ms : list MetricResult) : float64 :=
  foldl (fun total m => F64.add total (F64.mul (Score m) (Weight m))) F64.zero ms.

Definition weighted_aggregate (ms : list MetricResult) : float64 :=
  F64.div (weighted_sum ms) (total_weight ms).

(** The format of the line that closes the score calculation, and the
    events printed with it in [infoStyle]. *)
Definition calc_format : string := (") ÷ %.2f = %.2f" +:+ nl +:+ nl).

Definition is_calc_result (e : Event) : Prop :=
  exists args, e = EvPrintf (Some infoStyle) calc_format args.

Definition calc_result (ms : list MetricResult) : Event :=
  EvPrintf (Some infoStyle) calc_format
           [VFloat (total_weight ms); VFloat (percentage (weighted_aggregate ms))].

Lemma totals_fold ms : forall tw ws,
  foldl (fun (totals : float64 * float64) m =>
           (F64.add totals.1 (Weight m), F64.add totals.2 (F64.mul (Score m) (Weight m))))
        (tw, ws) ms
  = (foldl (fun total m => F64.add total (Weight m)) tw ms,
     foldl (fun total m => F64.add total (F64.mul (Score m) (Weight m))) ws ms).
Proof. induction ms as [|m ms IH]; intros tw ws; [done|]. cbn [foldl fst snd]. apply IH. Qed.

Section MetricItems.
Context `{env : GoEnv}.
Context {Language : Type} `{!EqDecision Language} (EnUS : Language).
Context `{translator : !Translator Language}.

Definition metrics_header : Event :=
  EvPrintf (Some sectionStyle) (nl +:+ "◆ %s" +:+ nl +:+ nl) [VString (Translate "report.metrics_details" [])].

(** What [printMetricItems] does from a state [st], with [ms] the sorted
    metrics: it prints the header, the items (none in [infoStyle]), an
    empty line, and then, when the total weight is above 0, the score
    calculation, which the only line in the format of the result closes. *)
Lemma printMetricItems_spec st :
  wp (printMetricItems EnUS) st (fun _ st' =>
    st_result st' = st_result st /\ st_files st' = st_files st
    /\ st_metrics st ⊆ st_metrics st'
    /\ exists items calc,
         st_out st' = st_out st ++ [metrics_header] ++ items ++ [EvPrintln None []] ++ calc
         /\ Forall (fun e => event_style e <> Some infoStyle) items
         /\ (sorted_metrics st = [] -> items = [])
         /\ if F64.gt (total_weight (sorted_metrics st)) (F64.of_int 0) then
              exists terms,
                calc = terms ++ [calc_result (sorted_metrics st)]
                /\ Forall (fun e => ~ is_calc_result e) terms
            else calc = []).
Proof.
  unfold printMetricItems.
  apply wp_bind, wp_Printf. fold metrics_header.
  apply wp_bind. eapply wp_mono; [apply getSortedMetrics_spec|].
  intros metrics st1 (Hres & Hfiles & Hout & Hranges & Hsub & Helems).
  change (sorted_metrics (add_out metrics_header st)) with (sorted_metrics st) in Helems.
  cbn [add_out st_result st_files st_out st_ranges st_metrics] in Hres, Hfiles, Hout, Hranges, Hsub.
  apply wp_bind. apply (wp_metrics_of _ _ _ _ Helems).
  set (ms := sorted_metrics st) in *.
  cbv zeta. rewrite totals_fold. cbn [fst snd].
  fold (total_weight ms). fold (weighted_sum ms).
  apply wp_bind.
  set (P1 := fun e => event_style e <> Some infoStyle).
  eapply wp_mono.
  { apply (wp_for_each_prints ms _ P1).
    intros m st2 _.
    apply wp_bind. apply (wp_Printf_then P1 st2); [apply prints_refl | |].
    { unfold P1. cbn [event_style]. destruct (F64.lt _ _); [discriminate|].
      destruct (F64.lt _ _); discriminate. }
    intros st3 H3. apply wp_bind. apply (wp_Printf_then P1 st2); [done | discriminate |].
    intros st4 H4. apply wp_Printf_prints; [done | discriminate]. }
  intros u st2 [Hitems Hempty]. cbv beta.
  destruct Hitems as (Hr2 & Hf2 & Hm2 & Hn2 & items & Ho2 & Hitems).
  apply wp_bind, wp_Println.
  set (st3 := add_out (EvPrintln None []) st2).
  assert (Hout3 : st_out st3 = st_out st ++ [metrics_header] ++ items ++ [EvPrintln None []]).
  { unfold st3. cbn [add_out st_out]. rewrite Ho2, Hout. by rewrite <- !app_assoc. }
  assert (Hbase : st_result st3 = st_result st /\ st_files st3 = st_files st
                  /\ st_metrics st ⊆ st_metrics st3).
  { unfold st3. cbn [add_out st_result st_files st_metrics].
    rewrite Hr2, Hf2, Hm2. by repeat split. }
  assert (Hitems0 : ms = [] -> items = []).
  { intros Hnil. specialize (Hempty Hnil). subst st2.
    apply (app_inv_head (st_out st1)). by rewrite app_nil_r. }
  destruct (F64.gt (total_weight ms) (F64.of_int 0)) eqn:Hgate.
  - (* the calculation is printed *)
    set (P := fun e => event_style e = Some infoStyle /\ ~ is_calc_result e).
    assert (Hnot : forall format args, format <> calc_format ->
                                       P (EvPrintf (Some infoStyle) format args)).
    { intros format args Hne. split; [done|]. intros [args' [=]]. by apply Hne. }
    apply wp_bind. apply (wp_Printf_then P st3); [apply prints_refl | by apply Hnot |].
    intros st4 H4. apply wp_bind. apply (wp_Printf_then P st3); [done | by apply Hnot |].
    intros st5 H5. apply wp_bind.
    eapply wp_mono.
    { apply (wp_for_each_prints _ _ P). intros [i m] st6 _. cbn [fst snd].
      apply wp_bind.
      eapply (wp_mono _ _ (fun _ st7 => prints P st6 st7)).
      { destruct (0 <? i).
        - apply wp_Printf_prints; [apply prints_refl | by apply Hnot].
        - apply wp_ret, prints_refl. }
      intros u3 st7 H7. apply wp_Printf_prints; [done | by apply Hnot]. }
    intros u3 st6 [H6 _]. cbv beta.
    apply wp_Printf. fold (weighted_aggregate ms). fold calc_format. fold (calc_result ms).
    pose proof (prints_trans P _ _ _ H5 H6) as (Hr & Hf & Hm & Hn & terms & Ho & Hterms).
    destruct Hbase as (Hb1 & Hb2 & Hb3).
    cbn [add_out st_result st_files st_metrics st_out].
    rewrite Hr, Hf, Hm. repeat (split; [done|]).
    exists items, (terms ++ [calc_result ms]). split.
    { rewrite Ho, Hout3. by rewrite <- !app_assoc. }
    split; [done|]. split; [done|].
    exists terms. split; [done|]. apply (Forall_impl _ _ _ Hterms). by intros e [_ He].
  - apply wp_ret. destruct Hbase as (Hb1 & Hb2 & Hb3). repeat (split; [done|]).
    exists items, []. split; [by rewrite Hout3, app_nil_r|]. by repeat split.
Qed.


Lemma sorted_metrics_empty st : Metrics (st_result st) = ∅ -> sorted_metrics st = [].
Proof.
  intros Hempty. apply Permutation_nil_r.
  rewrite sorted_metrics_perm, Hempty. by rewrite map_to_list_empty.
Qed.

(** C4. When the score calculation is printed, the line that closes it
    shows the total weight and the overall score recomputed from the
    metrics of [Metrics] alone (all of them and no other, in the order of
    their scores): the weighted aggregate Σ(score×weight)/Σ(weight) as
    [percentage] scales and rounds it, [math.Round(x*10000)/100]. *)
Theorem overall_score_is_weighted_aggregate (st : State) :
  F64.gt (total_weight (sorted_metrics st)) (F64.of_int 0) = true ->
  sorted_metrics st ≡ₚ (map_to_list (Metrics (st_result st))).*2
  /\ wp (printMetricItems EnUS) st (fun _ st' =>
       last (st_out st')
       = Some (EvPrintf (Some infoStyle) calc_format
                 [VFloat (total_weight (sorted_metrics st));
                  VFloat (F64.div
                            (F64.Round
                               (F64.mul (weighted_aggregate (sorted_metrics st))
                                        (F64.of_int 10000)))
                            (F64.of_int 100))])).
Proof.
  intros Hgate. split; [apply sorted_metrics_perm|].
  eapply wp_mono; [apply printMetricItems_spec|].
  intros u st' (_ & _ & _ & items & calc & Hout & _ & _ & Hcalc). cbv beta.
  rewrite Hgate in Hcalc. destruct Hcalc as (terms & -> & _).
  rewrite Hout, !app_assoc. apply last_snoc.
Qed.

(** C5. [printMetricItems] divides by the total weight only in the branch
    that [totalWeight > 0] guards: whenever a result of the calculation is
    among what it prints, the total weight is above 0 and the result is the
    quotient by it; when the guard fails nothing of the calculation (no
    line in [infoStyle]) is printed; and with no metrics at all it prints
    the header and an empty line, nothing else. It never panics. *)
Theorem score_calculation_is_guarded (st : State) :
  wp (printMetricItems EnUS) st (fun _ st' =>
    exists new,
      st_out st' = st_out st ++ new
      /\ (Metrics (st_result st) = ∅ -> new = [metrics_header; EvPrintln None []])
      /\ (F64.gt (total_weight (sorted_metrics st)) (F64.of_int 0) = false ->
          Forall (fun e => event_style e <> Some infoStyle) new)
      /\ (forall e, e ∈ new -> is_calc_result e ->
          F64.gt (total_weight (sorted_metrics st)) (F64.of_int 0) = true
          /\ e = calc_result (sorted_metrics st))).
Proof.
  eapply wp_mono; [apply printMetricItems_spec|].
  intros u st' (_ & _ & _ & items & calc & Hout & Hitems & Hempty & Hcalc). cbv beta.
  exists ([metrics_header] ++ items ++ [EvPrintln None []] ++ calc).
  split; [done|]. split; [|split].
  - intros Hnone. pose proof (sorted_metrics_empty st Hnone) as Hnil.
    rewrite (Hempty Hnil). rewrite Hnil in Hcalc.
    assert (Hzero : F64.gt (total_weight []) (F64.of_int 0) = false) by (vm_compute; reflexivity).
    rewrite Hzero in Hcalc. by rewrite Hcalc.
  - intros Hgate. rewrite Hgate in Hcalc. subst calc.
    apply Forall_app. split; [by repeat constructor|].
    apply Forall_app. split; [done | by repeat constructor].
  - intros e He [args Hres].
    rewrite !elem_of_app in He. destruct He as [He|[He|[He|He]]].
    + apply list_elem_of_singleton in He. subst e. discriminate.
    + rewrite Forall_forall in Hitems. specialize (Hitems e He). by subst e.
    + apply list_elem_of_singleton in He. subst e. discriminate.
    + destruct (F64.gt (total_weight (sorted_metrics st)) (F64.of_int 0)).
      * destruct Hcalc as (terms & -> & Hterms).
        apply elem_of_app in He as [He|He].
        -- rewrite Forall_forall in Hterms. exfalso. apply (Hterms e He). by exists args.
        -- apply list_elem_of_singleton in He. by split.
      * subst calc. by apply elem_of_nil in He.
Qed.

End MetricItems.

Lemma overall_score_is_weighted_aggregate_witness :
  F64.gt (total_weight (@sorted_metrics reference_env demo_state)) (F64.of_int 0) = true
  /\ wp (@printMetricItems reference_env DemoLanguage _ DemoEnUS key_translator) demo_state
        (fun _ st' =>
           last (st_out st')
           = Some (EvPrintf (Some infoStyle) calc_format
                     [VFloat (demo_float 1 2); VFloat (F64.of_int 39)])).
Proof.
  assert (Hgate : F64.gt (total_weight (@sorted_metrics reference_env demo_state)) (F64.of_int 0)
                  = true) by (vm_compute; reflexivity).
  split; [exact Hgate|].
  destruct (@overall_score_is_weighted_aggregate reference_env DemoLanguage _ DemoEnUS
              key_translator demo_state Hgate) as [_ Hwp].
  eapply wp_mono; [exact Hwp|].
  intros u st' Hlast. rewrite Hlast. vm_compute. reflexivity.
Defined.

(** ** What a report leaves of the store

    [extends st st']: the [AnalysisResult] is as it was and every array of
    [st] is in [st'] with the elements it had; [same_store] is that with
    no new array either. *)

Definition extends (st st' : State) : Prop :=
  st_result st' = st_result st
  /\ st_files st ⊆ st_files st' /\ st_metrics st ⊆ st_metrics st'.

Definition same_store (st st' : State) : Prop :=
  st_result st' = st_result st
  /\ st_files st' = st_files st /\ st_metrics st' = st_metrics st.

(** [FilesAnalyzed] is a slice of the store. *)
Definition Valid (st : State) : Prop :=
  is_Some (slice_elems (st_files st) (FilesAnalyzed (st_result st))).

Lemma extends_refl st : extends st st.
Proof. by repeat split. Qed.

Lemma extends_trans st0 st1 st2 : extends st0 st1 -> extends st1 st2 -> extends st0 st2.
Proof.
  intros (Hr1 & Hf1 & Hm1) (Hr2 & Hf2 & Hm2). split; [congruence|].
  split; by etrans.
Qed.

Lemma same_store_refl st : same_store st st.
Proof. by repeat split. Qed.

Lemma same_store_trans st0 st1 st2 : same_store st0 st1 -> same_store st1 st2 -> same_store st0 st2.
Proof. intros (? & ? & ?) (? & ? & ?). repeat split; congruence. Qed.

Lemma same_store_extends st st' : same_store st st' -> extends st st'.
Proof. intros (Hr & Hf & Hm). split; [done|]. by rewrite Hf, Hm. Qed.

Lemma same_store_add_out st e : same_store st (add_out e st).
Proof. by repeat split. Qed.

Lemma same_store_tick st : same_store st (tick_range st).
Proof. by repeat split. Qed.

Lemma extends_Valid st st' : extends st st' -> Valid st -> Valid st'.
Proof.
  intros (Hr & Hf & _) [xs Hxs]. exists xs. rewrite Hr.
  by apply (slice_elems_mono _ _ _ _ Hf).
Qed.

(** [quiet_at st0 m Q]: run from a state with the store of [st0], [m]
    does not panic, leaves the store as it is, and returns a value that
    satisfies [Q]. *)
Definition quiet_at {B} (st0 : State) (m : M B) (Q : B -> Prop) : Prop :=
  forall st, same_store st0 st -> wp m st (fun b st' => same_store st0 st' /\ Q b).

Lemma quiet_ret {B} st0 (b : B) (Q : B -> Prop) : Q b -> quiet_at st0 (mret b) Q.
Proof. intros HQ st Hst. by apply wp_ret. Qed.

Lemma quiet_bind {B C} st0 (m : M B) (k : B -> M C) (P : B -> Prop) (Q : C -> Prop) :
  quiet_at st0 m P -> (forall b, P b -> quiet_at st0 (k b) Q) -> quiet_at st0 (m ≫= k) Q.
Proof.
  intros Hm Hk st Hst. apply wp_bind. eapply wp_mono; [by apply Hm|].
  intros b st1 [Hst1 HP]. by apply Hk.
Qed.

Lemma quiet_mono {B} st0 (m : M B) (P Q : B -> Prop) :
  quiet_at st0 m P -> (forall b, P b -> Q b) -> quiet_at st0 m Q.
Proof.
  intros Hm Himp st Hst. eapply wp_mono; [by apply Hm|].
  intros b st1 [Hst1 HP]. auto.
Qed.

Lemma quiet_Printf st0 style format args :
  quiet_at st0 (Printf style format args) (fun _ => True).
Proof.
  intros st Hst. apply wp_Printf. split; [|done].
  apply (same_store_trans _ st); [done | apply same_store_add_out].
Qed.

Lemma quiet_Println st0 style args : quiet_at st0 (Println style args) (fun _ => True).
Proof.
  intros st Hst. apply wp_Println. split; [|done].
  apply (same_store_trans _ st); [done | apply same_store_add_out].
Qed.

Lemma quiet_get_result st0 : quiet_at st0 get_result (fun result => result = st_result st0).
Proof. intros st Hst. apply wp_get_result. split; [done|]. by destruct Hst. Qed.

Lemma quiet_range_map `{env : GoEnv} {V} st0 (m : gmap string V) :
  quiet_at st0 (range_map m) (fun _ => True).
Proof.
  intros st Hst. eexists _, _. split; [reflexivity|]. split; [|done].
  apply (same_store_trans _ st); [done | apply same_store_tick].
Qed.

Lemma quiet_index {B} st0 (l : list B) (i : Z) :
  0 <= i < Len l -> quiet_at st0 (index l i) (fun x => x ∈ l).
Proof.
  intros Hi st Hst. apply wp_index; [done|]. intros x Hx. split; [done|].
  by apply list_elem_of_lookup_2 in Hx.
Qed.

Lemma quiet_files_of st0 s xs :
  slice_elems (st_files st0) s = Some xs -> quiet_at st0 (files_of s) (fun elems => elems = xs).
Proof.
  intros Hs st Hst. apply (wp_files_of _ _ xs); [|done].
  destruct Hst as (_ & -> & _). done.
Qed.

Lemma quiet_metrics_of st0 s xs :
  slice_elems (st_metrics st0) s = Some xs -> quiet_at st0 (metrics_of s) (fun elems => elems = xs).
Proof.
  intros Hs st Hst. apply (wp_metrics_of _ _ xs); [|done].
  destruct Hst as (_ & _ & ->). done.
Qed.

Lemma quiet_for_each {B} st0 (l : list B) (body : B -> M unit) :
  (forall x, x ∈ l -> quiet_at st0 (body x) (fun _ => True)) ->
  quiet_at st0 (for_each l body) (fun _ => True).
Proof.
  intros Hbody st Hst. eapply wp_mono.
  - apply (wp_for_each l body (same_store st0)); [done|].
    intros x st1 Hx H1. eapply wp_mono; [by apply Hbody|]. by intros u st2 [H2 _].
  - by intros u st' H.
Qed.

Lemma quiet_for_each_break {B} st0 (l : list B) (body : B -> M bool) :
  (forall x, x ∈ l -> quiet_at st0 (body x) (fun _ => True)) ->
  quiet_at st0 (for_each_break l body) (fun _ => True).
Proof.
  intros Hbody st Hst. eapply wp_mono.
  - apply (wp_for_each_break l body (same_store st0)); [done|].
    intros x st1 Hx H1. eapply wp_mono; [by apply Hbody|]. by intros u st2 [H2 _].
  - by intros u st' H.
Qed.

Lemma elem_of_seqZ_zip {B} (l : list B) i x :
  (i, x) ∈ zip (seqZ 0 (Len l)) l -> 0 <= i < Len l /\ x ∈ l.
Proof.
  intros H. split.
  - apply elem_of_zip_l in H. apply elem_of_seqZ in H. lia.
  - by apply elem_of_zip_r in H.
Qed.

Lemma quiet_for_each_indexed {B} st0 (l : list B) (body : Z -> B -> M unit) :
  (forall i x, 0 <= i < Len l -> x ∈ l -> quiet_at st0 (body i x) (fun _ => True)) ->
  quiet_at st0 (for_each_indexed l body) (fun _ => True).
Proof.
  intros Hbody. apply quiet_for_each. intros [i x] Hix.
  apply elem_of_seqZ_zip in Hix as [Hi Hx]. by apply Hbody.
Qed.

Lemma quiet_for_upto st0 (n : Z) (body : Z -> M unit) :
  (forall i, 0 <= i < n -> quiet_at st0 (body i) (fun _ => True)) ->
  quiet_at st0 (for_upto n body) (fun _ => True).
Proof.
  intros Hbody. apply quiet_for_each. intros i Hi.
  apply elem_of_seqZ in Hi. apply Hbody. lia.
Qed.

Lemma quiet_wp {B} st0 (m : M B) (Q : B -> Prop) :
  quiet_at st0 m Q -> wp m st0 (fun b st' => same_store st0 st' /\ Q b).
Proof. intros Hm. apply Hm, same_store_refl. Qed.

Lemma quiet_slice_to st0 s n :
  0 <= n <= Z.of_nat (s_cap s) ->
  quiet_at st0 (slice_to s n)
           (fun shown => shown = {| s_array := s_array s; s_off := s_off s;
                                    s_len := Z.to_nat n; s_cap := s_cap s |}).
Proof.
  intros [Hlo Hhi]. unfold slice_to.
  apply Z.leb_le in Hlo, Hhi. rewrite Hlo, Hhi. by apply quiet_ret.
Qed.

Lemma min_le_l a b : min a b <= a.
Proof. unfold min. destruct (Z.ltb_spec a b); lia. Qed.

Lemma min_le_r a b : min a b <= b.
Proof. unfold min. destruct (Z.ltb_spec a b); lia. Qed.

(** The slice expression [s[:n]] reads the first [n] elements of [s]. *)
Lemma slice_elems_prefix {A} (h : gmap positive (list A)) s xs n :
  slice_elems h s = Some xs -> (n <= s_len s)%nat ->
  slice_elems h {| s_array := s_array s; s_off := s_off s; s_len := n; s_cap := s_cap s |}
  = Some (take n xs).
Proof.
  unfold slice_elems. cbn [s_array s_off s_len]. intros Hs Hn.
  destruct (s_array s) as [l|].
  - destruct (h !! l) as [a|]; [|done]. simpl in *.
    destruct (Nat.leb_spec (s_off s + s_len s) (length a)); [|done].
    injection Hs as <-.
    destruct (Nat.leb_spec (s_off s + n) (length a)); [|lia].
    by rewrite take_take, Nat.min_l.
  - destruct (Nat.eqb_spec (s_len s) 0) as [H0|]; [|done]. injection Hs as <-.
    assert (n = 0)%nat as -> by lia. done.
Qed.

(** A computation that keeps the [AnalysisResult] and every array that
    was there, whatever it adds. *)
Definition framed {B} (m : M B) : Prop :=
  forall st, Valid st -> wp m st (fun _ st' => extends st st').

Lemma framed_bind {B C} (m : M B) (k : B -> M C) :
  framed m -> (forall b, framed (k b)) -> framed (m ≫= k).
Proof.
  intros Hm Hk st HV. apply wp_bind. eapply wp_mono; [by apply Hm|].
  intros b st1 H1. eapply wp_mono; [apply Hk; by apply (extends_Valid st)|].
  intros c st2 H2. by apply (extends_trans st st1 st2).
Qed.

Lemma quiet_framed {B} (m : M B) (Q : B -> Prop) :
  (forall st0, quiet_at st0 m Q) -> framed m.
Proof.
  intros Hm st _. eapply wp_mono; [apply quiet_wp, Hm|].
  intros b st' [H _]. by apply same_store_extends.
Qed.

Lemma framed_Printf style format args : framed (Printf style format args).
Proof. apply (quiet_framed _ (fun _ => True)). intros st0. apply quiet_Printf. Qed.

Lemma framed_Println style args : framed (Println style args).
Proof. apply (quiet_framed _ (fun _ => True)). intros st0. apply quiet_Println. Qed.

Lemma framed_ret {B} (b : B) : framed (mret b).
Proof. apply (quiet_framed _ (fun _ => True)). intros st0. by apply quiet_ret. Qed.

Ltac quiet_prints :=
  repeat (eapply quiet_bind;
          [first [apply quiet_Printf | apply quiet_Println] | intros _ _]).

Section Frame.
Context `{env : GoEnv}.
Context {Language : Type} `{!EqDecision Language} (EnUS : Language).
Context `{translator : !Translator Language}.

Lemma printCategoryStats_quiet st0 issuesByCategory :
  quiet_at st0 (printCategoryStats issuesByCategory) (fun _ => True).
Proof.
  unfold printCategoryStats. destruct (MapLen _ >? 0); [|by apply quiet_ret].
  cbv zeta. set (categories := foldl _ _ _).
  eapply quiet_bind; [|intros _ _; apply quiet_Println].
  apply quiet_for_each_indexed. intros i category Hi _. cbv beta.
  eapply quiet_bind.
  { destruct (0 <? i) eqn:Hpos; [|apply quiet_Printf].
    assert (Hdiv : GoInt.divisor_ok (if Len categories <=? 2 then Len categories else 3) = true).
    { unfold GoInt.divisor_ok. apply Z.ltb_lt in Hpos.
      destruct (Z.leb_spec (Len categories) 2); apply negb_true_iff, Z.eqb_neq; lia. }
    rewrite Hdiv. destruct (_ =? 0); apply quiet_Printf. }
  intros _ _. destruct (Len _ =? 2) eqn:Hparts; [|apply quiet_Printf].
  apply Z.eqb_eq in Hparts.
  eapply quiet_bind; [apply quiet_range_map|]. intros infos _.
  apply quiet_for_each_break. intros entry _. cbv zeta.
  eapply quiet_bind; [apply quiet_index; lia|].
  intros parts0 _. destruct (GoStrings.Contains _ _); [|by apply quiet_ret].
  eapply quiet_bind; [apply quiet_Printf|]. intros _ _.
  eapply quiet_bind; [apply quiet_index; lia|]. intros parts1 _.
  eapply quiet_bind; [apply quiet_Printf|]. intros _ _. by apply quiet_ret.
Qed.

Lemma printDivider_framed : framed printDivider.
Proof. apply framed_Printf. Qed.

Lemma printScoreComment_framed score : framed (printScoreComment score).
Proof.
  unfold printScoreComment. cbv zeta.
  destruct (F64.lt _ _); [apply framed_Printf|].
  destruct (F64.lt _ _); apply framed_Printf.
Qed.

Lemma printSummary_framed level : framed (printSummary level).
Proof.
  apply (quiet_framed _ (fun _ => True)). intros st0. unfold printSummary.
  quiet_prints.
  eapply quiet_bind; [|intros _ _; apply quiet_Println].
  destruct (F64.lt _ _); [apply quiet_Println|].
  destruct (F64.lt _ _); apply quiet_Println.
Qed.

Lemma printMetricItems_framed : framed (printMetricItems EnUS).
Proof.
  intros st _. eapply wp_mono; [apply printMetricItems_spec|].
  intros u st' (Hr & Hf & Hm & _). split; [done|]. split; [by rewrite Hf | done].
Qed.

(** The lines of one file's issues, as [printTopIssues] and
    [printAllFiles] print them: at most [maxIssues] of them are read. *)
Ltac quiet_issues :=
  destruct (Len _ =? 0); [apply quiet_Printf|];
  cbv zeta;
  eapply quiet_bind;
  [ apply quiet_for_upto; intros j Hj;
    eapply quiet_bind;
    [ apply quiet_index
    | intros issue _; quiet_prints; apply quiet_Printf ]
  | intros _ _; destruct (_ && _); [apply quiet_Printf | by apply quiet_ret] ].

Lemma printTopIssues_framed options : framed (printTopIssues options).
Proof.
  intros st [analyzed Han]. unfold printTopIssues.
  apply wp_bind, wp_Printf. apply wp_bind.
  eapply wp_mono; [by apply (getSortedFiles_spec _ analyzed)|].
  intros allFiles st1 (Hres & Hmet & _ & _ & Hsub & Hlen & _ & Helems).
  cbn [add_out st_result st_files st_metrics] in Hres, Hmet, Hsub.
  set (sorted := sort_Slice _ analyzed) in Helems.
  pose proof (slice_elems_length _ _ _ Helems) as Hsorted.
  apply (wp_mono _ _ (fun _ st' => same_store st1 st' /\ True)).
  2:{ intros u st2 [(Hr2 & Hf2 & Hm2) _]. split; [congruence|]. rewrite Hf2, Hm2, Hmet.
      by split. }
  apply (quiet_wp st1 _ (fun _ => True)).
  destruct (SliceLen allFiles =? 0); [apply quiet_Println|].
  eapply quiet_bind; [by apply (quiet_files_of _ _ sorted)|]. intros files ->.
  cbv zeta. apply quiet_for_upto. intros i Hi.
  eapply quiet_bind; [by apply (quiet_files_of _ _ sorted)|]. intros elems ->.
  eapply quiet_bind.
  { apply quiet_index. pose proof (min_le_r (TopFiles options) (SliceLen allFiles)).
    unfold Len, GoInt.len, SliceLen in *. lia. }
  intros f _. quiet_prints.
  eapply quiet_bind; [apply printCategoryStats_quiet|]. intros _ _. quiet_prints.
  eapply quiet_bind.
  { quiet_issues. pose proof (min_le_r (MaxIssues options) (Len (Issues f))). lia. }
  intros _ _. destruct (_ <? _); [apply quiet_Println | by apply quiet_ret].
Qed.

Lemma printAllFiles_framed options : framed (printAllFiles options).
Proof.
  intros st [analyzed Han]. unfold printAllFiles.
  apply wp_bind, wp_Printf. apply wp_bind.
  eapply wp_mono; [by apply (getSortedFiles_spec _ analyzed)|].
  intros files st1 (Hres & Hmet & _ & _ & Hsub & Hlen & Hcap & Helems).
  cbn [add_out st_result st_files st_metrics] in Hres, Hmet, Hsub.
  set (sorted := sort_Slice _ analyzed) in Helems.
  apply (wp_mono _ _ (fun _ st' => same_store st1 st' /\ True)).
  2:{ intros u st2 [(Hr2 & Hf2 & Hm2) _]. split; [congruence|]. rewrite Hf2, Hm2, Hmet.
      by split. }
  apply (quiet_wp st1 _ (fun _ => True)).
  destruct (SliceLen files =? 0); [apply quiet_Println|].
  eapply quiet_bind; [by apply (quiet_files_of _ _ sorted)|]. intros elems ->.
  cbv zeta.
  set (maxFilesToShow := if _ && _ && _ then TopFiles options else SliceLen files).
  assert (Hshow : 0 <= maxFilesToShow <= SliceLen files).
  { unfold maxFilesToShow, SliceLen.
    destruct (negb (Verbose options)); cbn [andb]; [|lia].
    destruct (Z.gtb_spec (TopFiles options) 0); cbn [andb]; [|lia].
    destruct (Z.ltb_spec (TopFiles options) (Z.of_nat (s_len files))); lia. }
  clearbody maxFilesToShow.
  eapply quiet_bind.
  { apply quiet_slice_to. unfold SliceLen in Hshow. lia. }
  intros shown ->.
  eapply quiet_bind.
  { apply (quiet_files_of _ _ (take (Z.to_nat maxFilesToShow) sorted)).
    apply slice_elems_prefix; [done|]. unfold SliceLen in Hshow. lia. }
  intros shownElems ->.
  apply quiet_for_each_indexed. intros i f _ _. cbv beta.
  quiet_prints.
  eapply quiet_bind; [apply printCategoryStats_quiet|]. intros _ _. quiet_prints.
  eapply quiet_bind.
  { quiet_issues. pose proof (min_le_r (MaxIssues options) (Len (Issues f))).
    destruct (negb (Verbose options)); lia. }
  intros _ _. destruct (_ <? _); [apply quiet_Println | by apply quiet_ret].
Qed.

Lemma printVerboseInfo_framed : framed printVerboseInfo.
Proof.
  intros st [analyzed Han]. unfold printVerboseInfo.
  apply wp_bind, wp_Printf. apply wp_bind, wp_Println. apply wp_bind, wp_get_result.
  apply wp_bind, wp_Printf. apply wp_bind, wp_Printf.
  apply wp_bind. unfold getTotalIssues.
  apply wp_bind, wp_get_result. apply wp_bind.
  apply (wp_files_of _ _ analyzed); [exact Han|]. apply wp_ret.
  apply wp_bind, wp_Printf. apply wp_bind, wp_Println.
  apply wp_bind. eapply wp_mono; [apply getSortedMetrics_spec|].
  intros metrics st1 (Hres & Hfiles & _ & _ & Hsub & Helems).
  cbn [add_out st_result st_files st_metrics] in Hres, Hfiles, Hsub.
  apply wp_bind. apply (wp_metrics_of _ _ _ _ Helems). cbv zeta.
  apply (wp_mono _ _ (fun _ st' => same_store st1 st' /\ True)).
  2:{ intros u st2 [(Hr2 & Hf2 & Hm2) _]. split; [congruence|]. rewrite Hf2, Hm2, Hfiles.
      by split. }
  apply (quiet_wp st1 _ (fun _ => True)).
  apply quiet_for_each. intros metric _. quiet_prints. apply quiet_Printf.
Qed.

Lemma GenerateConsoleReport_framed options : framed (GenerateConsoleReport EnUS options).
Proof.
  unfold GenerateConsoleReport. cbv zeta.
  apply framed_bind.
  { apply (quiet_framed _ (fun result => True)). intros st0.
    eapply quiet_mono; [apply quiet_get_result | done]. }
  intros result.
  repeat (apply framed_bind;
          [first [apply printDivider_framed | apply framed_Printf
                 | apply printScoreComment_framed] | intros _]).
  apply framed_bind.
  { destruct (negb _); [|apply framed_ret].
    apply framed_bind; [apply printMetricItems_framed | intros _].
    destruct (Verbose _); [apply printAllFiles_framed | apply printTopIssues_framed]. }
  intros _. apply framed_bind; [apply printSummary_framed | intros _].
  apply framed_bind.
  { destruct (Verbose _); [apply printVerboseInfo_framed | apply framed_ret]. }
  intros _. apply framed_bind; [apply printDivider_framed | intros _].
  apply framed_Println.
Qed.

(** The slice that [getSortedFiles] returns is over an array that was not
    there before the call. *)
Lemma getSortedFiles_fresh st analyzed :
  slice_elems (st_files st) (FilesAnalyzed (st_result st)) = Some analyzed ->
  wp getSortedFiles st (fun s st' =>
    exists l, s_array s = Some l /\ st_files st !! l = None).
Proof.
  intros Han. unfold getSortedFiles. apply wp_bind, wp_get_result.
  apply wp_bind. eapply wp_mono; [apply files_literal_built|].
  intros empty st1 Hb. apply wp_bind.
  assert (Hb' := Hb). destruct Hb' as (Hres & _ & _ & _ & Hsub & _).
  apply (wp_files_of _ _ analyzed); [by apply (slice_elems_mono _ _ _ _ Hsub)|].
  apply wp_bind. eapply wp_mono; [by apply append_files_built|].
  intros worstFiles st2 Hb2. apply wp_bind.
  eapply wp_mono; [by apply sort_files_built|].
  intros u st3 _. apply wp_ret.
  destruct Hb2 as (_ & _ & _ & _ & _ & l & -> & _ & Hnew). by exists l.
Qed.

End Frame.

Section ReadOnly.
Context `{env : GoEnv}.
Context {Language : Type} `{!EqDecision Language} (EnUS : Language).
Context `{translator : !Translator Language}.

(** C6. [GenerateConsoleReport] never mutates the [AnalysisResult] it
    consumes. From every state in which [FilesAnalyzed] is a slice of the
    store that reads [analyzed], and for every [options] (nil too), the
    report returns, and then [TotalFiles], [TotalLines],
    [CodeQualityScore], the [Metrics] map and the slice [FilesAnalyzed] are
    what they were, and [FilesAnalyzed] still reads [analyzed], the same
    elements in their first order; no array that was in the store has
    changed. In particular [getSortedFiles] sorts a copy: the slice it returns
    is over an array that was not in the store before, and [FilesAnalyzed]
    reads [analyzed] after it. *)
Theorem GenerateConsoleReport_keeps_result
    (st : State) (options : option ReportOptions) (analyzed : list FileAnalysisResult) :
  slice_elems (st_files st) (FilesAnalyzed (st_result st)) = Some analyzed ->
  wp (GenerateConsoleReport EnUS options) st (fun _ st' =>
       TotalFiles (st_result st') = TotalFiles (st_result st)
       /\ TotalLines (st_result st') = TotalLines (st_result st)
       /\ CodeQualityScore (st_result st') = CodeQualityScore (st_result st)
       /\ Metrics (st_result st') = Metrics (st_result st)
       /\ FilesAnalyzed (st_result st') = FilesAnalyzed (st_result st)
       /\ slice_elems (st_files st') (FilesAnalyzed (st_result st')) = Some analyzed
       /\ st_files st ⊆ st_files st' /\ st_metrics st ⊆ st_metrics st')
  /\ wp getSortedFiles st (fun worstFiles st' =>
       (exists l, s_array worstFiles = Some l /\ st_files st !! l = None)
       /\ slice_elems (st_files st') worstFiles
          = Some (sort_Slice (fun fi fj => F64.gt (FileScore fi) (FileScore fj)) analyzed)
       /\ st_result st' = st_result st
       /\ slice_elems (st_files st') (FilesAnalyzed (st_result st')) = Some analyzed).
Proof.
  intros Han. split.
  - eapply wp_mono; [apply (GenerateConsoleReport_framed EnUS options st); by exists analyzed|].
    intros u st' (Hres & Hfiles & Hmetrics). cbv beta. rewrite Hres.
    repeat (split; [done|]). split; [|done].
    by apply (slice_elems_mono _ _ _ _ Hfiles).
  - destruct (getSortedFiles_fresh st analyzed Han) as (s & st' & Hrun & Hfresh).
    destruct (getSortedFiles_spec st analyzed Han)
      as (s' & st'' & Hrun' & Hres & _ & _ & _ & Hsub & _ & _ & Helems).
    rewrite Hrun in Hrun'. injection Hrun' as <- <-.
    exists s, st'. split; [done|]. split; [done|]. split; [done|]. split; [done|].
    rewrite Hres. by apply (slice_elems_mono _ _ _ _ Hsub).
Qed.

End ReadOnly.

Lemma GenerateConsoleReport_keeps_result_witness :
  slice_elems (st_files demo_state) (FilesAnalyzed (st_result demo_state))
  = Some [demo_file_a; demo_file_b]
  /\ wp (@GenerateConsoleReport reference_env DemoLanguage _ DemoEnUS key_translator
           (Some {| Verbose := true; TopFiles := 1; MaxIssues := 2; SummaryOnly := false |}))
        demo_state
        (fun _ st' =>
           st_result st' = st_result demo_state
           /\ slice_elems (st_files st') (FilesAnalyzed (st_result st'))
              = Some [demo_file_a; demo_file_b]).
Proof.
  assert (H : slice_elems (st_files demo_state) (FilesAnalyzed (st_result demo_state))
              = Some [demo_file_a; demo_file_b]) by (vm_compute; reflexivity).
  split; [exact H|].
  destruct (@GenerateConsoleReport_keeps_result reference_env DemoLanguage _ DemoEnUS
              key_translator demo_state
              (Some {| Verbose := true; TopFiles := 1; MaxIssues := 2; SummaryOnly := false |})
              _ H) as [(u & st' & Hrun & H1 & H2 & H3 & H4 & H5 & H6 & _) _].
  exists u, st'. split; [exact Hrun|]. split; [|exact H6].
  destruct (st_result st'), (st_result demo_state). cbn in *. congruence.
Defined.

(** On the fixture: the report of the default options runs to its end, and
    the array behind [FilesAnalyzed] then reads as before, [b.go] (0.75)
    still behind [a.go] (0.25). *)
Example GenerateConsoleReport_demo :
  match @GenerateConsoleReport reference_env DemoLanguage _ DemoEnUS key_translator None
          demo_state with
  | Some (_, st') =>
      st_files st' !! 1%positive = st_files demo_state !! 1%positive
      /\ slice_elems (st_files st') (FilesAnalyzed (st_result st'))
         = Some [demo_file_a; demo_file_b]
  | None => False
  end.
Proof. vm_compute. split; reflexivity. Qed.

(** * Further properties of the report *)

(** ** [getQualityLevel] on every score *)

(** What the loop of [getQualityLevel] has found after the indices below
    [n] are visited, from the last down: no entry, or the last one whose
    [MinScore] the score reaches. *)
Lemma getQualityLevel_loop_spec score n level :
  (n <= length QualityLevels)%nat ->
  (getQualityLevel_loop score n level = level
   /\ forall j q, (j < n)%nat -> QualityLevels !! j = Some q ->
                  F64.ge score (MinScore q) = false)
  \/ (exists i, (i < n)%nat
                /\ QualityLevels !! i = Some (getQualityLevel_loop score n level)
                /\ F64.ge score (MinScore (getQualityLevel_loop score n level)) = true
                /\ forall j q, (i < j < n)%nat -> QualityLevels !! j = Some q ->
                               F64.ge score (MinScore q) = false).
Proof.
  induction n as [|k IH]; intros Hn.
  - left. split; [done|]. intros j q Hj. lia.
  - cbn [getQualityLevel_loop].
    destruct (QualityLevels !! k) as [qk|] eqn:Hk.
    2:{ apply lookup_ge_None in Hk. lia. }
    destruct (F64.ge score (MinScore qk)) eqn:Hge.
    + right. exists k. split; [lia|]. split; [done|]. split; [done|].
      intros j q Hj. lia.
    + destruct IH as [[Hl Hnone]|(i & Hi & Hq & Hreach & Habove)]; [lia| |].
      * left. split; [done|]. intros j q Hj Hq.
        destruct (decide (j = k)) as [->|]; [congruence|]. apply (Hnone j); [lia|done].
      * right. exists i. split; [lia|]. split; [done|]. split; [done|].
        intros j q Hj Hq'. destruct (decide (j = k)) as [->|]; [congruence|].
        apply (Habove j); [lia|done].
Qed.

(** The bounds of the table never decrease. *)
Lemma QualityLevels_ascending :
  StronglySorted (fun a b => F64.le (MinScore a) (MinScore b) = true) QualityLevels.
Proof. repeat constructor. Qed.

Lemma StronglySorted_lookup_le {A} (R : A -> A -> Prop) (l : list A) i j x y :
  StronglySorted R l -> (i < j)%nat -> l !! i = Some x -> l !! j = Some y -> R x y.
Proof.
  intros Hl. revert i j. induction Hl as [|a l Hl IH Ha]; intros i j Hij Hx Hy; [done|].
  destruct j as [|j]; [lia|]. destruct i as [|i].
  - injection Hx as <-. cbn in Hy.
    by apply (Forall_lookup_1 _ _ _ _ Ha Hy).
  - cbn in Hx, Hy. apply (IH i j); [lia|done..].
Qed.

(** X1. [getQualityLevel] returns, for every score, the entry of
    [QualityLevels] of the greatest index whose [MinScore] the score
    reaches ([score >= MinScore]), and the first entry when the score
    reaches none (a negative score, or NaN). *)
Theorem getQualityLevel_greatest_index (score : float64) :
  exists i,
    QualityLevels !! i = Some (getQualityLevel score)
    /\ (forall j q, (i < j)%nat -> QualityLevels !! j = Some q ->
                    F64.ge score (MinScore q) = false)
    /\ (F64.ge score (MinScore (getQualityLevel score)) = true
        \/ (i = 0%nat /\ forall q, q ∈ QualityLevels -> F64.ge score (MinScore q) = false)).
Proof.
  unfold getQualityLevel. cbv zeta.
  destruct (getQualityLevel_loop_spec score (length QualityLevels) QualityLevels_0)
    as [[-> Hnone]|(i & Hi & Hq & Hreach & Habove)]; [done| |].
  - exists 0%nat. split; [done|]. split.
    + intros j q _ Hq. apply (Hnone j); [|done]. by apply lookup_lt_Some in Hq.
    + right. split; [done|]. intros q Hq. apply list_elem_of_lookup_1 in Hq as [j Hj].
      apply (Hnone j); [|done]. by apply lookup_lt_Some in Hj.
  - exists i. split; [done|]. split; [|by left].
    intros j q Hj Hq'. apply (Habove j); [|done]. apply lookup_lt_Some in Hq'. lia.
Qed.

Lemma getQualityLevel_loop_monotone s1 s2 n :
  (n <= length QualityLevels)%nat ->
  F64.le s1 s2 = true ->
  F64.le (MinScore (getQualityLevel_loop s1 n QualityLevels_0))
         (MinScore (getQualityLevel_loop s2 n QualityLevels_0)) = true.
Proof.
  intros Hn Hle.
  destruct (getQualityLevel_loop_spec s1 n QualityLevels_0 Hn)
    as [[-> _]|(i1 & Hi1 & Hq1 & Hreach1 & _)];
    destruct (getQualityLevel_loop_spec s2 n QualityLevels_0 Hn)
      as [[Hl2 Hnone2]|(i2 & Hi2 & Hq2 & Hreach2 & Habove2)].
  - by rewrite Hl2.
  - destruct i2 as [|i2]; [by injection Hq2 as <-|].
    apply (StronglySorted_lookup_le _ QualityLevels 0 (S i2) _ _ QualityLevels_ascending);
      [lia|done..].
  - assert (Hreach : F64.ge s2 (MinScore (getQualityLevel_loop s1 n QualityLevels_0)) = true).
    { apply (F64Order.le_trans _ s1); done. }
    by rewrite (Hnone2 i1 _ Hi1 Hq1) in Hreach.
  - assert (Hreach : F64.ge s2 (MinScore (getQualityLevel_loop s1 n QualityLevels_0)) = true).
    { apply (F64Order.le_trans _ s1); done. }
    destruct (lt_eq_lt_dec i1 i2) as [[Hlt|Heq]|Hgt].
    + apply (StronglySorted_lookup_le _ QualityLevels i1 i2 _ _ QualityLevels_ascending);
        done.
    + subst i2. rewrite Hq1 in Hq2. injection Hq2 as <-.
      apply F64Order.le_not_nan in Hreach1 as [Hnan _].
      apply F64Order.le_key; [done..|]. unfold F64Order.key_le. lia.
    + by rewrite (Habove2 i1 _ (conj Hgt Hi1) Hq1) in Hreach.
Qed.

(** X2. [getQualityLevel] is monotone: a score that is not lower gets a
    level whose [MinScore] is not lower. *)
Theorem getQualityLevel_monotone (s1 s2 : float64) :
  F64.le s1 s2 = true ->
  F64.le (MinScore (getQualityLevel s1)) (MinScore (getQualityLevel s2)) = true.
Proof. intros Hle. by apply getQualityLevel_loop_monotone. Qed.

Lemma getQualityLevel_monotone_witness :
  F64.le (F64.of_int 35) (F64.of_int 72) = true
  /\ MinScore (getQualityLevel (F64.of_int 35)) = F64.of_int 30
  /\ MinScore (getQualityLevel (F64.of_int 72)) = F64.of_int 70
  /\ F64.le (F64.of_int 30) (F64.of_int 70) = true.
Proof.
  assert (H : F64.le (F64.of_int 35) (F64.of_int 72) = true) by (vm_compute; reflexivity).
  split; [exact H|]. split; [vm_compute; reflexivity|]. split; [vm_compute; reflexivity|].
  pose proof (getQualityLevel_monotone _ _ H) as Hm.
  assert (E1 : MinScore (getQualityLevel (F64.of_int 35)) = F64.of_int 30) by (vm_compute; reflexivity).
  assert (E2 : MinScore (getQualityLevel (F64.of_int 72)) = F64.of_int 70) by (vm_compute; reflexivity).
  rewrite E1, E2 in Hm. exact Hm.
Defined.

(** ** [shortenPath] *)

Module SplitJoin.

(** The byte [sep] occurs in [s]. *)
Fixpoint has_byte (sep : ascii) (s : string) : bool :=
  match s with
  | EmptyString => false
  | String c s' => Ascii.eqb c sep || has_byte sep s'
  end.

Lemma append_cons c (s t : string) : String c s +:+ t = String c (s +:+ t).
Proof. reflexivity. Qed.

Lemma append_nil (t : string) : EmptyString +:+ t = t.
Proof. reflexivity. Qed.

Lemma append_assoc (a b c : string) : (a +:+ b) +:+ c = a +:+ (b +:+ c).
Proof. induction a as [|x a IH]; [done|]. rewrite !append_cons. by rewrite IH. Qed.

Lemma Split_nonempty s sep : GoStrings.Split s sep <> [].
Proof.
  destruct s as [|c s]; cbn [GoStrings.Split]; [done|].
  destruct (Ascii.eqb c sep); [done|]. by destruct (GoStrings.Split s sep).
Qed.

Lemma Split_sep s sep :
  GoStrings.Split (String sep s) sep = EmptyString :: GoStrings.Split s sep.
Proof. cbn [GoStrings.Split]. by rewrite Ascii.eqb_refl. Qed.

Lemma Join_cons_byte c p ps sep :
  GoStrings.Join (String c p :: ps) sep = String c (GoStrings.Join (p :: ps) sep).
Proof. by destruct ps. Qed.

(** Joining the pieces of a split gives the string back. *)
Lemma Join_Split s sep :
  GoStrings.Join (GoStrings.Split s sep) (String sep EmptyString) = s.
Proof.
  induction s as [|c s IH]; [done|]. cbn [GoStrings.Split].
  destruct (Ascii.eqb_spec c sep) as [->|Hc].
  - pose proof (Split_nonempty s sep) as Hne.
    destruct (GoStrings.Split s sep) as [|p ps]; [done|].
    change (GoStrings.Join (EmptyString :: p :: ps) (String sep EmptyString))
      with (EmptyString +:+ String sep EmptyString
            +:+ GoStrings.Join (p :: ps) (String sep EmptyString)).
    rewrite append_nil, append_cons, append_nil. by rewrite IH.
  - pose proof (Split_nonempty s sep) as Hne.
    destruct (GoStrings.Split s sep) as [|p ps]; [done|].
    rewrite Join_cons_byte. by rewrite IH.
Qed.

Lemma Split_lacks p sep : has_byte sep p = false -> GoStrings.Split p sep = [p].
Proof.
  induction p as [|c p IH]; [done|]. cbn [has_byte GoStrings.Split].
  intros [Hc Hp]%orb_false_iff. rewrite Hc. by rewrite IH.
Qed.

Lemma Split_app_sep p s sep :
  has_byte sep p = false ->
  GoStrings.Split (p +:+ String sep s) sep = p :: GoStrings.Split s sep.
Proof.
  induction p as [|c p IH]; intros Hp.
  - rewrite append_nil. apply Split_sep.
  - cbn [has_byte] in Hp. apply orb_false_iff in Hp as [Hc Hp].
    rewrite append_cons. cbn [GoStrings.Split]. rewrite Hc. by rewrite IH.
Qed.

(** Splitting a join of pieces that hold no separator gives the pieces
    back. *)
Lemma Split_Join parts sep :
  parts <> [] -> Forall (fun p => has_byte sep p = false) parts ->
  GoStrings.Split (GoStrings.Join parts (String sep EmptyString)) sep = parts.
Proof.
  induction parts as [|p parts IH]; [done|]. intros _ Hparts.
  apply Forall_cons in Hparts as [Hp Hparts].
  destruct parts as [|q parts]; [by apply Split_lacks|].
  change (GoStrings.Join (p :: q :: parts) (String sep EmptyString))
    with (p +:+ String sep EmptyString +:+ GoStrings.Join (q :: parts) (String sep EmptyString)).
  rewrite append_cons, append_nil.
  rewrite Split_app_sep by done. by rewrite IH.
Qed.

(** The pieces of a split hold no separator. *)
Lemma Split_pieces s sep : Forall (fun p => has_byte sep p = false) (GoStrings.Split s sep).
Proof.
  induction s as [|c s IH]; [by repeat constructor|]. cbn [GoStrings.Split].
  destruct (Ascii.eqb c sep) eqn:Hc; [by constructor|].
  pose proof (Split_nonempty s sep) as Hne.
  destruct (GoStrings.Split s sep) as [|p ps]; [done|].
  apply Forall_cons in IH as [Hp Hps]. constructor; [|done].
  cbn [has_byte]. by rewrite Hc.
Qed.

Lemma Join_app xs ys (sep : string) :
  xs <> [] -> ys <> [] ->
  GoStrings.Join (xs ++ ys) sep = GoStrings.Join xs sep +:+ sep +:+ GoStrings.Join ys sep.
Proof.
  intros Hxs Hys. induction xs as [|x xs IH]; [done|].
  destruct xs as [|x' xs].
  - destruct ys as [|y ys]; [done|]. reflexivity.
  - change (GoStrings.Join ((x :: x' :: xs) ++ ys) sep)
      with (x +:+ sep +:+ GoStrings.Join ((x' :: xs) ++ ys) sep).
    rewrite IH by done.
    change (GoStrings.Join (x :: x' :: xs) sep)
      with (x +:+ sep +:+ GoStrings.Join (x' :: xs) sep).
    by rewrite !append_assoc.
Qed.

End SplitJoin.

Lemma length_append (a b : string) :
  String.length (a +:+ b) = (String.length a + String.length b)%nat.
Proof.
  induction a as [|c a IH]; [done|].
  rewrite SplitJoin.append_cons. cbn [String.length]. by rewrite IH.
Qed.

(** A path of more than four pieces: what [shortenPath] keeps of it. *)
Lemma shortenPath_long path :
  4 < GoInt.len (GoStrings.Split path "/") ->
  exists front a b c,
    GoStrings.Split path "/" = front ++ [a; b; c]
    /\ (2 <= length front)%nat
    /\ shortenPath path = "./" +:+ GoStrings.Join [a; b; c] "/".
Proof.
  intros Hlong. unfold shortenPath. cbv zeta.
  destruct (Z.leb_spec (GoInt.len (GoStrings.Split path "/")) 4) as [|_]; [lia|].
  unfold GoInt.len in *. set (parts := GoStrings.Split path "/") in *.
  replace (Z.to_nat (Z.of_nat (length parts) - 3)) with (length parts - 3)%nat by lia.
  pose proof (take_drop (length parts - 3) parts) as Hparts.
  pose proof (length_drop parts (length parts - 3)) as Hlen.
  destruct (drop (length parts - 3) parts) as [|a [|b [|c [|d rest]]]];
    cbn [length] in Hlen; try lia.
  exists (take (length parts - 3) parts), a, b, c.
  split; [done|]. split; [|done]. rewrite length_take. lia.
Qed.

Lemma Split_dot_slash s :
  GoStrings.Split ("./" +:+ s) "/" = "." :: GoStrings.Split s "/".
Proof.
  change ("./" +:+ s) with ("." +:+ String "/" s).
  by apply SplitJoin.Split_app_sep.
Qed.

(** X3. [shortenPath] is idempotent: a path that it has shortened has four
    pieces, which it leaves as they are. *)
Theorem shortenPath_idempotent (path : string) :
  shortenPath (shortenPath path) = shortenPath path.
Proof.
  destruct (Z.leb_spec (GoInt.len (GoStrings.Split path "/")) 4) as [Hshort|Hlong].
  - assert (Hp : shortenPath path = path).
    { unfold shortenPath. cbv zeta. apply Z.leb_le in Hshort. by rewrite Hshort. }
    by rewrite !Hp.
  - destruct (shortenPath_long path Hlong) as (front & a & b & c & Hparts & _ & ->).
    pose proof (SplitJoin.Split_pieces path "/") as Hpieces.
    rewrite Hparts in Hpieces. apply Forall_app in Hpieces as [_ Htail].
    set (short := "./" +:+ GoStrings.Join [a; b; c] "/").
    assert (Hsplit : GoStrings.Split short "/" = ["."; a; b; c]).
    { unfold short. rewrite Split_dot_slash. f_equal.
      by apply (SplitJoin.Split_Join [a; b; c] "/"). }
    unfold shortenPath at 1. cbv zeta. by rewrite Hsplit.
Qed.

(** X4. What [shortenPath] returns is the path itself, or [./] and the
    part of the path behind a slash, a part with exactly two slashes (three
    pieces); what is cut off before that slash is not empty, so the result
    is never longer than the path. *)
Theorem shortenPath_keeps_tail (path : string) :
  (shortenPath path = path
   \/ exists front rest,
        front <> EmptyString
        /\ path = front +:+ "/" +:+ rest
        /\ shortenPath path = "./" +:+ rest
        /\ GoInt.len (GoStrings.Split rest "/") = 3)
  /\ StrLen (shortenPath path) <= StrLen path.
Proof.
  destruct (Z.leb_spec (GoInt.len (GoStrings.Split path "/")) 4) as [Hshort|Hlong].
  - assert (Hp : shortenPath path = path).
    { unfold shortenPath. cbv zeta. apply Z.leb_le in Hshort. by rewrite Hshort. }
    rewrite Hp. split; [by left | lia].
  - destruct (shortenPath_long path Hlong) as (front & a & b & c & Hparts & Hfront & ->).
    pose proof (SplitJoin.Split_pieces path "/") as Hpieces.
    rewrite Hparts in Hpieces. apply Forall_app in Hpieces as [_ Htail].
    assert (Hpath : path = GoStrings.Join front "/" +:+ "/" +:+ GoStrings.Join [a; b; c] "/").
    { rewrite <- (SplitJoin.Join_Split path "/") at 1. rewrite Hparts.
      apply SplitJoin.Join_app; [|done]. intros ->. cbn in Hfront. lia. }
    assert (Hne : (1 <= String.length (GoStrings.Join front "/"))%nat).
    { destruct front as [|x [|y front]]; cbn [length] in Hfront; [lia..|].
      change (GoStrings.Join (x :: y :: front) "/")
        with (x +:+ "/" +:+ GoStrings.Join (y :: front) "/").
      rewrite !length_append. cbn [String.length]. lia. }
    split.
    + right. exists (GoStrings.Join front "/"), (GoStrings.Join [a; b; c] "/").
      split; [intros Hempty; rewrite Hempty in Hne; cbn in Hne; lia|].
      split; [done|]. split; [done|].
      by rewrite (SplitJoin.Split_Join [a; b; c] "/").
    + rewrite Hpath. unfold StrLen. rewrite !length_append.
      cbn [String.length]. lia.
Qed.

Example shortenPath_examples :
  shortenPath "pkg/report/internal/deep/a.go" = "./internal/deep/a.go"
  /\ shortenPath "a/b/c/d" = "a/b/c/d"
  /\ shortenPath "/a/b/c/d" = "./b/c/d"
  /\ shortenPath "" = "".
Proof. vm_compute. repeat split. Qed.

(** ** [getTotalIssues] *)

Lemma wrap_add_l a b : GoInt.wrap (GoInt.wrap a + b) = GoInt.wrap (a + b).
Proof.
  unfold GoInt.wrap. f_equal.
  replace ((a + 2 ^ 63) mod 2 ^ 64 - 2 ^ 63 + b + 2 ^ 63) with ((a + 2 ^ 63) mod 2 ^ 64 + b) by lia.
  rewrite Zplus_mod_idemp_l. f_equal. lia.
Qed.

(** All the issues of the files, one list. *)
Definition all_issues (files : list FileAnalysisResult) : list string :=
  concat (Issues <$> files).

Lemma total_issues_fold files : forall acc,
  foldl (fun total file => GoInt.add total (Len (Issues file))) (GoInt.wrap acc) files
  = GoInt.wrap (acc + Z.of_nat (length (all_issues files))).
Proof.
  unfold all_issues.
  induction files as [|file files IH]; intros acc; cbn [foldl fmap list_fmap concat length].
  - f_equal. lia.
  - unfold GoInt.add at 2. rewrite wrap_add_l, IH. f_equal.
    rewrite length_app. unfold Len, GoInt.len. lia.
Qed.

(** X5. [getTotalIssues] returns the number of issues of all the files of
    [FilesAnalyzed] together, as an [int] (the sum wraps around; below
    2^63 issues it is the number itself), and it changes nothing. *)
Theorem getTotalIssues_counts_all (st : State) (analyzed : list FileAnalysisResult) :
  slice_elems (st_files st) (FilesAnalyzed (st_result st)) = Some analyzed ->
  wp getTotalIssues st (fun total st' =>
    st' = st
    /\ total = GoInt.wrap (Z.of_nat (length (all_issues analyzed)))
    /\ (Z.of_nat (length (all_issues analyzed)) <= GoInt.max_int ->
        total = Z.of_nat (length (all_issues analyzed)))).
Proof.
  intros Han. unfold getTotalIssues.
  apply wp_bind, wp_get_result. apply wp_bind.
  apply (wp_files_of _ _ analyzed); [done|]. apply wp_ret.
  split; [done|].
  assert (Htotal : foldl (fun total file => GoInt.add total (Len (Issues file))) 0 analyzed
                   = GoInt.wrap (Z.of_nat (length (all_issues analyzed)))).
  { change 0 with (GoInt.wrap 0) at 1. by rewrite total_issues_fold. }
  split; [done|]. intros Hfits. rewrite Htotal.
  apply F64Round.wrap_small. unfold GoInt.min_int. lia.
Qed.

Lemma getTotalIssues_counts_all_witness :
  slice_elems (st_files demo_state) (FilesAnalyzed (st_result demo_state))
  = Some [demo_file_a; demo_file_b]
  /\ wp getTotalIssues demo_state (fun total st' => st' = demo_state /\ total = 3).
Proof.
  assert (H : slice_elems (st_files demo_state) (FilesAnalyzed (st_result demo_state))
              = Some [demo_file_a; demo_file_b]) by (vm_compute; reflexivity).
  split; [exact H|].
  destruct (getTotalIssues_counts_all demo_state _ H) as (total & st' & Hrun & Hst & Htotal & _).
  exists total, st'. split; [exact Hrun|]. split; [exact Hst|].
  rewrite Htotal. vm_compute. reflexivity.
Defined.

(** ** [categorizeIssues] and the order of the issues *)

Section CountsOrder.
Context `{env : GoEnv}.

Lemma increment_comm c1 c2 (m : gmap string Z) :
  increment c1 (increment c2 m) = increment c2 (increment c1 m).
Proof.
  unfold increment. destruct (decide (c1 = c2)) as [->|Hne]; [done|].
  rewrite !lookup_insert_ne by done. by apply insert_insert_ne.
Qed.

Lemma counts_permutation issues1 issues2 :
  issues1 ≡ₚ issues2 ->
  forall m : gmap string Z,
    foldl (fun categories issue => increment (classify issue) categories) m issues1
    = foldl (fun categories issue => increment (classify issue) categories) m issues2.
Proof.
  induction 1 as [|x l1 l2 _ IH|x y l|l1 l2 l3 _ IH1 _ IH2]; intros m; cbn [foldl].
  - done.
  - apply IH.
  - by rewrite increment_comm.
  - by rewrite IH1, IH2.
Qed.

(** X6. The counts of [categorizeIssues] do not depend on the order of
    the issues. *)
Theorem categorizeIssues_permutation (issues1 issues2 : list string) :
  issues1 ≡ₚ issues2 -> categorizeIssues issues1 = categorizeIssues issues2.
Proof.
  intros Hperm. rewrite !categorizeIssues_fold. f_equal. by apply counts_permutation.
Qed.

End CountsOrder.

Lemma categorizeIssues_permutation_witness :
  ["bad naming: x"; "odd"; "Function run has complexity 12"]
    ≡ₚ ["Function run has complexity 12"; "bad naming: x"; "odd"]
  /\ @categorizeIssues reference_env ["bad naming: x"; "odd"; "Function run has complexity 12"]
     = @categorizeIssues reference_env ["Function run has complexity 12"; "bad naming: x"; "odd"].
Proof.
  assert (H : ["bad naming: x"; "odd"; "Function run has complexity 12"]
                ≡ₚ ["Function run has complexity 12"; "bad naming: x"; "odd"]).
  { apply (Permutation_app_comm ["bad naming: x"; "odd"] ["Function run has complexity 12"]). }
  split; [exact H|]. exact (@categorizeIssues_permutation reference_env _ _ H).
Defined.

(** ** A report without files, and a report of the summary alone *)

Section EdgeReports.
Context `{env : GoEnv}.
Context {Language : Type} `{!EqDecision Language} (EnUS : Language).
Context `{translator : !Translator Language}.

(** X7. Without files [printTopIssues] prints its heading and the line
    that there are no issues, nothing more. *)
Theorem printTopIssues_no_files (options : ReportOptions) (st : State) :
  slice_elems (st_files st) (FilesAnalyzed (st_result st)) = Some [] ->
  wp (printTopIssues options) st (fun _ st' =>
    st_out st'
    = st_out st
      ++ [EvPrintf (Some sectionStyle) (nl +:+ "◆ %s" +:+ nl +:+ nl)
                   [VString (Translate "report.worst_files" [])];
          EvPrintln (Some successStyle)
                    [VString ("  🎉 " +:+ Translate "report.no_issues" [])]]).
Proof.
  intros Han. unfold printTopIssues.
  apply wp_bind, wp_Printf. apply wp_bind.
  eapply wp_mono; [by apply (getSortedFiles_spec _ [])|].
  intros allFiles st1 (_ & _ & Hout & _ & _ & Hlen & _). cbv beta.
  unfold SliceLen. rewrite Hlen. cbn [length Z.of_nat Z.eqb].
  apply wp_Println. cbn [add_out st_out] in *. rewrite Hout. by rewrite <- app_assoc.
Qed.

(** X8. Without files [printAllFiles] prints its heading and the line
    that no files were found, nothing more. *)
Theorem printAllFiles_no_files (options : ReportOptions) (st : State) :
  slice_elems (st_files st) (FilesAnalyzed (st_result st)) = Some [] ->
  wp (printAllFiles options) st (fun _ st' =>
    st_out st'
    = st_out st
      ++ [EvPrintf (Some sectionStyle) (nl +:+ "◆ %s" +:+ nl +:+ nl)
                   [VString (Translate "verbose.all_files" [])];
          EvPrintln (Some successStyle)
                    [VString ("  " +:+ Translate "verbose.no_files_found" [])]]).
Proof.
  intros Han. unfold printAllFiles.
  apply wp_bind, wp_Printf. apply wp_bind.
  eapply wp_mono; [by apply (getSortedFiles_spec _ [])|].
  intros allFiles st1 (_ & _ & Hout & _ & _ & Hlen & _). cbv beta.
  unfold SliceLen. rewrite Hlen. cbn [length Z.of_nat Z.eqb].
  apply wp_Println. cbn [add_out st_out] in *. rewrite Hout. by rewrite <- app_assoc.
Qed.

(** X9. With [SummaryOnly] and without [Verbose] the report reads neither
    the metrics nor the files: it allocates nothing, starts no loop over a
    map and cannot panic, whatever the store holds; it prints eighteen
    items, the title block, the score and its level, the summary and the
    closing rule. *)
Theorem GenerateConsoleReport_summary_only (options : ReportOptions) (st : State) :
  SummaryOnly options = true -> Verbose options = false ->
  wp (GenerateConsoleReport EnUS (Some options)) st (fun _ st' =>
    st_result st' = st_result st /\ st_files st' = st_files st
    /\ st_metrics st' = st_metrics st /\ st_ranges st' = st_ranges st
    /\ exists new, st_out st' = st_out st ++ new /\ length new = 18%nat).
Proof.
  intros Hsummary Hverbose. unfold GenerateConsoleReport. cbv zeta.
  change (default DefaultReportOptions (Some options)) with options.
  rewrite Hsummary, Hverbose. cbn [negb].
  unfold printDivider, printScoreComment, printSummary. cbv zeta.
  apply wp_bind, wp_get_result.
  do 6 (apply wp_bind, wp_Printf).
  apply wp_bind.
  destruct (F64.lt _ _); [|destruct (F64.lt _ _)];
    (apply wp_Printf;
     do 3 (apply wp_bind, wp_Printf);
     apply wp_bind, wp_ret;
     apply wp_bind;
     do 4 (apply wp_bind, wp_Printf);
     apply wp_bind;
     (destruct (F64.lt _ _); [|destruct (F64.lt _ _)]);
     (apply wp_Println; apply wp_Println;
      apply wp_bind, wp_ret; apply wp_bind, wp_Printf; apply wp_Println;
      cbn [add_out st_result st_files st_metrics st_ranges st_out];
      (repeat (split; [done|]));
      (eexists; split; [by rewrite <- !app_assoc | reflexivity]))).
Qed.

End EdgeReports.

(** ** What a block prints

    [emits st0 m Q]: run from a state with the store of [st0], [m] does
    not panic, leaves the store as it is, and returns a value [b] having
    printed [new], with [Q b new]. *)
Definition emits {B} (st0 : State) (m : M B) (Q : B -> list Event -> Prop) : Prop :=
  forall st, same_store st0 st ->
    wp m st (fun b st' =>
      same_store st0 st' /\ exists new, st_out st' = st_out st ++ new /\ Q b new).

Lemma emits_ret {B} st0 (b : B) (Q : B -> list Event -> Prop) :
  Q b [] -> emits st0 (mret b) Q.
Proof.
  intros HQ st Hst. apply wp_ret. split; [done|]. exists []. by rewrite app_nil_r.
Qed.

Lemma emits_bind {B C} st0 (m : M B) (k : B -> M C)
    (P : B -> list Event -> Prop) (Q : C -> list Event -> Prop) :
  emits st0 m P ->
  (forall b new1, P b new1 -> emits st0 (k b) (fun c new2 => Q c (new1 ++ new2))) ->
  emits st0 (m ≫= k) Q.
Proof.
  intros Hm Hk st Hst. apply wp_bind. eapply wp_mono; [by apply Hm|].
  intros b st1 (Hst1 & new1 & Hout1 & HP). cbv beta.
  eapply wp_mono; [by apply (Hk b new1 HP)|].
  intros c st2 (Hst2 & new2 & Hout2 & HQ). cbv beta in *. split; [done|].
  exists (new1 ++ new2). split; [|done]. by rewrite Hout2, Hout1, app_assoc.
Qed.

Lemma emits_mono {B} st0 (m : M B) (P Q : B -> list Event -> Prop) :
  emits st0 m P -> (forall b new, P b new -> Q b new) -> emits st0 m Q.
Proof.
  intros Hm Himp st Hst. eapply wp_mono; [by apply Hm|].
  intros b st1 (Hst1 & new & Hout & HP). split; [done|]. exists new. auto.
Qed.

Lemma emits_Printf st0 style format args (Q : unit -> list Event -> Prop) :
  Q tt [EvPrintf style format args] -> emits st0 (Printf style format args) Q.
Proof.
  intros HQ st Hst. apply wp_Printf. split.
  - apply (same_store_trans _ st); [done | apply same_store_add_out].
  - by eexists.
Qed.

Lemma emits_Println st0 style args (Q : unit -> list Event -> Prop) :
  Q tt [EvPrintln style args] -> emits st0 (Println style args) Q.
Proof.
  intros HQ st Hst. apply wp_Println. split.
  - apply (same_store_trans _ st); [done | apply same_store_add_out].
  - by eexists.
Qed.

(** A computation that prints nothing. *)
Lemma quiet_emits {B} st0 (m : M B) (V : B -> Prop) :
  (forall st, same_store st0 st ->
     wp m st (fun b st' => same_store st0 st' /\ st_out st' = st_out st /\ V b)) ->
  emits st0 m (fun b new => new = [] /\ V b).
Proof.
  intros Hm st Hst. eapply wp_mono; [by apply Hm|].
  intros b st' (Hst' & Hout & HV). split; [done|]. exists []. by rewrite app_nil_r.
Qed.

Lemma emits_index {B} st0 (l : list B) (i : Z) :
  0 <= i < Len l ->
  emits st0 (index l i) (fun x new => new = [] /\ l !! Z.to_nat i = Some x).
Proof.
  intros Hi. apply quiet_emits. intros st Hst. apply wp_index; [done|]. by intros x Hx.
Qed.

Lemma emits_files_of st0 s xs :
  slice_elems (st_files st0) s = Some xs ->
  emits st0 (files_of s) (fun elems new => new = [] /\ elems = xs).
Proof.
  intros Hs. apply quiet_emits. intros st Hst. apply (wp_files_of _ _ xs); [|done].
  destruct Hst as (_ & -> & _). done.
Qed.

Lemma emits_range_map `{env : GoEnv} {V} st0 (m : gmap string V) :
  emits st0 (range_map m) (fun _ new => new = []).
Proof.
  intros st Hst. eexists _, _. split; [reflexivity|]. split.
  - apply (same_store_trans _ st); [done | apply same_store_tick].
  - exists []. by rewrite app_nil_r.
Qed.

(** A loop prints what its rounds print, one after the other. *)
Lemma emits_for_each {B} st0 (l : list B) (body : B -> M unit)
    (R : B -> list Event -> Prop) :
  (forall x, x ∈ l -> emits st0 (body x) (fun _ new => R x new)) ->
  emits st0 (for_each l body) (fun _ new => exists news, new = concat news /\ Forall2 R l news).
Proof.
  induction l as [|x l IH]; intros Hbody; cbn [for_each].
  - apply emits_ret. exists []. by split; [|constructor].
  - eapply emits_bind; [apply Hbody; by left|].
    intros u new1 HR. cbv beta in HR.
    eapply emits_mono; [apply IH; intros y Hy; apply Hbody; by right|].
    intros u' new (news & -> & Hnews). exists (new1 :: news). by split; [|constructor].
Qed.

(** ** Blocks that print only items of one kind *)

Definition emits_all {B} (st0 : State) (P : Event -> Prop) (m : M B) (V : B -> Prop) : Prop :=
  emits st0 m (fun b new => V b /\ Forall P new).

Lemma all_ret {B} st0 P (b : B) (V : B -> Prop) : V b -> emits_all st0 P (mret b) V.
Proof. intros HV. apply emits_ret. by split. Qed.

Lemma all_bind {B C} st0 P (m : M B) (k : B -> M C) (V : B -> Prop) (W : C -> Prop) :
  emits_all st0 P m V -> (forall b, V b -> emits_all st0 P (k b) W) ->
  emits_all st0 P (m ≫= k) W.
Proof.
  intros Hm Hk. eapply emits_bind; [exact Hm|].
  intros b new1 [HV H1]. eapply emits_mono; [by apply Hk|].
  intros c new2 [HW H2]. split; [done|]. by apply Forall_app.
Qed.

Lemma all_Printf st0 (P : Event -> Prop) style format args :
  P (EvPrintf style format args) -> emits_all st0 P (Printf style format args) (fun _ => True).
Proof. intros He. apply emits_Printf. split; [done|]. by constructor. Qed.

Lemma all_Println st0 (P : Event -> Prop) style args :
  P (EvPrintln style args) -> emits_all st0 P (Println style args) (fun _ => True).
Proof. intros He. apply emits_Println. split; [done|]. by constructor. Qed.

Lemma all_quiet {B} st0 P (m : M B) (V : B -> Prop) :
  emits st0 m (fun b new => new = [] /\ V b) -> emits_all st0 P m V.
Proof. intros Hm. eapply emits_mono; [exact Hm|]. intros b new [-> HV]. by split. Qed.

Lemma all_for_each {B} st0 P (l : list B) (body : B -> M unit) :
  (forall x, x ∈ l -> emits_all st0 P (body x) (fun _ => True)) ->
  emits_all st0 P (for_each l body) (fun _ => True).
Proof.
  intros Hbody. eapply emits_mono.
  - apply (emits_for_each st0 l body (fun _ new => Forall P new)).
    intros x Hx. eapply emits_mono; [by apply Hbody|]. by intros u new [_ H].
  - intros u new (news & -> & Hnews). split; [done|].
    apply Forall_concat. clear Hbody. induction Hnews; by constructor.
Qed.

Lemma all_for_each_break {B} st0 P (l : list B) (body : B -> M bool) :
  (forall x, x ∈ l -> emits_all st0 P (body x) (fun _ => True)) ->
  emits_all st0 P (for_each_break l body) (fun _ => True).
Proof.
  induction l as [|x l IH]; intros Hbody; cbn [for_each_break].
  - by apply all_ret.
  - eapply all_bind; [apply Hbody; by left|]. intros [] _; [by apply all_ret|].
    apply IH. intros y Hy. apply Hbody. by right.
Qed.

Lemma all_for_each_indexed {B} st0 P (l : list B) (body : Z -> B -> M unit) :
  (forall i x, 0 <= i < Len l -> x ∈ l -> emits_all st0 P (body i x) (fun _ => True)) ->
  emits_all st0 P (for_each_indexed l body) (fun _ => True).
Proof.
  intros Hbody. apply all_for_each. intros [i x] Hix.
  apply elem_of_seqZ_zip in Hix as [Hi Hx]. by apply Hbody.
Qed.

Lemma all_for_upto st0 P (n : Z) (body : Z -> M unit) :
  (forall i, 0 <= i < n -> emits_all st0 P (body i) (fun _ => True)) ->
  emits_all st0 P (for_upto n body) (fun _ => True).
Proof.
  intros Hbody. apply all_for_each. intros i Hi.
  apply elem_of_seqZ in Hi. apply Hbody. lia.
Qed.

(** ** The files that a report lists *)

(** The line of a file in [printTopIssues] and [printAllFiles]: its
    shortened path, padded to a width; no other item of the two has its
    format. *)
Definition is_file_line (e : Event) : bool :=
  match e with
  | EvPrintf _ format _ => String.eqb format "%-*s"
  | EvPrintln _ _ => false
  end.

Definition file_line (width : Z) (f : FileAnalysisResult) : Event :=
  EvPrintf (Some fileStyle) "%-*s" [VInt width; VString (shortenPath (FilePath f))].

Definition file_lines (out : list Event) : list Event := List.filter is_file_line out.

Definition other_item (e : Event) : Prop := is_file_line e = false.

Lemma file_lines_other new : Forall other_item new -> file_lines new = [].
Proof.
  induction 1 as [|e new He _ IH]; [done|]. unfold file_lines in *. cbn [List.filter].
  unfold other_item in He. by rewrite He.
Qed.

Lemma file_lines_cons_other e new :
  is_file_line e = false -> file_lines (e :: new) = file_lines new.
Proof. intros He. unfold file_lines. cbn [List.filter]. by rewrite He. Qed.

Lemma file_lines_cons_line e new :
  is_file_line e = true -> file_lines (e :: new) = e :: file_lines new.
Proof. intros He. unfold file_lines. cbn [List.filter]. by rewrite He. Qed.

(** Rounds that print one file line each, for the files of a list in its
    order, print the file lines of the list. *)
Lemma file_lines_rounds {B} (g : B -> Event) (l : list B) (news : list (list Event)) :
  Forall2 (fun x new => file_lines new = [g x]) l news ->
  file_lines (concat news) = g <$> l.
Proof.
  induction 1 as [|x new l news Hx _ IH]; [done|].
  cbn [concat fmap list_fmap]. unfold file_lines in *.
  rewrite List.filter_app, Hx, IH. done.
Qed.

Lemma file_lines_upto width (sorted : list FileAnalysisResult) (n : nat) :
  forall news,
    Forall2 (fun i new => exists f, sorted !! Z.to_nat i = Some f
                                    /\ file_lines new = [file_line width f])
            (seqZ 0 (Z.of_nat n)) news ->
    file_lines (concat news) = file_line width <$> take n sorted.
Proof.
  induction n as [|n IH]; intros news Hnews.
  - apply Forall2_nil_inv_l in Hnews as ->. by rewrite take_0.
  - rewrite seqZ_S in Hnews.
    apply Forall2_app_inv_l in Hnews as (news1 & news2 & H1 & H2 & ->).
    apply Forall2_cons_inv_l in H2 as (new & rest & (f & Hf & Hnew) & Hrest & ->).
    apply Forall2_nil_inv_l in Hrest as ->.
    rewrite concat_app. unfold file_lines in *. rewrite List.filter_app, (IH _ H1).
    cbn [concat]. rewrite app_nil_r, Hnew.
    replace (Z.to_nat (0 + Z.of_nat n)) with n in Hf by lia.
    rewrite (take_S_r _ _ _ Hf). by rewrite fmap_app.
Qed.

Ltac all_prints :=
  repeat (eapply all_bind;
          [first [apply all_Printf | apply all_Println]; reflexivity | intros _ _]).

(** The lines of one file's issues print no file line. *)
Ltac all_issues_block :=
  destruct (Len _ =? 0); [apply all_Printf; reflexivity|];
  cbv zeta;
  eapply all_bind;
  [ apply all_for_upto; intros j Hj;
    eapply all_bind;
    [ apply all_quiet, emits_index
    | intros issue _; all_prints; apply all_Printf; reflexivity ]
  | intros _ _; destruct (_ && _); [apply all_Printf; reflexivity | by apply all_ret] ].

Section FileLists.
Context `{env : GoEnv}.
Context {Language : Type} `{!EqDecision Language} (EnUS : Language).
Context `{translator : !Translator Language}.

Lemma printCategoryStats_other st0 issuesByCategory :
  emits_all st0 other_item (printCategoryStats issuesByCategory) (fun _ => True).
Proof.
  unfold printCategoryStats. destruct (MapLen _ >? 0); [|by apply all_ret].
  cbv zeta. set (categories := foldl _ _ _).
  eapply all_bind; [|intros _ _; by apply all_Println].
  apply all_for_each_indexed. intros i category Hi _. cbv beta.
  eapply all_bind.
  { destruct (0 <? i) eqn:Hpos; [|by apply all_Printf].
    assert (Hdiv : GoInt.divisor_ok (if Len categories <=? 2 then Len categories else 3) = true).
    { unfold GoInt.divisor_ok. apply Z.ltb_lt in Hpos.
      destruct (Z.leb_spec (Len categories) 2); apply negb_true_iff, Z.eqb_neq; lia. }
    rewrite Hdiv. destruct (_ =? 0); by apply all_Printf. }
  intros _ _. destruct (Len _ =? 2) eqn:Hparts; [|by apply all_Printf].
  apply Z.eqb_eq in Hparts.
  eapply all_bind.
  { apply all_quiet. eapply emits_mono; [apply emits_range_map|].
    intros entries new ->. split; [done | exact I]. }
  intros infos _.
  apply all_for_each_break. intros entry _. cbv zeta.
  eapply all_bind; [apply all_quiet, emits_index; lia|].
  intros parts0 _. destruct (GoStrings.Contains _ _); [|by apply all_ret].
  eapply all_bind; [by apply all_Printf|]. intros _ _.
  eapply all_bind; [apply all_quiet, emits_index; lia|]. intros parts1 _.
  eapply all_bind; [by apply all_Printf|]. intros _ _. by apply all_ret.
Qed.

Lemma emits_wp {B} st0 (m : M B) (Q : B -> list Event -> Prop) :
  emits st0 m Q ->
  wp m st0 (fun b st' =>
    same_store st0 st' /\ exists new, st_out st' = st_out st0 ++ new /\ Q b new).
Proof. intros Hm. apply Hm, same_store_refl. Qed.

Lemma all_emits {B} st0 P (m : M B) (V : B -> Prop) (Q : B -> list Event -> Prop) :
  emits_all st0 P m V -> (forall b new, V b -> Forall P new -> Q b new) -> emits st0 m Q.
Proof. intros Hm HQ. eapply emits_mono; [exact Hm|]. intros b new [HV HP]. by apply HQ. Qed.

Lemma emits_Printf_then {C} st0 style format args (k : unit -> M C)
    (Q : C -> list Event -> Prop) :
  emits st0 (k tt) (fun c new => Q c (EvPrintf style format args :: new)) ->
  emits st0 (Printf style format args ≫= k) Q.
Proof.
  intros Hk. eapply emits_bind; [apply (emits_Printf _ _ _ _ (fun u new => u = tt /\ new = [EvPrintf style format args])); by split|].
  intros u new1 [-> ->]. exact Hk.
Qed.

(** The width that the paths are padded to: the longest shortened path,
    60 at most, and 2. *)
Lemma path_width_bounds (files : list FileAnalysisResult) :
  2 <= GoInt.add (min (foldl (fun maxPathLen file =>
                   let pathLen := StrLen (shortenPath (FilePath file)) in
                   if pathLen >? maxPathLen then pathLen else maxPathLen) 0 files) 60) 2
    <= 62.
Proof.
  assert (Hfold : forall acc, 0 <= acc ->
            0 <= foldl (fun maxPathLen file =>
                   let pathLen := StrLen (shortenPath (FilePath file)) in
                   if pathLen >? maxPathLen then pathLen else maxPathLen) acc files).
  { induction files as [|file files IH]; intros acc Hacc; cbn [foldl]; [done|].
    apply IH. cbv zeta. destruct (Z.gtb_spec (StrLen (shortenPath (FilePath file))) acc); lia. }
  specialize (Hfold 0 ltac:(lia)).
  set (longest := foldl _ 0 files) in *.
  unfold GoInt.add. pose proof (min_le_r longest 60).
  assert (0 <= min longest 60) by (unfold min; destruct (Z.ltb_spec longest 60); lia).
  rewrite F64Round.wrap_small; unfold GoInt.min_int, GoInt.max_int; lia.
Qed.

(** X10. [printTopIssues] lists the first [min(TopFiles, n)] files of the
    copy of [FilesAnalyzed] that [getSortedFiles] has sorted by descending
    score, in that order, each under its shortened path: the worst files,
    and none when [TopFiles] is not positive. The paths are padded to a
    width from 2 to 62. *)
Theorem printTopIssues_lists_worst_files
    (options : ReportOptions) (st : State) (analyzed : list FileAnalysisResult) :
  slice_elems (st_files st) (FilesAnalyzed (st_result st)) = Some analyzed ->
  wp (printTopIssues options) st (fun _ st' =>
    exists new width,
      st_out st' = st_out st ++ new
      /\ 2 <= width <= 62
      /\ file_lines new
         = file_line width
             <$> take (Z.to_nat (min (TopFiles options) (Len analyzed)))
                      (sort_Slice (fun fi fj => F64.gt (FileScore fi) (FileScore fj))
                                  analyzed)).
Proof.
  intros Han. unfold printTopIssues.
  apply wp_bind, wp_Printf. apply wp_bind.
  eapply wp_mono; [by apply (getSortedFiles_spec _ analyzed)|].
  intros allFiles st1 (_ & _ & Hout & _ & _ & Hlen & _ & Helems).
  cbn [add_out st_out] in Hout.
  set (sorted := sort_Slice _ analyzed) in *.
  pose proof (slice_elems_length _ _ _ Helems) as Hsorted.
  assert (Hn : SliceLen allFiles = Len analyzed).
  { unfold SliceLen, Len, GoInt.len. by rewrite Hlen. }
  set (width := GoInt.add (min (foldl (fun maxPathLen file =>
                   let pathLen := StrLen (shortenPath (FilePath file)) in
                   if pathLen >? maxPathLen then pathLen else maxPathLen) 0 sorted) 60) 2).
  set (k := Z.to_nat (min (TopFiles options) (Len analyzed))).
  apply (wp_mono _ _ (fun _ st' =>
           same_store st1 st'
           /\ exists new, st_out st' = st_out st1 ++ new
                          /\ file_lines new = file_line width <$> take k sorted)).
  2:{ intros u st2 (_ & new & Hout2 & Hlines). eexists (_ :: new), width. split.
      - rewrite Hout2, Hout. by rewrite <- app_assoc.
      - split; [apply path_width_bounds|]. by rewrite file_lines_cons_other. }
  apply emits_wp.
  destruct (SliceLen allFiles =? 0) eqn:Hzero.
  - apply Z.eqb_eq in Hzero. apply emits_Println.
    rewrite file_lines_cons_other by reflexivity.
    assert (sorted = []) as ->.
    { apply length_zero_iff_nil. unfold SliceLen in Hzero. lia. }
    by rewrite take_nil.
  - eapply emits_bind; [by apply (emits_files_of _ _ sorted)|].
    intros files new0 [-> ->]. cbv zeta. cbn [app]. fold width.
    rewrite Hn. unfold for_upto.
    assert (Hseq : seqZ 0 (min (TopFiles options) (Len analyzed)) = seqZ 0 (Z.of_nat k)).
    { unfold seqZ, k. by rewrite Nat2Z.id. }
    eapply emits_mono.
    { apply (emits_for_each st1 _ _
               (fun i new => exists f, sorted !! Z.to_nat i = Some f
                                       /\ file_lines new = [file_line width f])).
      intros i Hi. apply elem_of_seqZ in Hi.
      eapply emits_bind; [by apply (emits_files_of _ _ sorted)|].
      intros elems new1 [-> ->]. cbn [app].
      eapply emits_bind.
      { apply emits_index. pose proof (min_le_r (TopFiles options) (Len analyzed)).
        unfold Len, GoInt.len in *. lia. }
      intros f new1 [-> Hf]. cbn [app].
      do 3 apply emits_Printf_then.
      apply (all_emits _ other_item _ (fun _ => True)).
      2:{ intros u4 new4 _ Hother. exists f. split; [done|].
          rewrite !file_lines_cons_other by reflexivity.
          rewrite file_lines_cons_line by reflexivity.
          by rewrite file_lines_other. }
      all_prints.
      eapply all_bind; [apply printCategoryStats_other|]. intros _ _. all_prints.
      eapply all_bind.
      { all_issues_block. pose proof (min_le_r (MaxIssues options) (Len (Issues f))). lia. }
      intros _ _. destruct (_ <? _); [by apply all_Println | by apply all_ret]. }
    intros u new (news & -> & Hnews). cbv beta.
    rewrite Hseq in Hnews. by apply file_lines_upto.
Qed.

Lemma emits_slice_to st0 s n :
  0 <= n <= Z.of_nat (s_cap s) ->
  emits st0 (slice_to s n)
        (fun shown new => new = []
           /\ shown = {| s_array := s_array s; s_off := s_off s;
                         s_len := Z.to_nat n; s_cap := s_cap s |}).
Proof.
  intros [Hlo Hhi]. unfold slice_to.
  apply Z.leb_le in Hlo, Hhi. rewrite Hlo, Hhi. by apply emits_ret.
Qed.

(** X11. [printAllFiles] lists the files of the copy of [FilesAnalyzed]
    sorted by descending score, in that order: the first [TopFiles] of
    them when [Verbose] is unset and [TopFiles] is positive and below
    their number, and all of them otherwise; with [Verbose], as
    [GenerateConsoleReport] calls it, all of them whatever [TopFiles]. The
    paths are padded to a width from 2 to 62. *)
Theorem printAllFiles_lists_files
    (options : ReportOptions) (st : State) (analyzed : list FileAnalysisResult) :
  slice_elems (st_files st) (FilesAnalyzed (st_result st)) = Some analyzed ->
  wp (printAllFiles options) st (fun _ st' =>
    exists new width,
      let sorted := sort_Slice (fun fi fj => F64.gt (FileScore fi) (FileScore fj)) analyzed in
      let shown :=
        if negb (Verbose options) && (TopFiles options >? 0)
           && (TopFiles options <? Len analyzed)
        then TopFiles options else Len analyzed in
      st_out st' = st_out st ++ new
      /\ 2 <= width <= 62
      /\ file_lines new = file_line width <$> take (Z.to_nat shown) sorted
      /\ (Verbose options = true -> file_lines new = file_line width <$> sorted)).
Proof.
  intros Han. unfold printAllFiles.
  apply wp_bind, wp_Printf. apply wp_bind.
  eapply wp_mono; [by apply (getSortedFiles_spec _ analyzed)|].
  intros files st1 (_ & _ & Hout & _ & _ & Hlen & Hcap & Helems).
  cbn [add_out st_out] in Hout. cbv zeta.
  set (sorted := sort_Slice _ analyzed) in *.
  pose proof (slice_elems_length _ _ _ Helems) as Hsorted.
  assert (Hn : SliceLen files = Len analyzed).
  { unfold SliceLen, Len, GoInt.len. by rewrite Hlen. }
  rewrite Hn.
  set (width := GoInt.add (min (foldl (fun maxPathLen file =>
                   let pathLen := StrLen (shortenPath (FilePath file)) in
                   if pathLen >? maxPathLen then pathLen else maxPathLen) 0 sorted) 60) 2).
  set (shown := if _ && _ && _ then TopFiles options else Len analyzed).
  assert (Hshown : 0 <= shown <= Len analyzed).
  { unfold shown, Len, GoInt.len.
    destruct (negb (Verbose options)); cbn [andb]; [|lia].
    destruct (Z.gtb_spec (TopFiles options) 0); cbn [andb]; [|lia].
    destruct (Z.ltb_spec (TopFiles options) (Z.of_nat (length analyzed))); lia. }
  assert (Hall : Verbose options = true -> take (Z.to_nat shown) sorted = sorted).
  { intros Hv. unfold shown. rewrite Hv. cbn [negb andb].
    apply take_ge. unfold Len, GoInt.len. lia. }
  clearbody shown.
  apply (wp_mono _ _ (fun _ st' =>
           same_store st1 st'
           /\ exists new, st_out st' = st_out st1 ++ new
                          /\ file_lines new
                             = file_line width <$> take (Z.to_nat shown) sorted)).
  2:{ intros u st2 (_ & new & Hout2 & Hlines). eexists (_ :: new), width. split.
      - rewrite Hout2, Hout. by rewrite <- app_assoc.
      - split; [apply path_width_bounds|].
        rewrite file_lines_cons_other by reflexivity. split; [done|].
        intros Hv. by rewrite Hlines, Hall. }
  apply emits_wp.
  destruct (Len analyzed =? 0) eqn:Hzero.
  - apply Z.eqb_eq in Hzero. apply emits_Println.
    rewrite file_lines_cons_other by reflexivity.
    assert (sorted = []) as ->.
    { apply length_zero_iff_nil. unfold Len, GoInt.len in Hzero. lia. }
    by rewrite take_nil.
  - clear Hzero.
    eapply emits_bind; [by apply (emits_files_of _ _ sorted)|].
    intros elems new0 [-> ->]. cbn [app]. fold width.
    eapply emits_bind.
    { apply emits_slice_to. unfold Len, GoInt.len in Hshown. lia. }
    intros shownSlice new0 [-> ->]. cbn [app].
    eapply emits_bind.
    { apply (emits_files_of _ _ (take (Z.to_nat shown) sorted)).
      apply slice_elems_prefix; [done|]. unfold Len, GoInt.len in Hshown. lia. }
    intros shownElems new0 [-> ->]. cbn [app].
    unfold for_each_indexed.
    eapply emits_mono.
    { apply (emits_for_each st1 _ _
               (fun ix new => file_lines new = [file_line width ix.2])).
      intros [i f] _. cbn [fst snd].
      do 3 apply emits_Printf_then.
      apply (all_emits _ other_item _ (fun _ => True)).
      2:{ intros u4 new4 _ Hother.
          rewrite !file_lines_cons_other by reflexivity.
          rewrite file_lines_cons_line by reflexivity.
          by rewrite file_lines_other. }
      all_prints.
      eapply all_bind; [apply printCategoryStats_other|]. intros _ _. all_prints.
      eapply all_bind.
      { all_issues_block. pose proof (min_le_r (MaxIssues options) (Len (Issues f))).
        destruct (negb (Verbose options)); lia. }
      intros _ _. destruct (_ <? _); [by apply all_Println | by apply all_ret]. }
    intros u new (news & -> & Hnews). cbv beta.
    rewrite (file_lines_rounds (fun ix : Z * FileAnalysisResult => file_line width ix.2) _ _ Hnews).
    set (shownElems := take (Z.to_nat shown) sorted).
    transitivity (file_line width <$> (zip (seqZ 0 (GoInt.len shownElems)) shownElems).*2).
    { rewrite <- list_fmap_compose. reflexivity. }
    f_equal. apply snd_zip. rewrite length_seqZ. unfold GoInt.len. lia.
Qed.

End FileLists.

(** ** The advice of the summary *)

Lemma QualityLevels_strictly_ascending :
  StronglySorted (fun a b => F64.lt (MinScore a) (MinScore b) = true) QualityLevels.
Proof. repeat constructor. Qed.

(** The level of a score lies below a bound of the table (not the first)
    exactly when the score does not reach the bound. *)
Lemma getQualityLevel_below score i q :
  (0 < i)%nat -> QualityLevels !! i = Some q ->
  F64.lt (MinScore (getQualityLevel score)) (MinScore q) = negb (F64.ge score (MinScore q)).
Proof.
  intros Hpos Hq. unfold getQualityLevel. cbv zeta.
  assert (Hi : (i < length QualityLevels)%nat) by (by apply lookup_lt_Some in Hq).
  destruct (getQualityLevel_loop_spec score (length QualityLevels) QualityLevels_0)
    as [[-> Hnone]|(k & Hk & Hlevel & Hreach & Habove)]; [done| |].
  - rewrite (Hnone i q Hi Hq). cbn [negb].
    apply (StronglySorted_lookup_le _ QualityLevels 0 i _ _ QualityLevels_strictly_ascending);
      done.
  - remember (getQualityLevel_loop score (length QualityLevels) QualityLevels_0) as level eqn:Hdef.
    clear Hdef.
    destruct (le_lt_dec i k) as [Hle|Hlt].
    + assert (Hbound : F64.le (MinScore q) (MinScore level) = true).
      { destruct (decide (i = k)) as [->|Hne].
        - rewrite Hlevel in Hq. injection Hq as <-.
          apply F64Order.le_not_nan in Hreach as [Hnan _].
          apply F64Order.le_key; [done..|]. unfold F64Order.key_le. lia.
        - apply (StronglySorted_lookup_le _ QualityLevels i k _ _ QualityLevels_ascending);
            [lia|done..]. }
      assert (Hq' : F64.ge score (MinScore q) = true).
      { by apply (F64Order.le_trans _ (MinScore level)). }
      rewrite Hq'. cbn [negb].
      destruct (F64.lt (MinScore level) (MinScore q)) eqn:Hlt; [|done].
      apply F64Order.lt_le_false in Hlt. rewrite Hbound in Hlt. discriminate.
    + rewrite (Habove i q (conj Hlt Hi) Hq). cbn [negb].
      apply (StronglySorted_lookup_le _ QualityLevels k i _ _ QualityLevels_strictly_ascending);
        done.
Qed.

Section Advice.
Context {Language : Type} `{translator : !Translator Language}.

(** The line of advice for a score, as the score is read against the
    table. *)
Definition advice_of (score : float64) : Event :=
  if F64.ge score (F64.of_int 60) then
    EvPrintln (Some dangerStyle) [VString ("  " +:+ Translate "advice.bad" [])]
  else if F64.ge score (F64.of_int 30) then
    EvPrintln (Some warningStyle) [VString ("  " +:+ Translate "advice.moderate" [])]
  else
    EvPrintln (Some successStyle) [VString ("  " +:+ Translate "advice.good" [])].

(** X12. The advice that [printSummary] gives for the level of a score
    follows the score: [advice.bad] when the score reaches 60,
    [advice.moderate] when it reaches 30 but not 60, [advice.good]
    otherwise (below 30, or NaN). It is the fifth of the six items of the
    summary. *)
Theorem printSummary_advice_follows_score (score : float64) (st : State) :
  wp (printSummary (getQualityLevel score)) st (fun _ st' =>
    exists heading emoji name description,
      st_out st'
      = st_out st ++ [heading; emoji; name; description; advice_of score; EvPrintln None []]).
Proof.
  unfold printSummary.
  do 4 (apply wp_bind, wp_Printf). apply wp_bind.
  assert (H30 : F64.lt (MinScore (getQualityLevel score)) (F64.of_int 30)
                = negb (F64.ge score (F64.of_int 30))).
  { by apply (getQualityLevel_below score 3 _ ltac:(lia) eq_refl). }
  assert (H60 : F64.lt (MinScore (getQualityLevel score)) (F64.of_int 60)
                = negb (F64.ge score (F64.of_int 60))).
  { by apply (getQualityLevel_below score 6 _ ltac:(lia) eq_refl). }
  rewrite H30, H60. unfold advice_of.
  assert (Hbounds : F64.le (F64.of_int 30) (F64.of_int 60) = true) by (vm_compute; reflexivity).
  destruct (F64.ge score (F64.of_int 30)) eqn:Hs30, (F64.ge score (F64.of_int 60)) eqn:Hs60;
    cbn [negb].
  - apply wp_Println, wp_Println. cbn [add_out st_out].
    eexists _, _, _, _. by rewrite <- !app_assoc.
  - apply wp_Println, wp_Println. cbn [add_out st_out].
    eexists _, _, _, _. by rewrite <- !app_assoc.
  - pose proof (F64Order.le_trans _ _ _ Hbounds Hs60) as Hs.
    unfold F64.ge, F64.le in Hs30, Hs. congruence.
  - apply wp_Println, wp_Println. cbn [add_out st_out].
    eexists _, _, _, _. by rewrite <- !app_assoc.
Qed.

End Advice.

(** ** [getSortedMetrics] without metrics *)

Section NoMetrics.
Context `{env : GoEnv}.

(** X13. Without metrics [getSortedMetrics] returns the nil slice: it
    appends nothing, so it allocates no array, and sorting the nil slice
    does not panic. The store is as it was. *)
Theorem getSortedMetrics_no_metrics (st : State) :
  Metrics (st_result st) = ∅ ->
  wp getSortedMetrics st (fun metrics st' =>
    metrics = nil_slice
    /\ st_result st' = st_result st /\ st_files st' = st_files st
    /\ st_metrics st' = st_metrics st /\ st_out st' = st_out st).
Proof.
  intros Hempty. unfold getSortedMetrics.
  apply wp_bind, wp_get_result. apply wp_bind.
  eexists _, _. split; [reflexivity|].
  assert (Hentries : map_range (st_ranges st) (Metrics (st_result st)) = []).
  { apply Permutation_nil_r. rewrite map_range_perm, Hempty. by rewrite map_to_list_empty. }
  rewrite Hentries. cbn [foldl].
  apply wp_bind, wp_ret. apply wp_bind.
  exists tt, (set_metrics (st_metrics (tick_range st)) (tick_range st)).
  split; [reflexivity|]. apply wp_ret. by repeat split.
Qed.

End NoMetrics.

(** ** The further properties on the fixtures *)

(** A result without files and without metrics. *)
Definition demo_empty_state : State :=
  {| st_result :=
       {| TotalFiles := 0; TotalLines := 0; Metrics := ∅;
          FilesAnalyzed := nil_slice; CodeQualityScore := F64.zero |};
     st_files := ∅;
     st_metrics := ∅;
     st_out := [];
     st_ranges := 0 |}.

Lemma printTopIssues_no_files_witness :
  slice_elems (st_files demo_empty_state) (FilesAnalyzed (st_result demo_empty_state)) = Some []
  /\ wp (@printTopIssues reference_env _ key_translator DefaultReportOptions)
        demo_empty_state (fun _ st' => length (st_out st') = 2%nat).
Proof.
  assert (H : slice_elems (st_files demo_empty_state)
                          (FilesAnalyzed (st_result demo_empty_state)) = Some [])
    by (vm_compute; reflexivity).
  split; [exact H|].
  destruct (@printTopIssues_no_files reference_env _ key_translator DefaultReportOptions
              demo_empty_state H) as (u & st' & Hrun & Hout).
  exists u, st'. split; [exact Hrun|]. rewrite Hout. reflexivity.
Defined.

Lemma printAllFiles_no_files_witness :
  slice_elems (st_files demo_empty_state) (FilesAnalyzed (st_result demo_empty_state)) = Some []
  /\ wp (@printAllFiles reference_env _ key_translator DefaultReportOptions)
        demo_empty_state (fun _ st' => length (st_out st') = 2%nat).
Proof.
  assert (H : slice_elems (st_files demo_empty_state)
                          (FilesAnalyzed (st_result demo_empty_state)) = Some [])
    by (vm_compute; reflexivity).
  split; [exact H|].
  destruct (@printAllFiles_no_files reference_env _ key_translator DefaultReportOptions
              demo_empty_state H) as (u & st' & Hrun & Hout).
  exists u, st'. split; [exact Hrun|]. rewrite Hout. reflexivity.
Defined.

Definition demo_summary_options : ReportOptions :=
  {| Verbose := false; TopFiles := 3; MaxIssues := 3; SummaryOnly := true |}.

Lemma GenerateConsoleReport_summary_only_witness :
  SummaryOnly demo_summary_options = true
  /\ Verbose demo_summary_options = false
  /\ wp (@GenerateConsoleReport reference_env DemoLanguage _ DemoEnUS key_translator
           (Some demo_summary_options))
        demo_state
        (fun _ st' => st_files st' = st_files demo_state /\ length (st_out st') = 18%nat).
Proof.
  split; [reflexivity|]. split; [reflexivity|].
  destruct (@GenerateConsoleReport_summary_only reference_env DemoLanguage _ DemoEnUS
              key_translator demo_summary_options demo_state eq_refl eq_refl)
    as (u & st' & Hrun & _ & Hfiles & _ & _ & new & Hout & Hnew).
  exists u, st'. split; [exact Hrun|]. split; [exact Hfiles|].
  rewrite Hout. exact Hnew.
Defined.

Definition demo_sorted : list FileAnalysisResult :=
  @sort_Slice reference_env _ (fun fi fj => F64.gt (FileScore fi) (FileScore fj))
              [demo_file_a; demo_file_b].

Lemma demo_sorted_eq : demo_sorted = [demo_file_b; demo_file_a].
Proof. vm_compute. reflexivity. Qed.

Lemma printTopIssues_lists_worst_files_witness :
  slice_elems (st_files demo_state) (FilesAnalyzed (st_result demo_state))
  = Some [demo_file_a; demo_file_b]
  /\ wp (@printTopIssues reference_env _ key_translator
           {| Verbose := false; TopFiles := 1; MaxIssues := 3; SummaryOnly := false |})
        demo_state
        (fun _ st' => exists width, file_lines (st_out st') = [file_line width demo_file_b]).
Proof.
  assert (H : slice_elems (st_files demo_state) (FilesAnalyzed (st_result demo_state))
              = Some [demo_file_a; demo_file_b]) by (vm_compute; reflexivity).
  split; [exact H|].
  destruct (@printTopIssues_lists_worst_files reference_env _ key_translator
              {| Verbose := false; TopFiles := 1; MaxIssues := 3; SummaryOnly := false |}
              demo_state _ H) as (u & st' & Hrun & new & width & Hout & _ & Hlines).
  exists u, st'. split; [exact Hrun|]. exists width.
  rewrite Hout. change (st_out demo_state ++ new) with new. rewrite Hlines.
  fold demo_sorted. rewrite demo_sorted_eq. reflexivity.
Defined.

Lemma printAllFiles_lists_files_witness :
  slice_elems (st_files demo_state) (FilesAnalyzed (st_result demo_state))
  = Some [demo_file_a; demo_file_b]
  /\ wp (@printAllFiles reference_env _ key_translator
           {| Verbose := true; TopFiles := 1; MaxIssues := 3; SummaryOnly := false |})
        demo_state
        (fun _ st' => exists width,
           file_lines (st_out st') = [file_line width demo_file_b; file_line width demo_file_a]).
Proof.
  assert (H : slice_elems (st_files demo_state) (FilesAnalyzed (st_result demo_state))
              = Some [demo_file_a; demo_file_b]) by (vm_compute; reflexivity).
  split; [exact H|].
  destruct (@printAllFiles_lists_files reference_env _ key_translator
              {| Verbose := true; TopFiles := 1; MaxIssues := 3; SummaryOnly := false |}
              demo_state _ H) as (u & st' & Hrun & new & width & Hout & _ & _ & Hlines).
  exists u, st'. split; [exact Hrun|]. exists width.
  rewrite Hout. change (st_out demo_state ++ new) with new. rewrite (Hlines eq_refl).
  fold demo_sorted. rewrite demo_sorted_eq. reflexivity.
Defined.

Lemma getSortedMetrics_no_metrics_witness :
  Metrics (st_result demo_empty_state) = ∅
  /\ wp (@getSortedMetrics reference_env) demo_empty_state (fun metrics st' =>
       metrics = nil_slice /\ st_metrics st' = st_metrics demo_empty_state).
Proof.
  split; [reflexivity|].
  destruct (@getSortedMetrics_no_metrics reference_env demo_empty_state eq_refl)
    as (s & st' & Hrun & Hs & _ & _ & Hm & _).
  exists s, st'. split; [exact Hrun|]. split; [exact Hs | exact Hm].
Defined.

(** ** The issues that a report lists *)

(** [emits_kept st0 p m V]: what [m] prints, filtered by [p], satisfies
    [V]. *)
Definition emits_kept {B} (st0 : State) (p : Event -> bool) (m : M B)
    (V : B -> list Event -> Prop) : Prop :=
  emits st0 m (fun b new => V b (List.filter p new)).

Lemma filter_none (p : Event -> bool) new :
  Forall (fun e => p e = false) new -> List.filter p new = [].
Proof.
  induction 1 as [|e new He _ IH]; [done|]. cbn [List.filter]. by rewrite He.
Qed.

Lemma kept_bind {B C} st0 p (m : M B) (k : B -> M C)
    (V1 : B -> list Event -> Prop) (V : C -> list Event -> Prop) :
  emits_kept st0 p m V1 ->
  (forall b l1, V1 b l1 -> emits_kept st0 p (k b) (fun c l2 => V c (l1 ++ l2))) ->
  emits_kept st0 p (m ≫= k) V.
Proof.
  intros Hm Hk. eapply emits_bind; [exact Hm|].
  intros b new1 H1. eapply emits_mono; [by apply (Hk b _ H1)|].
  intros c new2 H2. cbv beta in *. by rewrite List.filter_app.
Qed.

Lemma kept_mono {B} st0 p (m : M B) (V W : B -> list Event -> Prop) :
  emits_kept st0 p m V -> (forall b l, V b l -> W b l) -> emits_kept st0 p m W.
Proof. intros Hm HW. eapply emits_mono; [exact Hm|]. intros b new. apply HW. Qed.

(** A block that prints nothing that [p] keeps. *)
Lemma kept_none {B} st0 p (m : M B) (W : B -> Prop) :
  emits_all st0 (fun e => p e = false) m W ->
  emits_kept st0 p m (fun b l => l = [] /\ W b).
Proof.
  intros Hm. eapply emits_mono; [exact Hm|].
  intros b new [HW Hnew]. split; [by apply filter_none | done].
Qed.

Lemma kept_skip {B C} st0 p (m : M B) (k : B -> M C) (W : B -> Prop)
    (V : C -> list Event -> Prop) :
  emits_all st0 (fun e => p e = false) m W ->
  (forall b, W b -> emits_kept st0 p (k b) V) ->
  emits_kept st0 p (m ≫= k) V.
Proof.
  intros Hm Hk. eapply kept_bind; [by apply kept_none|].
  intros b l1 [-> HW]. by apply Hk.
Qed.

Lemma kept_then_skip {B C} st0 p (m : M B) (k : B -> M C) (V : list Event -> Prop) :
  emits_kept st0 p m (fun _ l => V l) ->
  (forall b, emits_all st0 (fun e => p e = false) (k b) (fun _ => True)) ->
  emits_kept st0 p (m ≫= k) (fun _ l => V l).
Proof.
  intros Hm Hk. eapply kept_bind; [exact Hm|].
  intros b l1 H1. eapply kept_mono; [apply kept_none, Hk|].
  intros c l2 [-> _]. by rewrite app_nil_r.
Qed.

Lemma kept_Printf st0 (p : Event -> bool) style format args :
  p (EvPrintf style format args) = true ->
  emits_kept st0 p (Printf style format args)
             (fun _ l => l = [EvPrintf style format args]).
Proof. intros He. apply emits_Printf. cbn [List.filter]. by rewrite He. Qed.

Lemma kept_for_each {B} st0 p (l : list B) (body : B -> M unit) (g : B -> list Event) :
  (forall x, x ∈ l -> emits_kept st0 p (body x) (fun _ kept => kept = g x)) ->
  emits_kept st0 p (for_each l body) (fun _ kept => kept = concat (g <$> l)).
Proof.
  intros Hbody. eapply emits_mono.
  - apply (emits_for_each st0 l body (fun x new => List.filter p new = g x)).
    intros x Hx. by apply Hbody.
  - intros u new (news & -> & Hnews). clear Hbody.
    induction Hnews as [|x new l news Hx _ IH]; [done|].
    cbn [concat fmap list_fmap]. by rewrite List.filter_app, Hx, IH.
Qed.

(** The rounds [0 .. n-1] of a loop that each handle the element of a
    list at their index handle the first [n] elements. *)
Lemma concat_upto {A E} (l : list A) (H : A -> list E) (n : nat) :
  concat ((fun j : Z => match l !! Z.to_nat j with Some x => H x | None => [] end)
            <$> seqZ 0 (Z.of_nat n))
  = concat (H <$> take n l).
Proof.
  induction n as [|n IH]; [by rewrite take_0|].
  rewrite seqZ_S, fmap_app, concat_app, IH. cbn [fmap list_fmap concat].
  replace (Z.to_nat (0 + Z.of_nat n)) with n by lia. rewrite app_nil_r.
  destruct (l !! n) as [x|] eqn:Hx.
  - rewrite (take_S_r _ _ _ Hx), fmap_app, concat_app. cbn [fmap list_fmap concat].
    by rewrite app_nil_r.
  - apply lookup_ge_None in Hx. rewrite !take_ge by lia. by rewrite app_nil_r.
Qed.

Lemma seqZ_to_nat n : seqZ 0 n = seqZ 0 (Z.of_nat (Z.to_nat n)).
Proof. unfold seqZ. by rewrite Nat2Z.id. Qed.

Lemma concat_singletons {A E} (h : A -> E) (l : list A) :
  concat ((fun x => [h x]) <$> l) = h <$> l.
Proof. induction l as [|x l IH]; [done|]. cbn [fmap list_fmap concat app]. by rewrite IH. Qed.

(** The line of an issue in [printTopIssues] and [printAllFiles]; no other
    item of the two has its format. *)
Definition is_issue_line (e : Event) : bool :=
  match e with
  | EvPrintf _ format _ => String.eqb format ("%s%s" +:+ nl)
  | EvPrintln _ _ => false
  end.

Definition issue_lines (out : list Event) : list Event := List.filter is_issue_line out.

Ltac no_issue_prints :=
  repeat (eapply all_bind;
          [first [apply all_Printf | apply all_Println]; reflexivity | intros _ _]).

Section IssueLists.
Context `{env : GoEnv}.
Context {Language : Type} `{translator : !Translator Language}.

Definition issue_line (issue : string) : Event :=
  EvPrintf (Some (getIssueIconAndColor issue).2) ("%s%s" +:+ nl)
           [VString (getIssueIconAndColor issue).1; VString issue].

(** The first [n] issues of a file, as lines. *)
Definition shown_issues (n : Z) (f : FileAnalysisResult) : list Event :=
  issue_line <$> take (Z.to_nat n) (Issues f).

Lemma printCategoryStats_no_issue st0 issuesByCategory :
  emits_all st0 (fun e => is_issue_line e = false)
            (printCategoryStats issuesByCategory) (fun _ => True).
Proof.
  unfold printCategoryStats. destruct (MapLen _ >? 0); [|by apply all_ret].
  cbv zeta. set (categories := foldl _ _ _).
  eapply all_bind; [|intros _ _; by apply all_Println].
  apply all_for_each_indexed. intros i category Hi _. cbv beta.
  eapply all_bind.
  { destruct (0 <? i) eqn:Hpos; [|by apply all_Printf].
    assert (Hdiv : GoInt.divisor_ok (if Len categories <=? 2 then Len categories else 3) = true).
    { unfold GoInt.divisor_ok. apply Z.ltb_lt in Hpos.
      destruct (Z.leb_spec (Len categories) 2); apply negb_true_iff, Z.eqb_neq; lia. }
    rewrite Hdiv. destruct (_ =? 0); by apply all_Printf. }
  intros _ _. destruct (Len _ =? 2) eqn:Hparts; [|by apply all_Printf].
  apply Z.eqb_eq in Hparts.
  eapply all_bind.
  { apply all_quiet. eapply emits_mono; [apply emits_range_map|].
    intros entries new ->. split; [done | exact I]. }
  intros infos _.
  apply all_for_each_break. intros entry _. cbv zeta.
  eapply all_bind; [apply all_quiet, emits_index; lia|].
  intros parts0 _. destruct (GoStrings.Contains _ _); [|by apply all_ret].
  eapply all_bind; [by apply all_Printf|]. intros _ _.
  eapply all_bind; [apply all_quiet, emits_index; lia|]. intros parts1 _.
  eapply all_bind; [by apply all_Printf|]. intros _ _. by apply all_ret.
Qed.

(** The loop over the issues of a file: one line for each of the first
    [maxIssues]. *)
Lemma issues_loop_kept st0 (issues : list string) (maxIssues : Z) (indent : string) :
  maxIssues <= Len issues ->
  emits_kept st0 is_issue_line
    (for_upto maxIssues (fun j =>
       issue ← index issues j;
       let iconAndColor := getIssueIconAndColor issue in
       let issueIcon := iconAndColor.1 in
       let issueColor := iconAndColor.2 in
       Printf None "%s" [VString indent];;
       Printf (Some issueColor) ("%s%s" +:+ nl) [VString issueIcon; VString issue]))
    (fun _ kept => kept = issue_line <$> take (Z.to_nat maxIssues) issues).
Proof.
  intros Hmax. unfold for_upto.
  eapply kept_mono.
  - apply (kept_for_each st0 _ _ _
             (fun j => match issues !! Z.to_nat j with
                       | Some issue => [issue_line issue]
                       | None => []
                       end)).
    intros j Hj. apply elem_of_seqZ in Hj.
    eapply kept_bind.
    { apply kept_none, all_quiet, emits_index. lia. }
    intros issue l1 [-> Hissue]. cbv zeta. cbn [app]. rewrite Hissue.
    eapply kept_skip; [by apply all_Printf|]. intros _ _.
    by apply kept_Printf.
  - intros u kept ->. rewrite seqZ_to_nat.
    rewrite (concat_upto issues (fun issue => [issue_line issue])).
    apply concat_singletons.
Qed.

Lemma issue_lines_cons_other e new :
  is_issue_line e = false -> issue_lines (e :: new) = issue_lines new.
Proof. intros He. unfold issue_lines. cbn [List.filter]. by rewrite He. Qed.

Lemma kept_emits {B} st0 p (m : M B) (V : B -> list Event -> Prop) :
  emits_kept st0 p m V -> emits st0 m (fun b new => V b (List.filter p new)).
Proof. done. Qed.

Lemma take_min {A} (l : list A) (n : Z) :
  take (Z.to_nat (min n (Len l))) l = take (Z.to_nat n) l.
Proof.
  unfold min, Len, GoInt.len. destruct (Z.ltb_spec n (Z.of_nat (length l))); [done|].
  rewrite !take_ge by lia. done.
Qed.

(** The part of a file's block that lists its issues, in
    [printTopIssues]. *)
Ltac issues_part options f :=
  apply (kept_then_skip _ _ _ _ (fun l => l = shown_issues (MaxIssues options) f));
  [ destruct (Len (Issues f) =? 0) eqn:Hz;
    [ apply Z.eqb_eq in Hz;
      eapply kept_mono; [apply kept_none, all_Printf; reflexivity|];
      intros u l [-> _]; unfold shown_issues;
      assert (Issues f = []) as -> by (apply length_zero_iff_nil; unfold Len, GoInt.len in Hz; lia);
      by rewrite take_nil
    | idtac ]
  | intros _; destruct (_ <? _); [by apply all_Println | by apply all_ret] ].

(** X14. Under each file that it lists, [printTopIssues] prints the
    first [MaxIssues] issues of the file (all when it has no more, none
    when [MaxIssues] is not positive), in their order, each with the icon
    and the colour of [getIssueIconAndColor]. *)
Theorem printTopIssues_lists_first_issues
    (options : ReportOptions) (st : State) (analyzed : list FileAnalysisResult) :
  slice_elems (st_files st) (FilesAnalyzed (st_result st)) = Some analyzed ->
  wp (printTopIssues options) st (fun _ st' =>
    exists new,
      st_out st' = st_out st ++ new
      /\ issue_lines new
         = concat (shown_issues (MaxIssues options)
                     <$> take (Z.to_nat (min (TopFiles options) (Len analyzed)))
                              (sort_Slice (fun fi fj => F64.gt (FileScore fi) (FileScore fj))
                                          analyzed))).
Proof.
  intros Han. unfold printTopIssues.
  apply wp_bind, wp_Printf. apply wp_bind.
  eapply wp_mono; [by apply (getSortedFiles_spec _ analyzed)|].
  intros allFiles st1 (_ & _ & Hout & _ & _ & Hlen & _ & Helems).
  cbn [add_out st_out] in Hout.
  set (sorted := sort_Slice _ analyzed) in *.
  pose proof (slice_elems_length _ _ _ Helems) as Hsorted.
  assert (Hn : SliceLen allFiles = Len analyzed).
  { unfold SliceLen, Len, GoInt.len. by rewrite Hlen. }
  set (k := Z.to_nat (min (TopFiles options) (Len analyzed))).
  set (shown := concat (shown_issues (MaxIssues options) <$> take k sorted)).
  apply (wp_mono _ _ (fun _ st' =>
           same_store st1 st'
           /\ exists new, st_out st' = st_out st1 ++ new /\ issue_lines new = shown)).
  2:{ intros u st2 (_ & new & Hout2 & Hlines). eexists (_ :: new). split.
      - rewrite Hout2, Hout. by rewrite <- app_assoc.
      - by rewrite issue_lines_cons_other. }
  apply emits_wp.
  apply (kept_emits _ is_issue_line _ (fun _ kept => kept = shown)).
  destruct (SliceLen allFiles =? 0) eqn:Hzero.
  - apply Z.eqb_eq in Hzero.
    eapply kept_mono; [apply kept_none, all_Println; reflexivity|].
    intros u l [-> _]. unfold shown.
    assert (sorted = []) as ->.
    { apply length_zero_iff_nil. unfold SliceLen in Hzero. lia. }
    by rewrite take_nil.
  - clear Hzero.
    eapply kept_skip; [apply all_quiet; by apply (emits_files_of _ _ sorted)|].
    intros files ->. cbv zeta. rewrite Hn. unfold for_upto.
    eapply kept_mono.
    { apply (kept_for_each st1 _ _ _
               (fun i => match sorted !! Z.to_nat i with
                         | Some f => shown_issues (MaxIssues options) f
                         | None => []
                         end)).
      intros i Hi. apply elem_of_seqZ in Hi.
      eapply kept_skip; [apply all_quiet; by apply (emits_files_of _ _ sorted)|].
      intros elems ->.
      eapply kept_bind.
      { apply kept_none, all_quiet, emits_index.
        pose proof (min_le_r (TopFiles options) (Len analyzed)).
        unfold Len, GoInt.len in *. lia. }
      intros f l1 [-> Hf]. cbn [app]. rewrite Hf.
      do 4 (eapply kept_skip; [apply all_Printf; reflexivity|]; intros _ _).
      eapply kept_skip; [apply printCategoryStats_no_issue|]. intros _ _.
      eapply kept_skip; [apply all_Println; reflexivity|]. intros _ _.
      issues_part options f.
      cbv zeta.
      apply (kept_then_skip _ _ _ _ (fun l => l = shown_issues (MaxIssues options) f)).
      - eapply kept_mono.
        + apply issues_loop_kept. apply min_le_r.
        + intros u l ->. unfold shown_issues. by rewrite take_min.
      - intros _. destruct (_ && _); [by apply all_Printf | by apply all_ret]. }
    intros u kept ->. rewrite seqZ_to_nat. fold k.
    apply (concat_upto sorted (shown_issues (MaxIssues options))).
Qed.

(** X15. Under each file that it lists, [printAllFiles] prints all the
    issues of the file when [Verbose] is set, and the first [MaxIssues]
    otherwise; with [Verbose], as [GenerateConsoleReport] calls it, the
    issue lines are those of all the issues of all the files, in the order
    of the sorted files. *)
Theorem printAllFiles_lists_issues
    (options : ReportOptions) (st : State) (analyzed : list FileAnalysisResult) :
  slice_elems (st_files st) (FilesAnalyzed (st_result st)) = Some analyzed ->
  wp (printAllFiles options) st (fun _ st' =>
    exists new,
      let sorted := sort_Slice (fun fi fj => F64.gt (FileScore fi) (FileScore fj)) analyzed in
      let shownFiles :=
        if negb (Verbose options) && (TopFiles options >? 0)
           && (TopFiles options <? Len analyzed)
        then TopFiles options else Len analyzed in
      st_out st' = st_out st ++ new
      /\ issue_lines new
         = concat ((fun f => shown_issues (if Verbose options then Len (Issues f)
                                           else MaxIssues options) f)
                     <$> take (Z.to_nat shownFiles) sorted)
      /\ (Verbose options = true -> issue_lines new = issue_line <$> all_issues sorted)).
Proof.
  intros Han. unfold printAllFiles.
  apply wp_bind, wp_Printf. apply wp_bind.
  eapply wp_mono; [by apply (getSortedFiles_spec _ analyzed)|].
  intros files st1 (_ & _ & Hout & _ & _ & Hlen & Hcap & Helems).
  cbn [add_out st_out] in Hout. cbv zeta.
  set (sorted := sort_Slice _ analyzed) in *.
  pose proof (slice_elems_length _ _ _ Helems) as Hsorted.
  assert (Hn : SliceLen files = Len analyzed).
  { unfold SliceLen, Len, GoInt.len. by rewrite Hlen. }
  rewrite Hn.
  set (shownFiles := if _ && _ && _ then TopFiles options else Len analyzed).
  assert (Hshown : 0 <= shownFiles <= Len analyzed).
  { unfold shownFiles, Len, GoInt.len.
    destruct (negb (Verbose options)); cbn [andb]; [|lia].
    destruct (Z.gtb_spec (TopFiles options) 0); cbn [andb]; [|lia].
    destruct (Z.ltb_spec (TopFiles options) (Z.of_nat (length analyzed))); lia. }
  assert (Hall : Verbose options = true -> take (Z.to_nat shownFiles) sorted = sorted).
  { intros Hv. unfold shownFiles. rewrite Hv. cbn [negb andb].
    apply take_ge. unfold Len, GoInt.len. lia. }
  clearbody shownFiles.
  set (per_file := fun f => shown_issues (if Verbose options then Len (Issues f)
                                          else MaxIssues options) f).
  set (shown := concat (per_file <$> take (Z.to_nat shownFiles) sorted)).
  apply (wp_mono _ _ (fun _ st' =>
           same_store st1 st'
           /\ exists new, st_out st' = st_out st1 ++ new /\ issue_lines new = shown)).
  2:{ intros u st2 (_ & new & Hout2 & Hlines). eexists (_ :: new). split.
      - rewrite Hout2, Hout. by rewrite <- app_assoc.
      - rewrite issue_lines_cons_other by reflexivity. split; [done|].
        intros Hv. rewrite Hlines. unfold shown, per_file. rewrite (Hall Hv), Hv.
        unfold all_issues, shown_issues. clear.
        induction sorted as [|f sorted IH]; [done|].
        cbn [fmap list_fmap concat]. rewrite fmap_app, <- IH. f_equal.
        f_equal. apply take_ge. unfold Len, GoInt.len. lia. }
  apply emits_wp.
  apply (kept_emits _ is_issue_line _ (fun _ kept => kept = shown)).
  destruct (Len analyzed =? 0) eqn:Hzero.
  - apply Z.eqb_eq in Hzero.
    eapply kept_mono; [apply kept_none, all_Println; reflexivity|].
    intros u l [-> _]. unfold shown.
    assert (sorted = []) as ->.
    { apply length_zero_iff_nil. unfold Len, GoInt.len in Hzero. lia. }
    by rewrite take_nil.
  - clear Hzero.
    eapply kept_skip; [apply all_quiet; by apply (emits_files_of _ _ sorted)|].
    intros elems ->.
    eapply kept_bind.
    { apply kept_none, all_quiet, emits_slice_to. unfold Len, GoInt.len in Hshown. lia. }
    intros shownSlice l0 [-> ->]. cbn [app].
    eapply kept_bind.
    { apply kept_none, all_quiet.
      apply (emits_files_of _ _ (take (Z.to_nat shownFiles) sorted)).
      apply slice_elems_prefix; [done|]. unfold Len, GoInt.len in Hshown. lia. }
    intros shownElems l0 [-> ->]. cbn [app].
    unfold for_each_indexed.
    eapply kept_mono.
    { apply (kept_for_each st1 _ _ _ (fun ix : Z * FileAnalysisResult => per_file ix.2)).
      intros [i f] _. cbn [fst snd].
      do 4 (eapply kept_skip; [apply all_Printf; reflexivity|]; intros _ _).
      eapply kept_skip; [apply printCategoryStats_no_issue|]. intros _ _.
      eapply kept_skip; [apply all_Println; reflexivity|]. intros _ _.
      apply (kept_then_skip _ _ _ _ (fun l => l = per_file f)).
      2:{ intros _. destruct (_ <? _); [by apply all_Println | by apply all_ret]. }
      destruct (Len (Issues f) =? 0) eqn:Hz.
      { apply Z.eqb_eq in Hz.
        eapply kept_mono; [apply kept_none, all_Printf; reflexivity|].
        intros u l [-> _]. unfold per_file, shown_issues.
        assert (Issues f = []) as ->
          by (apply length_zero_iff_nil; unfold Len, GoInt.len in Hz; lia).
        by rewrite take_nil. }
      clear Hz.
      apply (kept_then_skip _ _ _ _ (fun l => l = per_file f)).
      - eapply kept_mono.
        + apply issues_loop_kept.
          pose proof (min_le_r (MaxIssues options) (Len (Issues f))).
          destruct (negb (Verbose options)); lia.
        + intros u l ->. unfold per_file, shown_issues.
          destruct (Verbose options); cbn [negb]; [done|]. by rewrite take_min.
      - intros _. destruct (_ && _); [by apply all_Printf | by apply all_ret]. }
    intros u kept ->. unfold shown.
    set (shownElems := take (Z.to_nat shownFiles) sorted).
    f_equal.
    transitivity (per_file <$> (zip (seqZ 0 (GoInt.len shownElems)) shownElems).*2).
    { rewrite <- list_fmap_compose. reflexivity. }
    f_equal. apply snd_zip. rewrite length_seqZ. unfold GoInt.len. lia.
Qed.

End IssueLists.

Lemma printTopIssues_lists_first_issues_witness :
  slice_elems (st_files demo_state) (FilesAnalyzed (st_result demo_state))
  = Some [demo_file_a; demo_file_b]
  /\ wp (@printTopIssues reference_env _ key_translator
           {| Verbose := false; TopFiles := 3; MaxIssues := 2; SummaryOnly := false |})
        demo_state
        (fun _ st' =>
           issue_lines (st_out st')
           = [@issue_line reference_env "Function run has complexity 12";
              @issue_line reference_env "bad naming: x"]).
Proof.
  assert (H : slice_elems (st_files demo_state) (FilesAnalyzed (st_result demo_state))
              = Some [demo_file_a; demo_file_b]) by (vm_compute; reflexivity).
  split; [exact H|].
  destruct (@printTopIssues_lists_first_issues reference_env _ key_translator
              {| Verbose := false; TopFiles := 3; MaxIssues := 2; SummaryOnly := false |}
              demo_state _ H) as (u & st' & Hrun & new & Hout & Hlines).
  exists u, st'. split; [exact Hrun|].
  rewrite Hout. change (st_out demo_state ++ new) with new. rewrite Hlines.
  fold demo_sorted. rewrite demo_sorted_eq. reflexivity.
Defined.

Lemma printAllFiles_lists_issues_witness :
  slice_elems (st_files demo_state) (FilesAnalyzed (st_result demo_state))
  = Some [demo_file_a; demo_file_b]
  /\ wp (@printAllFiles reference_env _ key_translator
           {| Verbose := true; TopFiles := 1; MaxIssues := 1; SummaryOnly := false |})
        demo_state
        (fun _ st' =>
           issue_lines (st_out st')
           = [@issue_line reference_env "Function run has complexity 12";
              @issue_line reference_env "bad naming: x";
              @issue_line reference_env "odd"]).
Proof.
  assert (H : slice_elems (st_files demo_state) (FilesAnalyzed (st_result demo_state))
              = Some [demo_file_a; demo_file_b]) by (vm_compute; reflexivity).
  split; [exact H|].
  destruct (@printAllFiles_lists_issues reference_env _ key_translator
              {| Verbose := true; TopFiles := 1; MaxIssues := 1; SummaryOnly := false |}
              demo_state _ H) as (u & st' & Hrun & new & Hout & _ & Hlines).
  exists u, st'. split; [exact Hrun|].
  rewrite Hout. change (st_out demo_state ++ new) with new. rewrite (Hlines eq_refl).
  fold demo_sorted. rewrite demo_sorted_eq. reflexivity.
Defined.

(** ** The metrics that a report lists *)

Lemma emits_metrics_of st0 s xs :
  slice_elems (st_metrics st0) s = Some xs ->
  emits st0 (metrics_of s) (fun elems new => new = [] /\ elems = xs).
Proof.
  intros Hs. apply quiet_emits. intros st Hst. apply (wp_metrics_of _ _ xs); [|done].
  destruct Hst as (_ & _ & ->). done.
Qed.

(** The item that opens the row of a metric in [printMetricItems], the
    only item of it with two strings: the mark and the name. *)
Definition is_metric_name (e : Event) : bool :=
  match e with
  | EvPrintf _ _ [VString _; VString _] => true
  | _ => false
  end.

Definition metric_name_item (nameFormat : string) (m : MetricResult) : Event :=
  let scorePercentage := percentage (Score m) in
  let status :=
    if F64.lt scorePercentage (F64.of_int 30) then ("✓", goodStyle)
    else if F64.lt scorePercentage (F64.of_int 70) then ("!", warningStyle)
    else ("✗", dangerStyle) in
  EvPrintf (Some status.2) nameFormat [VString status.1; VString (Name m)].

(** The score that closes the block of a metric in [printVerboseInfo]. *)
Definition is_verbose_score (e : Event) : bool :=
  match e with
  | EvPrintf _ format _ => String.eqb format ("%.2f/100" +:+ nl)
  | EvPrintln _ _ => false
  end.

Definition verbose_score_item (m : MetricResult) : Event :=
  EvPrintf (Some (getScoreColor (Score m))) ("%.2f/100" +:+ nl)
           [VFloat (percentage (Score m))].

Section MetricLists.
Context `{env : GoEnv}.
Context {Language : Type} `{!EqDecision Language} (EnUS : Language).
Context `{translator : !Translator Language}.

(** X16. [printMetricItems] prints one row for every metric of [Metrics],
    in ascending order of score: the items that open the rows, each with
    its mark and the name of its metric, are those of the sorted
    metrics. *)
Theorem printMetricItems_lists_metrics (st : State) :
  wp (printMetricItems EnUS) st (fun _ st' =>
    exists new nameFormat,
      st_out st' = st_out st ++ new
      /\ List.filter is_metric_name new
         = metric_name_item nameFormat <$> sorted_metrics st).
Proof.
  unfold printMetricItems.
  apply wp_bind, wp_Printf. apply wp_bind.
  eapply wp_mono; [apply getSortedMetrics_spec|].
  intros metrics st1 (_ & _ & Hout & _ & _ & Helems).
  change (sorted_metrics (add_out _ st)) with (sorted_metrics st) in Helems.
  cbn [add_out st_out] in Hout.
  set (ms := sorted_metrics st) in *.
  set (nameFormat := GoFmt.Sprintf "  %%s %%-%ds"
         [VInt (GoInt.add (foldl (fun maxNameLen m =>
                  if StrLen (Name m) >? maxNameLen then StrLen (Name m) else maxNameLen)
                0 ms) 2)]).
  apply (wp_mono _ _ (fun _ st' =>
           same_store st1 st'
           /\ exists new, st_out st' = st_out st1 ++ new
                          /\ List.filter is_metric_name new = metric_name_item nameFormat <$> ms)).
  2:{ intros u st2 (_ & new & Hout2 & Hnames). eexists (_ :: new), nameFormat. split.
      - rewrite Hout2, Hout. by rewrite <- app_assoc.
      - exact Hnames. }
  apply emits_wp.
  apply (kept_emits _ is_metric_name _ (fun _ kept => kept = metric_name_item nameFormat <$> ms)).
  eapply kept_bind; [apply kept_none, all_quiet; by apply (emits_metrics_of _ _ ms)|].
  intros elems l0 [-> ->]. cbv zeta. cbn [app]. fold nameFormat.
  apply (kept_then_skip _ _ _ _ (fun l => l = metric_name_item nameFormat <$> ms)).
  - eapply kept_mono.
    + apply (kept_for_each st1 _ _ _ (fun m => [metric_name_item nameFormat m])).
      intros m _.
      eapply kept_bind; [apply kept_Printf; reflexivity|].
      intros u l1 ->.
      eapply kept_mono.
      * apply kept_none. eapply all_bind; [apply all_Printf; reflexivity|].
        intros _ _. apply all_Printf. reflexivity.
      * intros u' l2 [-> _]. reflexivity.
    + intros u l ->. apply concat_singletons.
  - intros _. eapply all_bind; [apply all_Println; reflexivity|]. intros _ _.
    destruct (F64.gt _ _); [|by apply all_ret].
    do 2 (eapply all_bind; [apply all_Printf; reflexivity|]; intros _ _).
    eapply all_bind; [|intros _ _; apply all_Printf; reflexivity].
    apply all_for_each_indexed. intros i m _ _.
    eapply all_bind; [|intros _ _; apply all_Printf; reflexivity].
    destruct (0 <? i); [apply all_Printf; reflexivity | by apply all_ret].
Qed.

(** X17. [printVerboseInfo] prints, under its two headings, the
    statistics: [TotalFiles], [TotalLines] and the number of all the issues
    of [FilesAnalyzed] (as an [int]); then, under a third heading, a block
    for every metric of [Metrics] in ascending order of score: the scores
    that close the blocks are those of the sorted metrics. *)
Theorem printVerboseInfo_statistics_and_metrics
    (st : State) (analyzed : list FileAnalysisResult) :
  slice_elems (st_files st) (FilesAnalyzed (st_result st)) = Some analyzed ->
  wp printVerboseInfo st (fun _ st' =>
    exists heading statistics details blocks,
      st_out st'
      = st_out st
        ++ [heading; statistics;
            EvPrintf (Some detailStyle) ("    %-15s %d" +:+ nl)
              [VString (Translate "verbose.total_files" []);
               VInt (TotalFiles (st_result st))];
            EvPrintf (Some detailStyle) ("    %-15s %d" +:+ nl)
              [VString (Translate "verbose.total_lines" []);
               VInt (TotalLines (st_result st))];
            EvPrintf (Some detailStyle) ("    %-15s %d" +:+ nl)
              [VString (Translate "verbose.total_issues" []);
               VInt (GoInt.wrap (Z.of_nat (length (all_issues analyzed))))];
            details]
        ++ blocks
      /\ List.filter is_verbose_score blocks = verbose_score_item <$> sorted_metrics st).
Proof.
  intros Han. unfold printVerboseInfo.
  apply wp_bind, wp_Printf. apply wp_bind, wp_Println. apply wp_bind, wp_get_result.
  apply wp_bind, wp_Printf. apply wp_bind, wp_Printf.
  apply wp_bind. unfold getTotalIssues.
  apply wp_bind, wp_get_result. apply wp_bind.
  apply (wp_files_of _ _ analyzed); [exact Han|]. apply wp_ret.
  assert (Htotal : foldl (fun total file => GoInt.add total (Len (Issues file))) 0 analyzed
                   = GoInt.wrap (Z.of_nat (length (all_issues analyzed)))).
  { change 0 with (GoInt.wrap 0) at 1. by rewrite total_issues_fold. }
  rewrite Htotal.
  apply wp_bind, wp_Printf. apply wp_bind, wp_Println.
  apply wp_bind. eapply wp_mono; [apply getSortedMetrics_spec|].
  intros metrics st1 (_ & _ & Hout & _ & _ & Helems).
  match type of Helems with
  | _ = Some (sorted_metrics ?s) => change (sorted_metrics s) with (sorted_metrics st) in Helems
  end.
  cbn [add_out st_out st_result] in Hout.
  set (ms := sorted_metrics st) in *.
  apply (wp_mono _ _ (fun _ st' =>
           same_store st1 st'
           /\ exists new, st_out st' = st_out st1 ++ new
                          /\ List.filter is_verbose_score new = verbose_score_item <$> ms)).
  2:{ intros u st2 (_ & new & Hout2 & Hscores). eexists _, _, _, new. split; [|exact Hscores].
      rewrite Hout2, Hout. rewrite <- !app_assoc. reflexivity. }
  apply emits_wp.
  apply (kept_emits _ is_verbose_score _ (fun _ kept => kept = verbose_score_item <$> ms)).
  eapply kept_bind; [apply kept_none, all_quiet; by apply (emits_metrics_of _ _ ms)|].
  intros elems l0 [-> ->]. cbv zeta. cbn [app].
  eapply kept_mono.
  - apply (kept_for_each st1 _ _ _ (fun m => [verbose_score_item m])).
    intros m _.
    eapply kept_skip.
    { apply all_Printf. cbv beta. unfold is_verbose_score.
      change (GoFmt.Sprintf (nl +:+ "    【%%-%ds】") ?a)
        with (String "010"%char (GoFmt.Sprintf "    【%%-%ds】" a)).
      reflexivity. }
    intros _ _.
    do 3 (eapply kept_skip; [apply all_Printf; reflexivity|]; intros _ _).
    apply kept_Printf. reflexivity.
  - intros u l ->. apply concat_singletons.
Qed.

End MetricLists.

Lemma printVerboseInfo_statistics_and_metrics_witness :
  slice_elems (st_files demo_state) (FilesAnalyzed (st_result demo_state))
  = Some [demo_file_a; demo_file_b]
  /\ wp (@printVerboseInfo reference_env _ key_translator) demo_state (fun _ st' =>
       exists blocks,
         drop 6 (st_out st') = blocks
         /\ nth_error (st_out st') 4
            = Some (EvPrintf (Some detailStyle) ("    %-15s %d" +:+ nl)
                             [VString "verbose.total_issues"; VInt 3])
         /\ List.filter is_verbose_score blocks
            = verbose_score_item <$> @sorted_metrics reference_env demo_state).
Proof.
  assert (H : slice_elems (st_files demo_state) (FilesAnalyzed (st_result demo_state))
              = Some [demo_file_a; demo_file_b]) by (vm_compute; reflexivity).
  split; [exact H|].
  destruct (@printVerboseInfo_statistics_and_metrics reference_env _ key_translator
              demo_state _ H)
    as (u & st' & Hrun & heading & statistics & details & blocks & Hout & Hscores).
  exists u, st'. split; [exact Hrun|]. exists blocks.
  rewrite Hout. split; [reflexivity|]. split; [reflexivity | exact Hscores].
Defined.

(** ** [getScoreColor] *)

Lemma F64_lt_le_trans x y z : F64.lt x y = true -> F64.le y z = true -> F64.lt x z = true.
Proof.
  intros Hxy Hyz.
  destruct (F64Order.lt_not_nan _ _ Hxy) as [Hx Hy], (F64Order.le_not_nan _ _ Hyz) as [_ Hz].
  apply F64Order.lt_key in Hxy; [|done..]. apply F64Order.le_key in Hyz; [|done..].
  apply F64Order.lt_key; [done..|].
  unfold F64Order.key_lt, F64Order.key_le in *. lia.
Qed.

(** X18. [getScoreColor] is monotone: when a score gets the colour of
    danger every score that is not lower gets it too, and when a score gets
    the colour of a good file every score that is not higher gets it
    too. *)
Theorem getScoreColor_monotone (s1 s2 : float64) :
  F64.le s1 s2 = true ->
  (getScoreColor s1 = dangerStyle -> getScoreColor s2 = dangerStyle)
  /\ (getScoreColor s2 = goodStyle -> getScoreColor s1 = goodStyle).
Proof.
  intros Hle. unfold getScoreColor.
  change (F64.gt s1 F64.lit_0_7) with (F64.lt F64.lit_0_7 s1).
  change (F64.gt s1 F64.lit_0_3) with (F64.lt F64.lit_0_3 s1).
  change (F64.gt s2 F64.lit_0_7) with (F64.lt F64.lit_0_7 s2).
  change (F64.gt s2 F64.lit_0_3) with (F64.lt F64.lit_0_3 s2).
  destruct (F64.lt F64.lit_0_7 s1) eqn:H71.
  { rewrite (F64_lt_le_trans _ _ _ H71 Hle). split; [done | discriminate]. }
  destruct (F64.lt F64.lit_0_3 s1) eqn:H31.
  { rewrite (F64_lt_le_trans _ _ _ H31 Hle).
    split; [discriminate|]. destruct (F64.lt F64.lit_0_7 s2); discriminate. }
  split; [discriminate | done].
Qed.

Lemma getScoreColor_monotone_witness :
  F64.le (demo_float 3 4) (demo_float 4 5) = true
  /\ getScoreColor (demo_float 4 5) = dangerStyle.
Proof.
  assert (H : F64.le (demo_float 3 4) (demo_float 4 5) = true) by (vm_compute; reflexivity).
  split; [exact H|].
  apply (proj1 (getScoreColor_monotone _ _ H)). vm_compute. reflexivity.
Defined.

(** ** [getMetricComment] *)

(** The keys that [getMetricComment] asks the translator for, and the
    sentences that it answers with by itself. *)
Definition metric_comment_keys : list string :=
  flat_map (fun kind => List.map (fun level => "metric." +:+ kind +:+ "." +:+ level)
                                 ["good"; "medium"; "bad"])
           ["complexity"; "length"; "comment"; "error"; "naming"; "duplication"; "structure"].

Definition metric_comment_defaults : list string :=
  ["Like a spring breeze, code kissed by angels";
   "Not bad, not great, perfectly balanced";
   "Needs serious improvement, like yesterday";
   "如沐春风，代码仿佛被天使亲吻过";
   "不咸不淡，刚刚好，就像人生的平凡日子";
   "惨不忍睹，建议重写，或者假装没看见"].

Section MetricComment.
Context `{env : GoEnv}.
Context {Language : Type} `{!EqDecision Language} (EnUS : Language).
Context `{translator : !Translator Language}.

(** X19. Whatever the name and the score, [getMetricComment] answers with
    the translation of one of twenty-one keys, [metric.<kind>.<level>] for
    seven kinds and three levels, or with one of its six own sentences; it
    asks the translator for no other key. *)
Theorem getMetricComment_keys (metricName : string) (score : float64) :
  (exists key, In key metric_comment_keys
               /\ getMetricComment EnUS metricName score = Translate key [])
  \/ In (getMetricComment EnUS metricName score) metric_comment_defaults.
Proof.
  unfold getMetricComment. cbv zeta.
  destruct (F64.lt score (F64.of_int 30)); [|destruct (F64.lt score (F64.of_int 70))];
    destruct (decide (GetLanguage = EnUS));
    repeat match goal with
           | |- context [if ?c then _ else _] => destruct c
           end;
    first [ right; vm_compute; tauto
          | left; eexists; split; [|reflexivity]; vm_compute; tauto ].
Qed.

End MetricComment.
